(** * Nextcloud Collectives sync plugin: a shallow embedding of [src/main.ts]

    The plugin synchronises the markdown files of an Obsidian vault with a
    directory tree on a Nextcloud server reached over WebDAV.  This file
    embeds the synchronisation code of [main.ts] (path mapping, the
    directory ensurer, the uploader, the downloader, the orchestrator and
    the credential handlers) and proves properties of it.

    JavaScript strings are modelled as [string]; the operations of
    [String.prototype] used by the plugin are defined in module [JS].
    Asynchronous code is modelled in a state-and-exception monad over a
    [world] that holds the plugin object, the local vault, the remote store
    and the chronological log of every call the plugin issues. *)

From stdpp Require Import gmap strings list fin_maps pretty.
From Stdlib Require Import Ascii ZArith Lia.

(* ===================================================================== *)
(** ** The [String.prototype] methods used by the plugin *)
(* ===================================================================== *)

Module JS.

(** [s.startsWith(pre)] *)
Fixpoint startsWith (s pre : string) {struct pre} : bool :=
  match pre with
  | EmptyString => true
  | String a pre' =>
      match s with
      | EmptyString => false
      | String b s' => if Ascii.eqb a b then startsWith s' pre' else false
      end
  end.

(** [s.slice(n)] for a non-negative [n]: drop the first [n] characters. *)
Fixpoint slice (s : string) (n : nat) {struct n} : string :=
  match n with
  | O => s
  | S n' => match s with
            | EmptyString => EmptyString
            | String _ s' => slice s' n'
            end
  end.

(** The first [n] characters of [s]. *)
Fixpoint take (s : string) (n : nat) {struct n} : string :=
  match n with
  | O => EmptyString
  | S n' => match s with
            | EmptyString => EmptyString
            | String a s' => String a (take s' n')
            end
  end.

(** [s.endsWith(suf)]: compare the last [suf.length] characters. *)
Definition endsWith (s suf : string) : bool :=
  if (String.length suf <=? String.length s)%nat
  then String.eqb (slice s (String.length s - String.length suf)) suf
  else false.

(** [s.lastIndexOf(c)] for a one-character pattern; [-1] when absent. *)
Fixpoint lastIndexOf_from (s : string) (c : Ascii.ascii) (i acc : Z) : Z :=
  match s with
  | EmptyString => acc
  | String a s' =>
      lastIndexOf_from s' c (i + 1) (if Ascii.eqb a c then i else acc)
  end.

Definition lastIndexOf (s : string) (c : Ascii.ascii) : Z :=
  lastIndexOf_from s c 0 (-1).

(** [s.substring(a, b)]: both indices are clamped to [0, s.length] and
    swapped when [a > b]. *)
Definition clamp (s : string) (i : Z) : nat :=
  Nat.min (Z.to_nat i) (String.length s).

Definition substring (s : string) (a b : Z) : string :=
  let lo := Nat.min (clamp s a) (clamp s b) in
  let hi := Nat.max (clamp s a) (clamp s b) in
  take (slice s lo) (hi - lo).

(** [s.replace(pat, rep)] with a string pattern: only the first
    occurrence of [pat] is replaced. *)
Fixpoint replace (s pat rep : string) : string :=
  if startsWith s pat then rep +:+ slice s (String.length pat)
  else match s with
       | EmptyString => EmptyString
       | String a s' => String a (replace s' pat rep)
       end.

(** [s.split(sep)] for a one-character separator. *)
Fixpoint split (s : string) (sep : Ascii.ascii) : list string :=
  match s with
  | EmptyString => [EmptyString]
  | String a s' =>
      if Ascii.eqb a sep then EmptyString :: split s' sep
      else match split s' sep with
           | [] => [String a EmptyString]
           | w :: ws => String a w :: ws
           end
  end.

(** Truthiness of a string: the empty string is falsy. *)
Definition truthy (s : string) : bool :=
  match s with EmptyString => false | _ => true end.

(** [a || b] on strings. *)
Definition or_else (a b : string) : string :=
  if truthy a then a else b.

Arguments lastIndexOf s%_string c%_char.
Arguments split s%_string sep%_char.
Arguments substring s%_string (a b)%_Z.

End JS.

(* ===================================================================== *)
(** ** Data model *)
(* ===================================================================== *)

(** [interface NextcloudPluginSettings] *)
Record NextcloudPluginSettings : Type := Settings {
  nextcloudUrl : string;
  username : string;
  password : string;
  collectivePath : string;
  syncInterval : Z;
  syncOnStartup : bool;
  syncOnSave : bool;
  localFolderPath : string;
  accessToken : string;
  refreshToken : string;
  tokenExpires : Z;
  tokenType : string;
  useOAuth : bool
}.

(** [const DEFAULT_SETTINGS] *)
Definition DEFAULT_SETTINGS : NextcloudPluginSettings :=
  {| nextcloudUrl := "https://your-nextcloud-instance.com";
     username := "";
     password := "";
     collectivePath := "/Collectives";
     syncInterval := 5;
     syncOnStartup := true;
     syncOnSave := true;
     localFolderPath := "";
     accessToken := "";
     refreshToken := "";
     tokenExpires := 0;
     tokenType := "";
     useOAuth := false |}.

Inductive RemoteType : Set := Directory | File.

(** [interface RemoteFile] *)
Record RemoteFile : Type := {
  filename : string;
  basename : string;
  type : RemoteType;
  lastmod : string;
  size : nat;
  etag : string
}.

(** The part of Obsidian's [TFile] the plugin reads. *)
Record TFile : Type := { path : string }.

(** The result of [createClient(url, {username, password})]. *)
Record WebDAVClient : Type := {
  remoteURL : string;
  authUser : string;
  authPassword : string
}.

(** A thrown value: the [status] (of an HTTP failure) and the [message]
    are the two properties the plugin reads from caught errors. *)
Record error : Type := Error { status : option Z; message : string }.

Definition notFound : error := Error (Some 404%Z) "Not Found".
Definition methodNotAllowed : error := Error (Some 405%Z) "Method Not Allowed".
Definition fileExists : error := Error None "File already exists.".
Definition folderExists : error := Error None "Folder already exists.".
Definition noSuchFile : error := Error None "ENOENT: no such file or directory".

(** The calls the sync code issues to its two collaborators: the WebDAV
    client and the vault (with its adapter). *)
Inductive call : Type :=
| Stat (p : string)
| CreateDirectory (p : string)
| PutFileContents (p content : string)
| GetFileContents (p : string)
| GetDirectoryContents (p : string)
| VaultRead (p : string)
| AdapterExists (p : string)
| AdapterRead (p : string)
| AdapterWrite (p content : string)
| VaultCreateFolder (p : string)
| VaultCreate (p content : string).

(** What the log records, in the order it happens: every call with its
    outcome ([None]: it returned, [Some e]: it threw [e]), console output
    and the notices shown to the user. *)
Inductive event : Type :=
| Called (c : call) (outcome : option error)
| ConsoleError (msg : string) (e : error)
| ConsoleLog (msg : string)
| Notice (msg : string).

(** The plugin object together with its environment.

    - [vault]: the local files, path and content, in the order the vault
      enumerates them (a created file comes last);
    - [folders]: the local folders;
    - [remoteFiles], [remoteDirs]: the files and collections of the server;
    - [faults]: failures injected by the environment (network, permissions,
      an unreadable file): given the log so far and a call, the error the
      call throws, if any;
    - [log]: chronological. *)
Record world : Type := World {
  settings : NextcloudPluginSettings;
  client : option WebDAVClient;
  statusBarItem : option string;
  vault : list (string * string);
  folders : gset string;
  remoteFiles : gmap string string;
  remoteDirs : gset string;
  faults : list event -> call -> option error;
  log : list event
}.

Definition set_settings (s : NextcloudPluginSettings) (w : world) : world :=
  World s (client w) (statusBarItem w) (vault w) (folders w)
        (remoteFiles w) (remoteDirs w) (faults w) (log w).
Definition set_client (c : option WebDAVClient) (w : world) : world :=
  World (settings w) c (statusBarItem w) (vault w) (folders w)
        (remoteFiles w) (remoteDirs w) (faults w) (log w).
Definition set_statusBarItem (s : option string) (w : world) : world :=
  World (settings w) (client w) s (vault w) (folders w)
        (remoteFiles w) (remoteDirs w) (faults w) (log w).
Definition set_vault (v : list (string * string)) (w : world) : world :=
  World (settings w) (client w) (statusBarItem w) v (folders w)
        (remoteFiles w) (remoteDirs w) (faults w) (log w).
Definition set_folders (f : gset string) (w : world) : world :=
  World (settings w) (client w) (statusBarItem w) (vault w) f
        (remoteFiles w) (remoteDirs w) (faults w) (log w).
Definition set_remoteFiles (m : gmap string string) (w : world) : world :=
  World (settings w) (client w) (statusBarItem w) (vault w) (folders w)
        m (remoteDirs w) (faults w) (log w).
Definition set_remoteDirs (d : gset string) (w : world) : world :=
  World (settings w) (client w) (statusBarItem w) (vault w) (folders w)
        (remoteFiles w) d (faults w) (log w).
Definition set_log (l : list event) (w : world) : world :=
  World (settings w) (client w) (statusBarItem w) (vault w) (folders w)
        (remoteFiles w) (remoteDirs w) (faults w) l.

Definition record (e : event) (w : world) : world :=
  set_log (log w ++ [e]) w.

(* ===================================================================== *)
(** ** The monad of the plugin's methods *)
(* ===================================================================== *)

(** An [async] method either returns or throws; either way the effects it
    had on the world stay. *)
Inductive result (A : Type) : Type :=
| Ok (a : A)
| Throw (e : error).
Arguments Ok {A} a.
Arguments Throw {A} e.

Definition M (A : Type) : Type := world -> result A * world.

Definition ret {A} (a : A) : M A := fun w => (Ok a, w).

Definition bind {A B} (m : M A) (k : A -> M B) : M B :=
  fun w => match m w with
           | (Ok a, w') => k a w'
           | (Throw e, w') => (Throw e, w')
           end.

Definition throw {A} (e : error) : M A := fun w => (Throw e, w).

(** [try { m } catch (error) { h error }] *)
Definition try_catch {A} (m : M A) (h : error -> M A) : M A :=
  fun w => match m w with
           | (Ok a, w') => (Ok a, w')
           | (Throw e, w') => h e w'
           end.

Definition gets {A} (f : world -> A) : M A := fun w => (Ok (f w), w).
Definition modify (f : world -> world) : M unit := fun w => (Ok tt, f w).

Notation "x <- m ;; k" := (bind m (fun x => k))
  (at level 100, m at level 99, k at level 200, only parsing).
Notation "m ;; k" := (bind m (fun _ => k))
  (at level 100, k at level 200, only parsing, right associativity).

(** [for (const x of xs) { await body(x) }] *)
Fixpoint for_of {A} (xs : list A) (body : A -> M unit) : M unit :=
  match xs with
  | [] => ret tt
  | x :: xs' => body x ;; for_of xs' body
  end.

Definition console_error (msg : string) (e : error) : M unit :=
  modify (record (ConsoleError msg e)).
Definition console_log (msg : string) : M unit :=
  modify (record (ConsoleLog msg)).
Definition new_Notice (msg : string) : M unit :=
  modify (record (Notice msg)).

(** [if (this.statusBarItem) { this.statusBarItem.setText(text) }] *)
Definition setStatus (text : string) : M unit :=
  modify (fun w => match statusBarItem w with
                   | Some _ => set_statusBarItem (Some text) w
                   | None => w
                   end).

(* ===================================================================== *)
(** ** The collaborators: WebDAV client and vault *)
(* ===================================================================== *)

(** A call first consults the injected [faults]; otherwise it has its
    [natural] outcome on the stores.  Both outcomes are logged. *)
Definition perform {A} (c : call) (natural : M A) : M A :=
  fun w =>
    match faults w (log w) c with
    | Some e => (Throw e, record (Called c (Some e)) w)
    | None =>
        match natural w with
        | (Ok a, w') => (Ok a, record (Called c None) w')
        | (Throw e, w') => (Throw e, record (Called c (Some e)) w')
        end
    end.

Definition hasFile (p : string) (m : gmap string string) : bool :=
  match m !! p with Some _ => true | None => false end.

Definition remoteExists (p : string) (w : world) : bool :=
  bool_decide (p ∈ remoteDirs w) || hasFile p (remoteFiles w).

(** [client.stat(p)]: throws 404 when nothing is at [p]. *)
Definition client_stat (p : string) : M unit :=
  perform (Stat p)
    (fun w => if remoteExists p w then (Ok tt, w) else (Throw notFound, w)).

(** [client.createDirectory(p)]: MKCOL is refused when [p] exists. *)
Definition client_createDirectory (p : string) : M unit :=
  perform (CreateDirectory p)
    (fun w => if remoteExists p w then (Throw methodNotAllowed, w)
              else (Ok tt, set_remoteDirs ({[p]} ∪ remoteDirs w) w)).

(** [client.putFileContents(p, content, {overwrite: true, ...})] *)
Definition client_putFileContents (p content : string) : M unit :=
  perform (PutFileContents p content)
    (fun w => (Ok tt, set_remoteFiles (<[p:=content]> (remoteFiles w)) w)).

(** [client.getFileContents(p, {format: 'text'})] *)
Definition client_getFileContents (p : string) : M string :=
  perform (GetFileContents p)
    (fun w => match remoteFiles w !! p with
              | Some c => (Ok c, w)
              | None => (Throw notFound, w)
              end).

Definition withTrailingSlash (d : string) : string :=
  if JS.endsWith d "/" then d else d +:+ "/".

Definition inside (d p : string) : bool :=
  JS.startsWith p (withTrailingSlash d).

Definition basenameOf (p : string) : string :=
  JS.slice p (Z.to_nat (JS.lastIndexOf p "/" + 1)).

Definition dirEntry (p : string) : RemoteFile :=
  {| filename := p; basename := basenameOf p; type := Directory;
     lastmod := ""; size := 0; etag := "" |}.

Definition fileEntry (pc : string * string) : RemoteFile :=
  {| filename := pc.1; basename := basenameOf pc.1; type := File;
     lastmod := ""; size := String.length pc.2; etag := "" |}.

(** The deep listing of [d]: every collection and file below it. *)
Definition listing (d : string) (w : world) : list RemoteFile :=
  map dirEntry (List.filter (inside d) (elements (remoteDirs w)))
  ++ map fileEntry
       (List.filter (fun pc => inside d pc.1) (map_to_list (remoteFiles w))).

(** [client.getDirectoryContents(d, {deep: true})].  A listing that fails
    (a collection that is not there, a refused request) is an injected
    fault. *)
Definition client_getDirectoryContents (d : string) : M (list RemoteFile) :=
  perform (GetDirectoryContents d) (fun w => (Ok (listing d w), w)).

(** The vault as an association list. *)
Fixpoint vlookup (p : string) (v : list (string * string)) : option string :=
  match v with
  | [] => None
  | (q, c) :: v' => if String.eqb q p then Some c else vlookup p v'
  end.

Fixpoint vupdate (p c : string) (v : list (string * string))
  : list (string * string) :=
  match v with
  | [] => []
  | (q, d) :: v' =>
      if String.eqb q p then (q, c) :: v' else (q, d) :: vupdate p c v'
  end.

Definition vwrite (p c : string) (v : list (string * string))
  : list (string * string) :=
  match vlookup p v with
  | Some _ => vupdate p c v
  | None => v ++ [(p, c)]
  end.

Definition localExists (p : string) (w : world) : bool :=
  match vlookup p (vault w) with
  | Some _ => true
  | None => bool_decide (p ∈ folders w)
  end.

(** [vault.getMarkdownFiles()] *)
Definition isMarkdown (p : string) : bool := JS.endsWith p ".md".

Definition getMarkdownFiles (w : world) : list TFile :=
  map (fun pc => {| path := pc.1 |})
      (List.filter (fun pc => isMarkdown pc.1) (vault w)).

(** [vault.read(file)] *)
Definition vault_read (file : TFile) : M string :=
  perform (VaultRead (path file))
    (fun w => match vlookup (path file) (vault w) with
              | Some c => (Ok c, w)
              | None => (Throw noSuchFile, w)
              end).

(** [vault.adapter.exists(p)] *)
Definition adapter_exists (p : string) : M bool :=
  perform (AdapterExists p) (fun w => (Ok (localExists p w), w)).

(** [vault.adapter.read(p)] *)
Definition adapter_read (p : string) : M string :=
  perform (AdapterRead p)
    (fun w => match vlookup p (vault w) with
              | Some c => (Ok c, w)
              | None => (Throw noSuchFile, w)
              end).

(** [vault.adapter.write(p, content)] *)
Definition adapter_write (p content : string) : M unit :=
  perform (AdapterWrite p content)
    (fun w => (Ok tt, set_vault (vwrite p content (vault w)) w)).

(** [vault.createFolder(p)]: throws when [p] exists. *)
Definition vault_createFolder (p : string) : M unit :=
  perform (VaultCreateFolder p)
    (fun w => if localExists p w then (Throw folderExists, w)
              else (Ok tt, set_folders ({[p]} ∪ folders w) w)).

(** [vault.create(p, content)]: throws when [p] exists. *)
Definition vault_create (p content : string) : M unit :=
  perform (VaultCreate p content)
    (fun w => if localExists p w then (Throw fileExists, w)
              else (Ok tt, set_vault (vault w ++ [(p, content)]) w)).

(* ===================================================================== *)
(** ** Path mapping *)
(* ===================================================================== *)

(** The remote root as [uploadFile] computes it: a leading and a trailing
    slash are added when missing. *)
Definition uploadRoot (collectivePath : string) : string :=
  let remotePath := collectivePath in
  let remotePath :=
    if negb (JS.startsWith remotePath "/") then "/" +:+ remotePath
    else remotePath in
  if negb (JS.endsWith remotePath "/") then remotePath +:+ "/"
  else remotePath.

(** The remote root as [downloadChanges] computes it: only the leading
    slash is added. *)
Definition downloadRoot (collectivePath : string) : string :=
  let remotePath := collectivePath in
  if negb (JS.startsWith remotePath "/") then "/" +:+ remotePath
  else remotePath.

(** [relativePath] of [uploadFile]: the local base is removed as a string
    prefix, then one leading slash. *)
Definition relativePath (p localFolderPath : string) : string :=
  let localBasePath := JS.or_else localFolderPath "" in
  let relativePath := p in
  let relativePath :=
    if JS.truthy localBasePath && JS.startsWith p localBasePath
    then JS.slice p (String.length localBasePath)
    else relativePath in
  if JS.startsWith relativePath "/" then JS.slice relativePath 1
  else relativePath.

(** Local path to remote path, the computation of [uploadFile]. *)
Definition localToRemote (p localBase root : string) : string :=
  uploadRoot root +:+ relativePath p localBase.

(** Remote path to local path, the computation of [downloadChanges]. *)
Definition remoteToLocal (r root localBase : string) : string :=
  let localPath := r in
  let localPath := JS.replace localPath (downloadRoot root) "" in
  if JS.truthy localBase then localBase +:+ localPath else localPath.

(* ===================================================================== *)
(** ** The sync methods of [NextcloudPlugin] *)
(* ===================================================================== *)

(** The loop of [ensureDirectoryExists]: [currentPath] grows by one
    component per round; a [stat] that throws, whatever it throws, is
    answered by [createDirectory]. *)
Fixpoint ensureLevels (components : list string) (currentPath : string)
  : M unit :=
  match components with
  | [] => ret tt
  | component :: rest =>
      let currentPath := currentPath +:+ "/" +:+ component in
      try_catch (client_stat currentPath)
                (fun _ => client_createDirectory currentPath) ;;
      ensureLevels rest currentPath
  end.

Definition pathComponents (directory : string) : list string :=
  List.filter JS.truthy (JS.split directory "/").

Definition ensureDirectoryExists (directory : string) : M unit :=
  c <- gets client ;;
  match c with
  | None => ret tt
  | Some _ =>
      try_catch
        (ensureLevels (pathComponents directory) "")
        (fun e =>
           console_error ("Error ensuring directory exists " +:+ directory +:+ ":") e ;;
           throw e)
  end.

Definition uploadFile (file : TFile) : M unit :=
  c <- gets client ;;
  match c with
  | None => ret tt
  | Some _ =>
      try_catch
        (content <- vault_read file ;;
         s <- gets settings ;;
         let remotePath :=
           localToRemote (path file) (localFolderPath s) (collectivePath s) in
         ensureDirectoryExists
           (JS.substring remotePath 0 (JS.lastIndexOf remotePath "/")) ;;
         client_putFileContents remotePath content)
        (fun e =>
           console_error ("Error uploading file " +:+ path file +:+ ":") e ;;
           throw e)
  end.

Definition selectedFiles (folderPath : string) (w : world) : list TFile :=
  List.filter (fun file => JS.startsWith (path file) folderPath)
              (getMarkdownFiles w).

Definition uploadChanges (folderPath : string) : M unit :=
  c <- gets client ;;
  match c with
  | None => ret tt
  | Some _ =>
      files <- gets (selectedFiles folderPath) ;;
      for_of files uploadFile
  end.

Definition getRemoteFiles (remotePath : string) : M (list RemoteFile) :=
  c <- gets client ;;
  match c with
  | None => ret []
  | Some _ =>
      try_catch
        (client_getDirectoryContents remotePath)
        (fun _ =>
           console_log ("Directory " +:+ remotePath +:+ " not found or inaccessible") ;;
           ret [])
  end.

Definition isRemoteMarkdown (remoteFile : RemoteFile) : bool :=
  match type remoteFile with
  | File => JS.endsWith (basename remoteFile) ".md"
  | Directory => false
  end.

(** The body of the loop of [downloadChanges]. *)
Definition downloadEntry (remoteFile : RemoteFile) : M unit :=
  if isRemoteMarkdown remoteFile then
    s <- gets settings ;;
    let localPath :=
      remoteToLocal (filename remoteFile) (collectivePath s) (localFolderPath s) in
    content <- client_getFileContents (filename remoteFile) ;;
    fileExists <- adapter_exists localPath ;;
    if (fileExists : bool) then
      localContent <- adapter_read localPath ;;
      if negb (String.eqb content localContent)
      then adapter_write localPath content
      else ret tt
    else
      let dirPath := JS.substring localPath 0 (JS.lastIndexOf localPath "/") in
      (if JS.truthy dirPath
       then try_catch (vault_createFolder dirPath) (fun _ => ret tt)
       else ret tt) ;;
      vault_create localPath content
  else ret tt.

Definition downloadChanges (folderPath : string) : M unit :=
  c <- gets client ;;
  match c with
  | None => ret tt
  | Some _ =>
      try_catch
        (s <- gets settings ;;
         let remotePath := downloadRoot (collectivePath s) in
         remoteFiles <- getRemoteFiles remotePath ;;
         for_of remoteFiles downloadEntry)
        (fun e =>
           console_error "Error downloading changes:" e ;;
           throw e)
  end.

Definition syncWithNextcloud : M unit :=
  c <- gets client ;;
  match c with
  | None =>
      new_Notice "Not connected to Nextcloud. Please check your settings."
  | Some _ =>
      try_catch
        (setStatus "Nextcloud: Syncing..." ;;
         s <- gets settings ;;
         let folderPath := JS.or_else (localFolderPath s) "/" in
         uploadChanges folderPath ;;
         downloadChanges folderPath ;;
         setStatus "Nextcloud: Connected" ;;
         new_Notice "Sync with Nextcloud Collectives completed")
        (fun e =>
           console_error "Error syncing with Nextcloud:" e ;;
           new_Notice ("Error syncing with Nextcloud: " +:+ message e) ;;
           setStatus "Nextcloud: Error")
  end.

(* ===================================================================== *)
(** ** Concrete worlds used by the examples *)
(* ===================================================================== *)

Definition noFaults : list event -> call -> option error := fun _ _ => None.

Definition someClient : WebDAVClient :=
  {| remoteURL := "https://cloud.example.com/remote.php/dav/files/alice";
     authUser := "alice"; authPassword := "secret" |}.

Definition configured (localFolder collective : string)
  : NextcloudPluginSettings :=
  Settings "https://cloud.example.com" "alice" "secret" collective 5 true true
           localFolder "" "" 0 "" false.

Definition mkWorld (localFolder collective : string)
    (files : list (string * string)) (remote : gmap string string)
    (dirs : gset string) (f : list event -> call -> option error) : world :=
  World (configured localFolder collective) (Some someClient)
        (Some "Nextcloud: Connected") files ∅ remote dirs f [].

Definition isRemoteWrite (c : call) : bool :=
  match c with PutFileContents _ _ => true | _ => false end.


(* ===================================================================== *)
(** ** Credentials *)
(* ===================================================================== *)

Definition set_username (v : string) (s : NextcloudPluginSettings) :=
  Settings (nextcloudUrl s) v (password s) (collectivePath s) (syncInterval s)
           (syncOnStartup s) (syncOnSave s) (localFolderPath s) (accessToken s)
           (refreshToken s) (tokenExpires s) (tokenType s) (useOAuth s).
Definition set_password (v : string) (s : NextcloudPluginSettings) :=
  Settings (nextcloudUrl s) (username s) v (collectivePath s) (syncInterval s)
           (syncOnStartup s) (syncOnSave s) (localFolderPath s) (accessToken s)
           (refreshToken s) (tokenExpires s) (tokenType s) (useOAuth s).
Definition set_accessToken (v : string) (s : NextcloudPluginSettings) :=
  Settings (nextcloudUrl s) (username s) (password s) (collectivePath s)
           (syncInterval s) (syncOnStartup s) (syncOnSave s) (localFolderPath s)
           v (refreshToken s) (tokenExpires s) (tokenType s) (useOAuth s).
Definition set_useOAuth (v : bool) (s : NextcloudPluginSettings) :=
  Settings (nextcloudUrl s) (username s) (password s) (collectivePath s)
           (syncInterval s) (syncOnStartup s) (syncOnSave s) (localFolderPath s)
           (accessToken s) (refreshToken s) (tokenExpires s) (tokenType s) v.

(** [this.settings.field = v] *)
Definition assign (f : NextcloudPluginSettings -> NextcloudPluginSettings)
  : M unit :=
  modify (fun w => set_settings (f (settings w)) w).

Definition setupClient : M unit :=
  s <- gets settings ;;
  if negb (JS.truthy (nextcloudUrl s)) || negb (JS.truthy (username s))
     || negb (JS.truthy (password s))
  then
    modify (set_client None) ;;
    setStatus "Nextcloud: Not Connected"
  else
    modify (set_client (Some
      {| remoteURL := nextcloudUrl s +:+ "/remote.php/dav/files/" +:+ username s;
         authUser := username s;
         authPassword := password s |})) ;;
    setStatus "Nextcloud: Connected".

Definition setupOAuthClient : M unit :=
  s <- gets settings ;;
  if negb (JS.truthy (nextcloudUrl s)) || negb (JS.truthy (accessToken s))
  then
    modify (set_client None) ;;
    setStatus "Nextcloud: Not Connected"
  else
    modify (set_client (Some
      {| remoteURL := nextcloudUrl s +:+ "/remote.php/dav/files/" +:+ username s;
         authUser := username s;
         authPassword := accessToken s |})) ;;
    setStatus "Nextcloud: Connected via OAuth".

(** [saveSettings]: the settings are handed to the host's [saveData] and
    the client is rebuilt.  (Persistence and the interval timer are the
    host's.) *)
Definition saveSettings : M unit := setupClient.

(** What one poll of the login endpoint yields: a response with its status
    and, on 200, the credentials; or a thrown error. *)
Inductive pollResult : Type :=
| Response (status : Z) (loginName appPassword : string)
| Rejected (e : error).

Definition maxAttempts : nat := 60.

(** The [poll] closure of both flows.  [onSuccess] is the block run on
    status 200; [responses n] is what the [n]-th request yields.  The
    recursion follows the re-arming [setTimeout(poll, 5000)]; [remaining]
    bounds it by the attempts left. *)
Fixpoint poll (onSuccess : string -> string -> M unit)
    (responses : nat -> pollResult) (remaining attempts : nat) : M unit :=
  let next :=
    let attempts := S attempts in
    if (maxAttempts <=? attempts)%nat
    then new_Notice "Authentication timed out. Please try again."
    else match remaining with
         | O => ret tt
         | S remaining' => poll onSuccess responses remaining' attempts
         end in
  match responses attempts with
  | Response st loginName appPassword =>
      if (st =? 200)%Z then onSuccess loginName appPassword else next
  | Rejected e =>
      if negb (bool_decide (status e = Some 404%Z))
      then
        console_error "Error polling for credentials:" e ;;
        new_Notice ("Authentication polling error: " +:+ message e)
      else next
  end.

(** The status-200 block of [pollForCredentials]. *)
Definition credentialsGranted (loginName appPassword : string) : M unit :=
  assign (set_username loginName) ;;
  assign (set_accessToken appPassword) ;;
  assign (set_useOAuth true) ;;
  assign (set_password "") ;;
  saveSettings ;;
  setupOAuthClient ;;
  new_Notice "Successfully authenticated with Nextcloud!".

Definition pollForCredentials (responses : nat -> pollResult) : M unit :=
  poll credentialsGranted responses maxAttempts 0.

(** The status-200 block of [pollForLoginFlow]. *)
Definition loginGranted (loginName appPassword : string) : M unit :=
  assign (set_username loginName) ;;
  assign (set_password appPassword) ;;
  assign (set_useOAuth false) ;;
  saveSettings ;;
  setupClient ;;
  new_Notice "Successfully authenticated with Nextcloud!".

Definition pollForLoginFlow (responses : nat -> pollResult) : M unit :=
  poll loginGranted responses maxAttempts 0.

(** The two credential sets of the settings. *)
Definition passwordSet (s : NextcloudPluginSettings) : bool :=
  JS.truthy (password s).
Definition tokenSet (s : NextcloudPluginSettings) : bool :=
  JS.truthy (accessToken s).

(** Exactly one credential set is present. *)
Definition oneCredentialSet (s : NextcloudPluginSettings) : bool :=
  xorb (passwordSet s) (tokenSet s).

(** One leading slash removed, as [relativePath.slice(1)] does. *)
Definition stripSlash (s : string) : string :=
  if JS.startsWith s "/" then JS.slice s 1 else s.

(** [p] lies in the folder [localBase]: it is [localBase], a slash and a
    rest.  Every path lies in the vault root, the empty [localBase]. *)
Definition under (p localBase : string) : bool :=
  negb (JS.truthy localBase) || JS.startsWith p (localBase +:+ "/").

(** ** Relations between the world before and after a method *)

(** A computation [preserves] a relation when the relation holds between
    every world it is started in and the world it leaves. *)
Definition preserves (R : world -> world -> Prop) {A} (m : M A) : Prop :=
  forall w, R w (m w).2.

(** The plugin object is untouched: settings, client and fault oracle. *)
Definition samePlugin (w w' : world) : Prop :=
  settings w' = settings w /\ client w' = client w /\ faults w' = faults w.

(** The local side is untouched. *)
Definition sameLocal (w w' : world) : Prop :=
  vault w' = vault w /\ folders w' = folders w.

(** The remote side is untouched. *)
Definition sameRemote (w w' : world) : Prop :=
  remoteFiles w' = remoteFiles w /\ remoteDirs w' = remoteDirs w.

(** Nothing that was there is gone: every local file and folder, every
    remote file and collection of [w] is still there in [w']. *)
Definition nothingDeleted (w w' : world) : Prop :=
  (forall p, is_Some (vlookup p (vault w)) -> is_Some (vlookup p (vault w')))
  /\ folders w ⊆ folders w'
  /\ dom (remoteFiles w) ⊆ dom (remoteFiles w')
  /\ remoteDirs w ⊆ remoteDirs w'.

(** ** Reading the log *)

(** Every call of a log, returned or thrown, in order. *)
Definition callsIssued (l : list event) : list call :=
  omap (fun e => match e with Called c _ => Some c | _ => None end) l.

(** The calls that change the local file system. *)
Definition touchesLocal (c : call) : bool :=
  match c with
  | AdapterWrite _ _ | VaultCreate _ _ | VaultCreateFolder _ => true
  | _ => false
  end.

Definition localWrites (l : list event) : list call :=
  List.filter touchesLocal (callsIssued l).

Definition remoteWrites (l : list event) : list call :=
  List.filter isRemoteWrite (callsIssued l).

(** The world a failed listing of [root] leaves: the failed call and the
    line [getRemoteFiles] prints are logged, nothing else changes. *)
Definition afterFailedListing (root : string) (e : error) (w : world) : world :=
  record (ConsoleLog ("Directory " +:+ root +:+ " not found or inaccessible"))
         (record (Called (GetDirectoryContents root) (Some e)) w).

(** ** The trace of the directory ensurer *)

(** The paths [ensureDirectoryExists] visits: one per component, each the
    previous one extended by a slash and the component. *)
Fixpoint prefixPaths (components : list string) (currentPath : string)
  : list string :=
  match components with
  | [] => []
  | component :: rest =>
      let currentPath := currentPath +:+ "/" +:+ component in
      currentPath :: prefixPaths rest currentPath
  end.

(** What one level of the ensurer may log for the path [p], and the error
    it ends with, if any: a [stat] that returns; or a [stat] that throws
    any error followed by a [createDirectory], which returns or throws. *)
Inductive levelTrace (p : string) : list event -> option error -> Prop :=
| level_present :
    levelTrace p [Called (Stat p) None] None
| level_created (e : error) :
    levelTrace p [Called (Stat p) (Some e); Called (CreateDirectory p) None]
               None
| level_refused (e e' : error) :
    levelTrace p [Called (Stat p) (Some e); Called (CreateDirectory p) (Some e')]
               (Some e').

(** The levels in order; the first level that ends with an error ends the
    trace. *)
Inductive levelsTrace : list string -> list event -> option error -> Prop :=
| levels_done : levelsTrace [] [] None
| levels_next p ps t t' r :
    levelTrace p t None -> levelsTrace ps t' r ->
    levelsTrace (p :: ps) (t ++ t') r
| levels_abort p ps t e :
    levelTrace p t (Some e) -> levelsTrace (p :: ps) t (Some e).

(** A server error that is not "not found". *)
Definition serverError : error := Error (Some 500%Z) "Internal Server Error".

(** Injected faults used by the examples. *)
Definition statFails : list event -> call -> option error :=
  fun _ c => match c with Stat _ => Some serverError | _ => None end.

Definition listingFails : list event -> call -> option error :=
  fun _ c => match c with
             | GetDirectoryContents _ => Some notFound
             | _ => None
             end.

Definition readFails (p : string) : list event -> call -> option error :=
  fun _ c => match c with
             | VaultRead q => if String.eqb q p then Some noSuchFile else None
             | _ => None
             end.

Definition fetchFails (p : string) : list event -> call -> option error :=
  fun _ c => match c with
             | GetFileContents q =>
                 if String.eqb q p then Some serverError else None
             | _ => None
             end.

(** The result a method ends with, given the error it threw, if any. *)
Definition outcome (r : option error) : result unit :=
  match r with None => Ok tt | Some e => Throw e end.

(** A vault of three notes of which the second cannot be read. *)
Definition threeNotes : world :=
  mkWorld "notes" "/Collectives"
          [("notes/a.md", "A"); ("notes/b.md", "B"); ("notes/c.md", "C")]
          ∅ ∅ (readFails "notes/b.md").

(** The calls issued by the directory ensurer, by the rest of the upload
    phase and by the download phase. *)
Definition ensureCall (c : call) : bool :=
  match c with
  | Stat _ | CreateDirectory _ => true
  | _ => false
  end.

Definition uploadCall (c : call) : bool :=
  match c with
  | PutFileContents _ _ | VaultRead _ => true
  | _ => false
  end.

Definition downloadCall (c : call) : bool :=
  match c with
  | GetDirectoryContents _ | GetFileContents _ | AdapterExists _
  | AdapterRead _ | AdapterWrite _ _ | VaultCreateFolder _ | VaultCreate _ _ =>
      true
  | _ => false
  end.

(** The log is appended to, and nothing appended touches the local file
    system. *)
Definition quietLocal (w w' : world) : Prop :=
  exists t, log w' = log w ++ t /\ localWrites t = [].

(** The log is appended to, and nothing appended writes a remote file. *)
Definition quietRemote (w w' : world) : Prop :=
  exists t, log w' = log w ++ t /\ remoteWrites t = [].

Definition anyEvent (e : event) : Prop := True.

Definition notLocalWrite (e : event) : Prop :=
  match e with Called c _ => touchesLocal c = false | _ => True end.

Definition notRemoteWrite (e : event) : Prop :=
  match e with Called c _ => isRemoteWrite c = false | _ => True end.

(** The environment injects no failure. *)
Definition noFault (w : world) : Prop :=
  forall l c, faults w l c = None.

(** ** What the two phases compute, as folds over their batches *)

(** The remote files after uploading the files [fs] of the vault [v]: one
    [putFileContents] per file, later files overwriting earlier ones. *)
Definition uploadedMap (L C : string) (fs : list TFile)
    (v : list (string * string)) (m : gmap string string)
  : gmap string string :=
  fold_left
    (fun m f => match vlookup (path f) v with
                | Some c => <[localToRemote (path f) L C := c]> m
                | None => m
                end)
    fs m.

(** The [putFileContents] calls of that upload, in order. *)
Definition uploadsOf (L C : string) (fs : list TFile)
    (v : list (string * string)) : list call :=
  omap (fun f => match vlookup (path f) v with
                 | Some c => Some (PutFileContents (localToRemote (path f) L C) c)
                 | None => None
                 end) fs.

(** The vault after downloading the entries [rs] of the remote files [m]:
    every markdown entry is written to its local path. *)
Definition downloadedVault (L C : string) (m : gmap string string)
    (rs : list RemoteFile) (v : list (string * string))
  : list (string * string) :=
  fold_left
    (fun v r => if isRemoteMarkdown r
                then match m !! filename r with
                     | Some c => vwrite (remoteToLocal (filename r) C L) c v
                     | None => v
                     end
                else v)
    rs v.

(** The log is appended to, with neither a remote write nor a local one. *)
Definition quiet (w w' : world) : Prop :=
  exists t, log w' = log w ++ t /\ remoteWrites t = [] /\ localWrites t = [].

Definition notWrite (e : event) : Prop :=
  match e with
  | Called c _ => isRemoteWrite c = false /\ touchesLocal c = false
  | _ => True
  end.

(** The remote files are untouched. *)
Definition sameFiles (w w' : world) : Prop :=
  remoteFiles w' = remoteFiles w.

Definition completed : event :=
  Notice "Sync with Nextcloud Collectives completed".

(** The last file of [fs] that is uploaded to the remote path [q], and the
    last markdown entry of [rs] that is downloaded to the local path [p]. *)
Definition lastUpload (L C q : string) (fs : list TFile) : option TFile :=
  List.find (fun f => String.eqb (localToRemote (path f) L C) q) (rev fs).

Definition lastEntry (L C p : string) (rs : list RemoteFile)
  : option RemoteFile :=
  List.find (fun r => isRemoteMarkdown r
                      && String.eqb (remoteToLocal (filename r) C L) p)
            (rev rs).

(** The files the upload phase selects, from the paths of the vault. *)
Definition selFrom (folderPath : string) (ks : list string) : list TFile :=
  map (fun k => {| path := k |})
      (List.filter (fun k => isMarkdown k && JS.startsWith k folderPath) ks).

(** The worlds in which [syncWithNextcloud] ends. *)
Definition syncSucceeded (w : world) : world :=
  record completed (setStatus "Nextcloud: Connected" w).2.

Definition syncFailed (e : error) (w : world) : world :=
  (setStatus "Nextcloud: Error"
     (record (Notice ("Error syncing with Nextcloud: " +:+ message e))
        (record (ConsoleError "Error syncing with Nextcloud:" e) w))).2.

(** Nothing but the status bar differs. *)
Definition onlyStatus (w w' : world) : Prop :=
  settings w' = settings w /\ client w' = client w /\ faults w' = faults w
  /\ vault w' = vault w /\ folders w' = folders w
  /\ remoteFiles w' = remoteFiles w /\ remoteDirs w' = remoteDirs w
  /\ log w' = log w.

(** The folder the pass filters on. *)
Definition syncFolder (w : world) : string :=
  JS.or_else (localFolderPath (settings w)) "/".

(** A vault of one note in the folder [notes], an empty server. *)
Definition oneNote : world :=
  mkWorld "notes" "/Collectives" [("notes/a.md", "X")] ∅ ∅ noFaults.

(** A server holding three notes of which one cannot be fetched. *)
Definition threeRemoteNotes : world :=
  mkWorld "notes" "/Collectives" []
          {["/Collectives/a.md" := "A"; "/Collectives/b.md" := "B";
            "/Collectives/c.md" := "C"]}
          {["/Collectives"]} (fetchFails "/Collectives/a.md").

(** A remote root written with a trailing slash, over a server path with
    a doubled slash. *)
Definition slashedRoot : world :=
  mkWorld "notes" "/C/" [] {["/C//a.md" := "X"]} {["/C"]} noFaults.

(* ===================================================================== *)
(** ** The rest of [NextcloudPlugin]: loading, commands, login flows *)
(* ===================================================================== *)

(** What [loadData()] yields: the stored properties, each present or not;
    [None] for the whole when nothing was stored. *)
Record StoredData : Type := Stored {
  stored_nextcloudUrl : option string;
  stored_username : option string;
  stored_password : option string;
  stored_collectivePath : option string;
  stored_syncInterval : option Z;
  stored_syncOnStartup : option bool;
  stored_syncOnSave : option bool;
  stored_localFolderPath : option string;
  stored_accessToken : option string;
  stored_refreshToken : option string;
  stored_tokenExpires : option Z;
  stored_tokenType : option string;
  stored_useOAuth : option bool
}.

(** [Object.assign({}, defaults, data)] *)
Definition assignOver (defaults : NextcloudPluginSettings)
    (data : option StoredData) : NextcloudPluginSettings :=
  match data with
  | None => defaults
  | Some d =>
      Settings
        (default (nextcloudUrl defaults) (stored_nextcloudUrl d))
        (default (username defaults) (stored_username d))
        (default (password defaults) (stored_password d))
        (default (collectivePath defaults) (stored_collectivePath d))
        (default (syncInterval defaults) (stored_syncInterval d))
        (default (syncOnStartup defaults) (stored_syncOnStartup d))
        (default (syncOnSave defaults) (stored_syncOnSave d))
        (default (localFolderPath defaults) (stored_localFolderPath d))
        (default (accessToken defaults) (stored_accessToken d))
        (default (refreshToken defaults) (stored_refreshToken d))
        (default (tokenExpires defaults) (stored_tokenExpires d))
        (default (tokenType defaults) (stored_tokenType d))
        (default (useOAuth defaults) (stored_useOAuth d))
  end.

Definition loadSettings (data : option StoredData) : M unit :=
  modify (set_settings (assignOver DEFAULT_SETTINGS data)).

(** [onload], as far as it acts on the plugin object: the settings are
    loaded, the client is set up, and only then the status bar item is
    created and set.  The ribbon icon, the commands, the event hook, the
    timers and the settings tab are registered with the host. *)
Definition onload (data : option StoredData) : M unit :=
  loadSettings data ;;
  setupClient ;;
  modify (set_statusBarItem (Some "Nextcloud: Not Connected")).

(** The callback of the command [connect-to-nextcloud]. *)
Definition connectCommand : M unit :=
  setupClient ;;
  c <- gets client ;;
  match c with
  | Some _ =>
      new_Notice "Connected to Nextcloud" ;;
      setStatus "Nextcloud: Connected"
  | None => ret tt
  end.

(** The handler of the vault's [modify] event, which [onload] registers
    when [syncOnSave] is set: a markdown file is uploaded. *)
Definition onModify (file : TFile) : M unit :=
  if isMarkdown (path file) then uploadFile file else ret tt.

(** The [onChange] handler of a field of the settings tab. *)
Definition onChange (assignField : NextcloudPluginSettings -> NextcloudPluginSettings)
  : M unit :=
  assign assignField ;;
  saveSettings.

Definition set_nextcloudUrl (v : string) (s : NextcloudPluginSettings) :=
  Settings v (username s) (password s) (collectivePath s) (syncInterval s)
           (syncOnStartup s) (syncOnSave s) (localFolderPath s) (accessToken s)
           (refreshToken s) (tokenExpires s) (tokenType s) (useOAuth s).
Definition set_collectivePath (v : string) (s : NextcloudPluginSettings) :=
  Settings (nextcloudUrl s) (username s) (password s) v (syncInterval s)
           (syncOnStartup s) (syncOnSave s) (localFolderPath s) (accessToken s)
           (refreshToken s) (tokenExpires s) (tokenType s) (useOAuth s).
Definition set_localFolderPath (v : string) (s : NextcloudPluginSettings) :=
  Settings (nextcloudUrl s) (username s) (password s) (collectivePath s)
           (syncInterval s) (syncOnStartup s) (syncOnSave s) v (accessToken s)
           (refreshToken s) (tokenExpires s) (tokenType s) (useOAuth s).
Definition set_syncInterval (v : Z) (s : NextcloudPluginSettings) :=
  Settings (nextcloudUrl s) (username s) (password s) (collectivePath s) v
           (syncOnStartup s) (syncOnSave s) (localFolderPath s) (accessToken s)
           (refreshToken s) (tokenExpires s) (tokenType s) (useOAuth s).
Definition set_syncOnStartup (v : bool) (s : NextcloudPluginSettings) :=
  Settings (nextcloudUrl s) (username s) (password s) (collectivePath s)
           (syncInterval s) v (syncOnSave s) (localFolderPath s) (accessToken s)
           (refreshToken s) (tokenExpires s) (tokenType s) (useOAuth s).
Definition set_syncOnSave (v : bool) (s : NextcloudPluginSettings) :=
  Settings (nextcloudUrl s) (username s) (password s) (collectivePath s)
           (syncInterval s) (syncOnStartup s) v (localFolderPath s) (accessToken s)
           (refreshToken s) (tokenExpires s) (tokenType s) (useOAuth s).

(** The fields of the settings tab other than the password. *)
Inductive tabField : Type :=
| EditUrl (v : string)
| EditUsername (v : string)
| EditCollectivePath (v : string)
| EditLocalFolderPath (v : string)
| EditSyncInterval (v : Z)
| EditSyncOnStartup (v : bool)
| EditSyncOnSave (v : bool).

Definition editOf (f : tabField)
  : NextcloudPluginSettings -> NextcloudPluginSettings :=
  match f with
  | EditUrl v => set_nextcloudUrl v
  | EditUsername v => set_username v
  | EditCollectivePath v => set_collectivePath v
  | EditLocalFolderPath v => set_localFolderPath v
  | EditSyncInterval v => set_syncInterval v
  | EditSyncOnStartup v => set_syncOnStartup v
  | EditSyncOnSave v => set_syncOnSave v
  end.

(** The [onClick] handler of the button [Test Connection].  The listing
    of the root is asked for and its result dropped. *)
Definition testConnection : M unit :=
  try_catch
    (setupClient ;;
     c <- gets client ;;
     match c with
     | None => new_Notice "Please configure your Nextcloud connection first"
     | Some _ =>
         client_getDirectoryContents "/" ;;
         new_Notice "Connection to Nextcloud successful!"
     end)
    (fun e =>
       console_error "Connection test failed:" e ;;
       new_Notice ("Connection failed: " +:+ message e)).

(** What the request that starts a login flow yields: a response with its
    status, or a thrown error. *)
Inductive startResult : Type :=
| Started (status : Z)
| StartFailed (e : error).

(** [new Error(msg)] *)
Definition newError (msg : string) : error := Error None msg.

(** The request of step 1 of both flows. *)
Definition requestLogin (start : startResult) : M unit :=
  match start with
  | StartFailed e => throw e
  | Started st =>
      if negb (st =? 200)%Z
      then throw (newError ("Failed to initiate login flow: " +:+ pretty st))
      else ret tt
  end.

Definition initiateOAuthFlow (start : startResult)
    (responses : nat -> pollResult) : M unit :=
  try_catch
    (s <- gets settings ;;
     if negb (JS.truthy (nextcloudUrl s))
     then new_Notice "Please configure your Nextcloud URL first"
     else
       requestLogin start ;;
       new_Notice "Nextcloud login page opened. Please log in through your browser." ;;
       pollForCredentials responses)
    (fun e =>
       console_error "OAuth flow error:" e ;;
       new_Notice ("OAuth error: " +:+ message e)).

Definition initiateLoginFlowV2 (start : startResult)
    (responses : nat -> pollResult) : M unit :=
  try_catch
    (s <- gets settings ;;
     if negb (JS.truthy (nextcloudUrl s))
     then new_Notice "Please configure your Nextcloud URL first"
     else
       requestLogin start ;;
       new_Notice "Nextcloud login page opened. Please log in through your browser." ;;
       pollForLoginFlow responses)
    (fun e =>
       console_error "Login flow error:" e ;;
       new_Notice ("Login flow error: " +:+ message e)).

(** ** Reading polls, paths and stores *)

(** A poll that leaves the login pending: a response other than 200, or
    the rejection 404. *)
Definition pending (r : pollResult) : bool :=
  match r with
  | Response st _ _ => negb (st =? 200)%Z
  | Rejected e => bool_decide (status e = Some 404%Z)
  end.

(** The first [n] polls leave the login pending. *)
Definition pendingUntil (responses : nat -> pollResult) (n : nat) : Prop :=
  forall i, (i < n)%nat -> pending (responses i) = true.

(** The character [c] occurs in [s]. *)
Fixpoint occurs (c : ascii) (s : string) : bool :=
  match s with
  | EmptyString => false
  | String a s' => Ascii.eqb a c || occurs c s'
  end.

(** A path component as [split] and [filter] leave it: not empty, without
    a slash. *)
Definition isComponent (c : string) : bool :=
  JS.truthy c && negb (occurs "/" c).

(** The components joined again, each behind a slash. *)
Fixpoint joinPath (components : list string) : string :=
  match components with
  | [] => EmptyString
  | c :: rest => "/" +:+ c +:+ joinPath rest
  end.

(** Every remote path of the list exists in the world. *)
Definition allExist (ps : list string) (w : world) : Prop :=
  forall p, In p ps -> remoteExists p w = true.

(** The remote side only gains collections, and only among [ps]. *)
Definition onlyCreates (ps : list string) (w w' : world) : Prop :=
  remoteFiles w' = remoteFiles w
  /\ remoteDirs w ⊆ remoteDirs w'
  /\ forall p, p ∈ remoteDirs w' -> p ∈ remoteDirs w \/ In p ps.

(** The remote files agree outside the paths [qs]; the local files agree
    outside the paths [ps]. *)
Definition remoteAgreeOutside (qs : list string) (w w' : world) : Prop :=
  forall q, ~ In q qs -> remoteFiles w' !! q = remoteFiles w !! q.

Definition localAgreeOutside (ps : list string) (w w' : world) : Prop :=
  forall p, ~ In p ps -> vlookup p (vault w') = vlookup p (vault w).

(** The remote paths the upload phase writes to, and the local paths the
    download phase writes to. *)
Definition uploadTargets (folderPath : string) (w : world) : list string :=
  map (fun f => localToRemote (path f) (localFolderPath (settings w))
                              (collectivePath (settings w)))
      (selectedFiles folderPath w).

Definition downloadTargets (w : world) : list string :=
  map (fun r => remoteToLocal (filename r) (collectivePath (settings w))
                              (localFolderPath (settings w)))
      (List.filter isRemoteMarkdown
         (listing (downloadRoot (collectivePath (settings w))) w)).

(** The plugin in token mode: the token flow has stored a token and
    cleared the password. *)
Definition tokenMode (s : NextcloudPluginSettings) : Prop :=
  password s = "" /\ accessToken s <> "" /\ nextcloudUrl s <> "".

(** A world after the token flow, and a world with stored password
    credentials before loading. *)
Definition afterTokenFlow : world :=
  (credentialsGranted "alice" "token-1"
     (World (Settings "https://cloud.example.com" "" "" "/Collectives" 5
                      true true "" "" "" 0 "" false)
            None (Some "Nextcloud: Not Connected") [] ∅ ∅ ∅ noFaults [])).2.

Definition unloaded : world :=
  World DEFAULT_SETTINGS None None [] ∅ ∅ ∅ noFaults [].

Definition storedPassword : StoredData :=
  Stored (Some "https://cloud.example.com") (Some "alice") (Some "secret")
         None None None None None None None None None None.

(** The status bar keeps its text; and the text a status bar item shows
    after [setText], when there is one. *)
Definition sameBar (w w' : world) : Prop :=
  statusBarItem w' = statusBarItem w.

Definition shown (text : string) (w : world) : option string :=
  match statusBarItem w with
  | Some _ => Some text
  | None => None
  end.


(** Whatever exists on the server in [w] exists in [w']. *)
Definition remoteGrows (w w' : world) : Prop :=
  forall p, remoteExists p w = true -> remoteExists p w' = true.

(** Between [w] and [w'] the server keeps its collections and gains only
    collections among [ps] that were missing in [w]; and every
    [createDirectory] logged in between is for such a path. *)
Definition createsMissing (ps : list string) (w w' : world) : Prop :=
  remoteDirs w ⊆ remoteDirs w'
  /\ (forall p, p ∈ remoteDirs w' ->
        p ∈ remoteDirs w \/ (In p ps /\ remoteExists p w = false))
  /\ exists t,
       log w' = log w ++ t
       /\ forall p o, In (Called (CreateDirectory p) o) t ->
                      In p ps /\ remoteExists p w = false.

(** The collections are as they were and no [createDirectory] is logged. *)
Definition createsNothing (w w' : world) : Prop :=
  remoteDirs w' = remoteDirs w
  /\ remoteFiles w' = remoteFiles w
  /\ exists t,
       log w' = log w ++ t
       /\ forall p o, ~ In (Called (CreateDirectory p) o) t.

Definition notCreateDirectory (e : event) : Prop :=
  match e with
  | Called (CreateDirectory _) _ => False
  | _ => True
  end.

(** The directories [uploadFile] ensures for the file [f]: the path
    prefixes of the parent of its remote path; and those of a whole upload
    phase. *)
Definition ensuredFor (w : world) (f : TFile) : list string :=
  let r := localToRemote (path f) (localFolderPath (settings w))
                         (collectivePath (settings w)) in
  prefixPaths (pathComponents (JS.substring r 0 (JS.lastIndexOf r "/"))) "".

Definition ensuredPaths (folderPath : string) (w : world) : list string :=
  flat_map (ensuredFor w) (selectedFiles folderPath w).

(** No remote path continues the remote root with a second slash. *)
Definition noDoubledSlash (root : string) (w : world) : Prop :=
  forall q, is_Some (remoteFiles w !! q) ->
            JS.startsWith q (uploadRoot root +:+ "/") = false.

(** A remote root written with a trailing slash over ordinary paths, and
    a server that holds a note whose ancestors are not recorded as
    collections. *)
Definition trailingSlashRoot : world :=
  mkWorld "notes" "/Collectives/" [("notes/a.md", "X")] ∅ ∅ noFaults.

Definition orphanNote : world :=
  mkWorld "notes" "/Collectives" [] {["/Collectives/sub/a.md" := "X"]} ∅
          noFaults.

(** A server that holds one note below the remote root. *)
Definition oneRemoteNote : world :=
  mkWorld "notes" "/Collectives" []
          {["/Collectives/a.md" := "A"]} {["/Collectives"]} noFaults.

(** The index of the last [c] of [s], counted from the start of [s]. *)
Fixpoint lastPos (c : ascii) (s : string) : nat :=
  match s with
  | EmptyString => O
  | String a s' => if occurs c s' then S (lastPos c s') else O
  end.

(* ===================================================================== *)
(** ** The string methods and the path mapping on examples *)
(* ===================================================================== *)

Example startsWith_ex : JS.startsWith "notes/a.md" "/" = false.
Proof. reflexivity. Qed.

Example endsWith_ex : JS.endsWith "a.md" ".md" = true.
Proof. reflexivity. Qed.

Example lastIndexOf_ex : JS.lastIndexOf "/Collectives/notes/a.md" "/" = 18%Z.
Proof. reflexivity. Qed.

Example substring_ex :
  JS.substring "/Collectives/notes/a.md" 0 18 = "/Collectives/notes".
Proof. reflexivity. Qed.

Example substring_neg_ex : JS.substring "a.md" 0 (-1) = "".
Proof. reflexivity. Qed.

Example replace_ex :
  JS.replace "/Collectives/notes/a.md" "/Collectives" "" = "/notes/a.md".
Proof. reflexivity. Qed.

Example split_ex : JS.split "/Collectives/notes" "/" = [""; "Collectives"; "notes"].
Proof. reflexivity. Qed.

Example localToRemote_ex :
  localToRemote "notes/a.md" "" "/Collectives" = "/Collectives/notes/a.md".
Proof. reflexivity. Qed.

Example remoteToLocal_ex :
  remoteToLocal "/Collectives/b.md" "/Collectives" "notes" = "notes/b.md".
Proof. reflexivity. Qed.

(** A login that is never completed: every poll is answered by 404, and
    after [maxAttempts] polls the flow gives up. *)
Example poll_times_out :
  log (pollForCredentials (fun _ => Rejected notFound)
         (mkWorld "" "/Collectives" [] ∅ ∅ noFaults)).2
  = [Notice "Authentication timed out. Please try again."].
Proof. vm_compute. reflexivity. Qed.

(** A first pass over one note in the folder [notes]. *)
Example first_pass_ex :
  callsIssued (log (syncWithNextcloud oneNote).2)
  = [VaultRead "notes/a.md"; Stat "/Collectives";
     CreateDirectory "/Collectives";
     PutFileContents "/Collectives/a.md" "X";
     GetDirectoryContents "/Collectives";
     GetFileContents "/Collectives/a.md";
     AdapterExists "notes/a.md"; AdapterRead "notes/a.md"].
Proof. vm_compute. reflexivity. Qed.

(* ===================================================================== *)
(** ** Facts about the string methods *)
(* ===================================================================== *)

Section StringFacts.

Lemma append_cons (x : ascii) (a b : string) :
  String x a +:+ b = String x (a +:+ b).
Proof. reflexivity. Qed.

Lemma append_nil (b : string) : "" +:+ b = b.
Proof. reflexivity. Qed.

Lemma append_assoc (a b c : string) : (a +:+ b) +:+ c = a +:+ (b +:+ c).
Proof.
  induction a as [|x a IH]; [reflexivity |].
  rewrite !append_cons. f_equal. exact IH.
Qed.

Lemma startsWith_append (p s : string) : JS.startsWith (p +:+ s) p = true.
Proof.
  induction p as [|x p IH]; [reflexivity |].
  rewrite append_cons. simpl. now rewrite Ascii.eqb_refl.
Qed.

Lemma slice_append (p s : string) : JS.slice (p +:+ s) (String.length p) = s.
Proof.
  induction p as [|x p IH]; [reflexivity |].
  rewrite append_cons. simpl. exact IH.
Qed.

Lemma startsWith_spec (s p : string) :
  JS.startsWith s p = true <-> exists t, s = p +:+ t.
Proof.
  split.
  - revert s. induction p as [|x p IH]; intros s H.
    + exists s. reflexivity.
    + destruct s as [|y s]; simpl in H; [discriminate |].
      destruct (Ascii.eqb x y) eqn:E; [| discriminate].
      apply Ascii.eqb_eq in E. subst y.
      destruct (IH _ H) as [t ->]. exists t. reflexivity.
  - intros [t ->]. apply startsWith_append.
Qed.

Lemma replace_unfold (s pat rep : string) :
  JS.replace s pat rep
  = if JS.startsWith s pat then rep +:+ JS.slice s (String.length pat)
    else match s with
         | EmptyString => EmptyString
         | String a s' => String a (JS.replace s' pat rep)
         end.
Proof. destruct s; reflexivity. Qed.

Lemma replace_prefix (p s : string) : JS.replace (p +:+ s) p "" = s.
Proof.
  rewrite replace_unfold, startsWith_append, slice_append. reflexivity.
Qed.

Lemma truthy_true (s : string) : JS.truthy s = true <-> s <> "".
Proof. destruct s; simpl; split; congruence. Qed.

Lemma or_else_truthy (a b : string) : a <> "" -> JS.or_else a b = a.
Proof. intros H. unfold JS.or_else. apply truthy_true in H. now rewrite H. Qed.

Lemma or_else_empty (b : string) : JS.or_else "" b = b.
Proof. reflexivity. Qed.

Lemma relativePath_under (L rest : string) :
  L <> "" -> relativePath (L +:+ rest) L = stripSlash rest.
Proof.
  intros HL. unfold relativePath.
  rewrite (or_else_truthy L "" HL).
  apply truthy_true in HL. rewrite HL, startsWith_append, slice_append.
  reflexivity.
Qed.

Lemma relativePath_no_base (p : string) : relativePath p "" = stripSlash p.
Proof. reflexivity. Qed.

Lemma stripSlash_slash (s : string) : stripSlash ("/" +:+ s) = s.
Proof. reflexivity. Qed.

Lemma stripSlash_id (s : string) :
  JS.startsWith s "/" = false -> stripSlash s = s.
Proof. intros H. unfold stripSlash. now rewrite H. Qed.

Lemma uploadRoot_downloadRoot (root : string) :
  JS.endsWith (downloadRoot root) "/" = false ->
  uploadRoot root = downloadRoot root +:+ "/".
Proof.
  intros H. unfold uploadRoot. fold (downloadRoot root). now rewrite H.
Qed.

(** Where the remote root carries no trailing slash, the way back undoes
    the way out up to the separator. *)
Lemma roundtrip_general (p lb root : string) :
  JS.endsWith (downloadRoot root) "/" = false ->
  remoteToLocal (localToRemote p lb root) root lb
  = (if JS.truthy lb then lb else "") +:+ "/" +:+ relativePath p lb.
Proof.
  intros H. unfold remoteToLocal, localToRemote.
  rewrite (uploadRoot_downloadRoot _ H), append_assoc, replace_prefix.
  destruct (JS.truthy lb); reflexivity.
Qed.

End StringFacts.

(* ===================================================================== *)
(** ** Frame reasoning for the monad *)
(* ===================================================================== *)

Section Preservation.

Variable R : world -> world -> Prop.
Variable allowed : event -> Prop.
Hypothesis R_refl : forall w, R w w.
Hypothesis R_trans : forall w1 w2 w3, R w1 w2 -> R w2 w3 -> R w1 w3.
Hypothesis R_record : forall w e, allowed e -> R w (record e w).

Lemma preserves_ret {A} (a : A) : preserves R (ret a).
Proof. intros w. apply R_refl. Qed.

Lemma preserves_throw {A} (e : error) : preserves R (@throw A e).
Proof. intros w. apply R_refl. Qed.

Lemma preserves_gets {A} (f : world -> A) : preserves R (gets f).
Proof. intros w. apply R_refl. Qed.

Lemma preserves_bind {A B} (m : M A) (k : A -> M B) :
  preserves R m -> (forall a, preserves R (k a)) -> preserves R (bind m k).
Proof.
  intros Hm Hk w. unfold bind. specialize (Hm w).
  destruct (m w) as [[a|e] w1]; simpl in *; [| exact Hm].
  eapply R_trans; [exact Hm | apply Hk].
Qed.

Lemma preserves_try {A} (m : M A) (h : error -> M A) :
  preserves R m -> (forall e, preserves R (h e)) -> preserves R (try_catch m h).
Proof.
  intros Hm Hh w. unfold try_catch. specialize (Hm w).
  destruct (m w) as [[a|e] w1]; simpl in *; [exact Hm |].
  eapply R_trans; [exact Hm | apply Hh].
Qed.

Lemma preserves_for_of {A} (xs : list A) (body : A -> M unit) :
  (forall x, preserves R (body x)) -> preserves R (for_of xs body).
Proof.
  intros Hb. induction xs as [|x xs IH]; simpl.
  - apply preserves_ret.
  - apply preserves_bind; [apply Hb | intros _; exact IH].
Qed.

Lemma preserves_record (e : event) :
  allowed e -> preserves R (modify (record e)).
Proof. intros He w. now apply R_record. Qed.

Lemma preserves_perform {A} (c : call) (natural : M A) :
  (forall o, allowed (Called c o)) ->
  preserves R natural -> preserves R (perform c natural).
Proof.
  intros Hc Hn w. unfold perform.
  destruct (faults w (log w) c); simpl; [apply R_record, Hc |].
  specialize (Hn w). destruct (natural w) as [[a|e] w1]; simpl in *;
    (eapply R_trans; [exact Hn | apply R_record, Hc]).
Qed.

End Preservation.

(** Structural steps shared by the frame proofs below. *)
Ltac preserve_step :=
  match goal with
  | |- _ => eassumption
  | H : forall c o, _ = true -> ?al (Called c o)
    |- forall _, ?al (Called _ _) => intro; apply H; reflexivity
  | H : forall m e, ?al (ConsoleError m e) |- ?al (ConsoleError _ _) => apply H
  | H : forall m, ?al (ConsoleLog m) |- ?al (ConsoleLog _) => apply H
  | H : forall m, ?al (Notice m) |- ?al (Notice _) => apply H
  | |- forall _ : _, preserves _ _ => intro
  | |- preserves _ (ret _) => apply preserves_ret
  | |- preserves _ (throw _) => apply preserves_throw
  | |- preserves _ (gets _) => apply preserves_gets
  | |- preserves _ (modify (record _)) => eapply preserves_record
  | |- preserves _ (bind _ _) => apply preserves_bind
  | |- preserves _ (try_catch _ _) => apply preserves_try
  | |- preserves _ (for_of _ _) => apply preserves_for_of
  | |- preserves _ (perform _ _) => eapply preserves_perform
  | |- preserves _ (match ?x with _ => _ end) => destruct x
  | |- preserves _ (if ?b then _ else _) => destruct b
  end.

Ltac preserve := repeat preserve_step.

Section Methods.

Variable R : world -> world -> Prop.
Variable allowed : event -> Prop.
Hypothesis R_refl : forall w, R w w.
Hypothesis R_trans : forall w1 w2 w3, R w1 w2 -> R w2 w3 -> R w1 w3.
Hypothesis R_record : forall w e, allowed e -> R w (record e w).
Hypothesis A_ensure : forall c o, ensureCall c = true -> allowed (Called c o).
Hypothesis A_upload : forall c o, uploadCall c = true -> allowed (Called c o).
Hypothesis A_download :
  forall c o, downloadCall c = true -> allowed (Called c o).
Hypothesis A_error : forall m e, allowed (ConsoleError m e).
Hypothesis A_print : forall m, allowed (ConsoleLog m).
Hypothesis A_notice : forall m, allowed (Notice m).
Hypothesis R_mkdir :
  forall w p, R w (set_remoteDirs ({[p]} ∪ remoteDirs w) w).
Hypothesis R_put :
  forall w p c, R w (set_remoteFiles (<[p:=c]> (remoteFiles w)) w).
Hypothesis R_write :
  forall w p c, R w (set_vault (vwrite p c (vault w)) w).
Hypothesis R_mkfolder :
  forall w p, R w (set_folders ({[p]} ∪ folders w) w).
Hypothesis R_create :
  forall w p c, R w (set_vault (vault w ++ [(p, c)]) w).
Hypothesis R_status :
  forall w s, R w (set_statusBarItem s w).

Lemma preserves_client_stat p : preserves R (client_stat p).
Proof using R_refl R_trans R_record A_ensure.
  unfold client_stat. preserve.
  all: intros w.
  all: destruct (remoteExists p w); apply R_refl.
Qed.

Lemma preserves_client_createDirectory p :
  preserves R (client_createDirectory p).
Proof using R_refl R_trans R_record R_mkdir A_ensure.
  unfold client_createDirectory. preserve.
  all: intros w.
  all: destruct (remoteExists p w); simpl; [apply R_refl | apply R_mkdir].
Qed.

Lemma preserves_client_putFileContents p c :
  preserves R (client_putFileContents p c).
Proof using R_refl R_trans R_record R_put A_upload.
  unfold client_putFileContents. preserve.
  all: intros w.
  all: apply R_put.
Qed.

Lemma preserves_client_getFileContents p :
  preserves R (client_getFileContents p).
Proof using R_refl R_trans R_record A_download.
  unfold client_getFileContents. preserve.
  all: intros w.
  all: destruct (remoteFiles w !! p); apply R_refl.
Qed.

Lemma preserves_client_getDirectoryContents d :
  preserves R (client_getDirectoryContents d).
Proof using R_refl R_trans R_record A_download.
  unfold client_getDirectoryContents. preserve.
  all: intros w.
  all: apply R_refl.
Qed.

Lemma preserves_vault_read f : preserves R (vault_read f).
Proof using R_refl R_trans R_record A_upload.
  unfold vault_read. preserve.
  all: intros w.
  all: destruct (vlookup (path f) (vault w)); apply R_refl.
Qed.

Lemma preserves_adapter_exists p : preserves R (adapter_exists p).
Proof using R_refl R_trans R_record A_download.
  unfold adapter_exists. preserve.
  all: intros w.
  all: apply R_refl.
Qed.

Lemma preserves_adapter_read p : preserves R (adapter_read p).
Proof using R_refl R_trans R_record A_download.
  unfold adapter_read. preserve.
  all: intros w.
  all: destruct (vlookup p (vault w)); apply R_refl.
Qed.

Lemma preserves_adapter_write p c : preserves R (adapter_write p c).
Proof using R_refl R_trans R_record R_write A_download.
  unfold adapter_write. preserve.
  all: intros w.
  all: apply R_write.
Qed.

Lemma preserves_vault_createFolder p : preserves R (vault_createFolder p).
Proof using R_refl R_trans R_record R_mkfolder A_download.
  unfold vault_createFolder. preserve.
  all: intros w.
  all: destruct (localExists p w); simpl; [apply R_refl | apply R_mkfolder].
Qed.

Lemma preserves_vault_create p c : preserves R (vault_create p c).
Proof using R_refl R_trans R_record R_create A_download.
  unfold vault_create. preserve.
  all: intros w.
  all: destruct (localExists p w); simpl; [apply R_refl | apply R_create].
Qed.

Lemma preserves_setStatus s : preserves R (setStatus s).
Proof using R_refl R_status.
  intros w. unfold setStatus, modify. simpl.
  destruct (statusBarItem w); [apply R_status | apply R_refl].
Qed.

Lemma preserves_ensureLevels components currentPath :
  preserves R (ensureLevels components currentPath).
Proof using R_refl R_trans R_record R_mkdir A_ensure.
  revert currentPath. induction components as [|c cs IH]; intros cur; simpl.
  - preserve.
  - preserve; [apply preserves_client_stat
              | apply preserves_client_createDirectory | apply IH].
Qed.

Lemma preserves_ensureDirectoryExists directory :
  preserves R (ensureDirectoryExists directory).
Proof using R_refl R_trans R_record R_mkdir A_ensure A_error.
  unfold ensureDirectoryExists, console_error. preserve.
  apply preserves_ensureLevels.
Qed.

Lemma preserves_uploadFile file : preserves R (uploadFile file).
Proof using R_refl R_trans R_record R_mkdir R_put A_ensure A_upload A_error.
  unfold uploadFile, console_error. preserve.
  - apply preserves_vault_read.
  - apply preserves_ensureDirectoryExists.
  - apply preserves_client_putFileContents.
Qed.

Lemma preserves_uploadChanges folderPath :
  preserves R (uploadChanges folderPath).
Proof using R_refl R_trans R_record R_mkdir R_put A_ensure A_upload A_error.
  unfold uploadChanges. preserve. apply preserves_uploadFile.
Qed.

Lemma preserves_getRemoteFiles remotePath :
  preserves R (getRemoteFiles remotePath).
Proof using R_refl R_trans R_record A_download A_print.
  unfold getRemoteFiles, console_log. preserve.
  apply preserves_client_getDirectoryContents.
Qed.

Lemma preserves_downloadEntry remoteFile :
  preserves R (downloadEntry remoteFile).
Proof using R_refl R_trans R_record R_write R_mkfolder R_create A_download.
  unfold downloadEntry. preserve;
    first [ apply preserves_client_getFileContents
          | apply preserves_adapter_exists
          | apply preserves_adapter_read
          | apply preserves_adapter_write
          | apply preserves_vault_createFolder
          | apply preserves_vault_create ].
Qed.

Lemma preserves_downloadChanges folderPath :
  preserves R (downloadChanges folderPath).
Proof using R_refl R_trans R_record R_write R_mkfolder R_create A_download A_print A_error.
  unfold downloadChanges, console_error. preserve.
  - apply preserves_getRemoteFiles.
  - apply preserves_downloadEntry.
Qed.

Lemma preserves_syncWithNextcloud : preserves R syncWithNextcloud.
Proof using All.
  unfold syncWithNextcloud, new_Notice, console_error. preserve;
    first [ apply preserves_setStatus
          | apply preserves_uploadChanges
          | apply preserves_downloadChanges ].
Qed.

End Methods.

(* ===================================================================== *)
(** ** What the phases leave alone *)
(* ===================================================================== *)

Lemma vlookup_app p v v' :
  vlookup p (v ++ v') =
  match vlookup p v with Some c => Some c | None => vlookup p v' end.
Proof.
  induction v as [|[q d] v IH]; simpl; [reflexivity |].
  destruct (String.eqb q p); [reflexivity | exact IH].
Qed.

Lemma vlookup_vupdate p c q v :
  vlookup q (vupdate p c v) =
  match vlookup p v with
  | Some _ => if String.eqb p q then Some c else vlookup q v
  | None => vlookup q v
  end.
Proof.
  induction v as [|[r d] v IH]; simpl; [reflexivity |].
  destruct (String.eqb r p) eqn:E; simpl.
  - apply String.eqb_eq in E. subst r. destruct (String.eqb p q); reflexivity.
  - rewrite IH. destruct (String.eqb r q) eqn:E'.
    + apply String.eqb_eq in E'. subst r.
      destruct (vlookup p v); [rewrite String.eqb_sym, E |]; reflexivity.
    + reflexivity.
Qed.

Lemma vlookup_vwrite p c q v :
  vlookup q (vwrite p c v) = if String.eqb p q then Some c else vlookup q v.
Proof.
  unfold vwrite. destruct (vlookup p v) eqn:E.
  - rewrite vlookup_vupdate, E. reflexivity.
  - rewrite vlookup_app. simpl. destruct (String.eqb p q) eqn:E'.
    + apply String.eqb_eq in E'. subst q. rewrite E. reflexivity.
    + destruct (vlookup q v); reflexivity.
Qed.

Section Relations.

Lemma samePlugin_refl w : samePlugin w w.
Proof. repeat split. Qed.

Lemma samePlugin_trans w1 w2 w3 :
  samePlugin w1 w2 -> samePlugin w2 w3 -> samePlugin w1 w3.
Proof. unfold samePlugin. intros (?&?&?) (?&?&?). repeat split; congruence. Qed.

Lemma sameLocal_refl w : sameLocal w w.
Proof. repeat split. Qed.

Lemma sameLocal_trans w1 w2 w3 :
  sameLocal w1 w2 -> sameLocal w2 w3 -> sameLocal w1 w3.
Proof. unfold sameLocal. intros (?&?) (?&?). split; congruence. Qed.

Lemma sameRemote_refl w : sameRemote w w.
Proof. repeat split. Qed.

Lemma sameRemote_trans w1 w2 w3 :
  sameRemote w1 w2 -> sameRemote w2 w3 -> sameRemote w1 w3.
Proof. unfold sameRemote. intros (?&?) (?&?). split; congruence. Qed.

Lemma nothingDeleted_refl w : nothingDeleted w w.
Proof. repeat split; auto. Qed.

Lemma nothingDeleted_trans w1 w2 w3 :
  nothingDeleted w1 w2 -> nothingDeleted w2 w3 -> nothingDeleted w1 w3.
Proof.
  intros (A1&B1&C1&D1) (A2&B2&C2&D2). repeat split.
  - intros p H. auto.
  - set_solver.
  - set_solver.
  - set_solver.
Qed.

End Relations.

(** The sync methods never touch the settings, the client or the
    environment's fault oracle. *)
Lemma samePlugin_syncWithNextcloud : preserves samePlugin syncWithNextcloud.
Proof.
  apply (preserves_syncWithNextcloud samePlugin anyEvent);
    first [ exact samePlugin_refl | exact samePlugin_trans
          | solve [intros; exact I] | solve [intros; repeat split] ].
Qed.

Lemma samePlugin_uploadChanges fp : preserves samePlugin (uploadChanges fp).
Proof.
  apply (preserves_uploadChanges samePlugin anyEvent);
    first [ exact samePlugin_refl | exact samePlugin_trans
          | solve [intros; exact I] | solve [intros; repeat split] ].
Qed.

Lemma samePlugin_uploadFile f : preserves samePlugin (uploadFile f).
Proof.
  apply (preserves_uploadFile samePlugin anyEvent);
    first [ exact samePlugin_refl | exact samePlugin_trans
          | solve [intros; exact I] | solve [intros; repeat split] ].
Qed.

Lemma samePlugin_downloadChanges fp : preserves samePlugin (downloadChanges fp).
Proof.
  apply (preserves_downloadChanges samePlugin anyEvent);
    first [ exact samePlugin_refl | exact samePlugin_trans
          | solve [intros; exact I] | solve [intros; repeat split] ].
Qed.

Lemma samePlugin_downloadEntry r : preserves samePlugin (downloadEntry r).
Proof.
  apply (preserves_downloadEntry samePlugin anyEvent);
    first [ exact samePlugin_refl | exact samePlugin_trans
          | solve [intros; exact I] | solve [intros; repeat split] ].
Qed.

(** The upload phase does not touch the vault. *)
Lemma sameLocal_uploadFile f : preserves sameLocal (uploadFile f).
Proof.
  apply (preserves_uploadFile sameLocal anyEvent);
    first [ exact sameLocal_refl | exact sameLocal_trans
          | solve [intros; exact I] | solve [intros; repeat split] ].
Qed.

Lemma sameLocal_uploadChanges fp : preserves sameLocal (uploadChanges fp).
Proof.
  apply (preserves_uploadChanges sameLocal anyEvent);
    first [ exact sameLocal_refl | exact sameLocal_trans
          | solve [intros; exact I] | solve [intros; repeat split] ].
Qed.

(** The download phase does not touch the server. *)
Lemma sameRemote_downloadEntry r : preserves sameRemote (downloadEntry r).
Proof.
  apply (preserves_downloadEntry sameRemote anyEvent);
    first [ exact sameRemote_refl | exact sameRemote_trans
          | solve [intros; exact I] | solve [intros; repeat split] ].
Qed.

Lemma sameRemote_downloadChanges fp : preserves sameRemote (downloadChanges fp).
Proof.
  apply (preserves_downloadChanges sameRemote anyEvent);
    first [ exact sameRemote_refl | exact sameRemote_trans
          | solve [intros; exact I] | solve [intros; repeat split] ].
Qed.

Lemma nothingDeleted_record w e : nothingDeleted w (record e w).
Proof. repeat split; auto. Qed.

Lemma nothingDeleted_mkdir w p :
  nothingDeleted w (set_remoteDirs ({[p]} ∪ remoteDirs w) w).
Proof. repeat split; simpl; auto. set_solver. Qed.

Lemma nothingDeleted_put w p c :
  nothingDeleted w (set_remoteFiles (<[p:=c]> (remoteFiles w)) w).
Proof. repeat split; simpl; auto. rewrite dom_insert. set_solver. Qed.

Lemma nothingDeleted_write w p c :
  nothingDeleted w (set_vault (vwrite p c (vault w)) w).
Proof.
  repeat split; simpl; auto. intros q H. rewrite vlookup_vwrite.
  destruct (String.eqb p q); [eexists; reflexivity | exact H].
Qed.

Lemma nothingDeleted_mkfolder w p :
  nothingDeleted w (set_folders ({[p]} ∪ folders w) w).
Proof. repeat split; simpl; auto. set_solver. Qed.

Lemma nothingDeleted_create w p c :
  nothingDeleted w (set_vault (vault w ++ [(p, c)]) w).
Proof.
  repeat split; simpl; auto. intros q [d H]. rewrite vlookup_app, H.
  eexists; reflexivity.
Qed.

Lemma nothingDeleted_status w s : nothingDeleted w (set_statusBarItem s w).
Proof. repeat split; auto. Qed.

(** C10. Nothing is ever deleted by a sync pass: whatever the settings,
    the stores and the failures injected by the environment, every local
    file and folder and every remote file and collection present before
    [syncWithNextcloud] is still present after it.  The pass only creates
    files and directories or overwrites content. *)
Theorem sync_deletes_nothing (w : world) :
  nothingDeleted w (syncWithNextcloud w).2.
Proof.
  apply (preserves_syncWithNextcloud nothingDeleted anyEvent).
  - exact nothingDeleted_refl.
  - exact nothingDeleted_trans.
  - intros w0 e _. exact (nothingDeleted_record w0 e).
  - intros; exact I.
  - intros; exact I.
  - intros; exact I.
  - intros; exact I.
  - intros; exact I.
  - intros; exact I.
  - exact nothingDeleted_mkdir.
  - exact nothingDeleted_put.
  - exact nothingDeleted_write.
  - exact nothingDeleted_mkfolder.
  - exact nothingDeleted_create.
  - exact nothingDeleted_status.
Qed.

(* ===================================================================== *)
(** ** Path mapping: the round trip and the raw prefix *)
(* ===================================================================== *)

(** C3, as stated, fails.  Whatever function [normalize] is taken to be,
    the round trip cannot agree with it on every path under the local
    base: for the path [notes/a.md] under the base [notes] the round trip
    gives [notes/a.md] with the root [/Collectives] and [notesa.md] with
    the root [/Collectives/]. *)
Lemma roundtrip_law_fails :
  ~ exists normalize : string -> string,
      forall p localBase root : string,
        under p localBase = true ->
        remoteToLocal (localToRemote p localBase root) root localBase
        = normalize p.
Proof.
  intros [normalize H].
  pose proof (H "notes/a.md" "notes" "/Collectives" eq_refl) as H1.
  pose proof (H "notes/a.md" "notes" "/Collectives/" eq_refl) as H2.
  rewrite <- H2 in H1. vm_compute in H1. discriminate H1.
Qed.

(** C3, amended.  When the remote root (with its leading slash) does not
    end in a slash, a path made of the local base, a slash and a rest comes
    back unchanged; and with the empty local base a vault-relative path,
    one that does not start with a slash, comes back with a leading
    slash. *)
Theorem roundtrip_without_trailing_slash (localBase rel root : string) :
  JS.endsWith (downloadRoot root) "/" = false ->
  remoteToLocal (localToRemote (localBase +:+ "/" +:+ rel) localBase root)
                root localBase
  = localBase +:+ "/" +:+ rel
  /\ (JS.startsWith rel "/" = false ->
      remoteToLocal (localToRemote rel "" root) root "" = "/" +:+ rel).
Proof.
  intros Hroot. split.
  - rewrite (roundtrip_general _ _ _ Hroot).
    destruct (JS.truthy localBase) eqn:E.
    + apply truthy_true in E.
      now rewrite (relativePath_under _ _ E), stripSlash_slash.
    + destruct localBase; [| discriminate E].
      now rewrite relativePath_no_base, !append_nil, stripSlash_slash.
  - intros Hrel. rewrite (roundtrip_general _ _ _ Hroot). simpl.
    now rewrite relativePath_no_base, (stripSlash_id _ Hrel).
Qed.

Lemma roundtrip_without_trailing_slash_witness :
  remoteToLocal (localToRemote ("notes" +:+ "/" +:+ "a.md") "notes" "/Collectives")
                "/Collectives" "notes"
  = "notes" +:+ "/" +:+ "a.md"
  /\ remoteToLocal (localToRemote "a.md" "" "/Collectives") "/Collectives" ""
     = "/" +:+ "a.md".
Proof.
  destruct (roundtrip_without_trailing_slash "notes" "a.md" "/Collectives"
              eq_refl) as [H1 H2].
  split; [exact H1 | apply H2; reflexivity].
Defined.

Lemma selectedFiles_In (folderPath : string) (w : world) (f : TFile) :
  In f (selectedFiles folderPath w)
  <-> In f (getMarkdownFiles w) /\ JS.startsWith (path f) folderPath = true.
Proof. unfold selectedFiles. apply List.filter_In. Qed.

(** C9. The folder filter and the base strip work on raw string prefixes.
    For a non-empty [localFolderPath] [L], every markdown file of the vault
    whose path begins with the string [L] is selected by the upload phase,
    and its remote path is the remote root followed by the rest of the
    path less one leading slash.  So with [L = notes] the file
    [notesX/a.md], which is not under the folder [notes], is uploaded, to
    the relative path [X/a.md]. *)
Theorem folder_filter_is_raw_prefix (L rest : string) (w : world) :
  L <> "" ->
  (forall f, In f (getMarkdownFiles w) -> path f = L +:+ rest ->
             In f (selectedFiles (JS.or_else L "/") w))
  /\ relativePath (L +:+ rest) L = stripSlash rest
  /\ (forall root, localToRemote (L +:+ rest) L root
                   = uploadRoot root +:+ stripSlash rest)
  /\ (let w0 := mkWorld "notes" "/Collectives" [("notesX/a.md", "Z")]
                        ∅ ∅ noFaults in
      under "notesX/a.md" "notes" = false
      /\ relativePath "notesX/a.md" "notes" = "X/a.md"
      /\ remoteFiles (uploadChanges "notes" w0).2 !! "/Collectives/X/a.md"
         = Some "Z").
Proof.
  intros HL. split; [| split; [| split]].
  - intros f Hin Hp. apply selectedFiles_In. split; [exact Hin |].
    rewrite (or_else_truthy _ _ HL), Hp. apply startsWith_append.
  - apply relativePath_under, HL.
  - intros root. unfold localToRemote. now rewrite (relativePath_under _ _ HL).
  - vm_compute. repeat split.
Qed.

Lemma folder_filter_is_raw_prefix_witness :
  relativePath ("notes" +:+ "X/a.md") "notes" = stripSlash "X/a.md".
Proof.
  refine (proj1 (proj2 (folder_filter_is_raw_prefix "notes" "X/a.md"
            (mkWorld "notes" "/Collectives" [("notesX/a.md", "Z")] ∅ ∅ noFaults)
            _))).
  discriminate.
Defined.

(* ===================================================================== *)
(** ** The upload phase with an empty local folder *)
(* ===================================================================== *)

(** With an empty [localFolderPath] the pass filters on the prefix [/],
    which no vault-relative path has. *)
Lemma empty_folder_selects_nothing (w : world) :
  (forall pc, In pc (vault w) -> JS.startsWith pc.1 "/" = false) ->
  selectedFiles (JS.or_else "" "/") w = [].
Proof.
  intros H. rewrite or_else_empty.
  destruct (selectedFiles "/" w) as [|f fs] eqn:E; [reflexivity | exfalso].
  assert (Hf : In f (selectedFiles "/" w)) by (rewrite E; now left).
  apply selectedFiles_In in Hf. destruct Hf as [Hin Hs].
  unfold getMarkdownFiles in Hin. apply List.in_map_iff in Hin.
  destruct Hin as (pc & <- & Hpc). apply List.filter_In in Hpc.
  destruct Hpc as [Hpc _]. cbn [path] in Hs. rewrite (H pc Hpc) in Hs.
  discriminate Hs.
Qed.

(** C5. The scenario on the code: with [localFolderPath = ""] and
    [collectivePath = "/Collectives"], a pass over a vault holding
    [notes/a.md] with content [X] selects no file, issues no
    [putFileContents], leaves [/Collectives/notes/a.md] absent and still
    reports success.  [uploadFile] itself, as the save hook calls it, puts
    the file where the scenario says. *)
Theorem scenario_upload_is_skipped :
  let w := mkWorld "" "/Collectives" [("notes/a.md", "X")] ∅ ∅ noFaults in
  let w' := (syncWithNextcloud w).2 in
  selectedFiles (JS.or_else (localFolderPath (settings w)) "/") w = []
  /\ log w' = [Called (GetDirectoryContents "/Collectives") None;
               Notice "Sync with Nextcloud Collectives completed"]
  /\ remoteFiles w' !! "/Collectives/notes/a.md" = None
  /\ statusBarItem w' = Some "Nextcloud: Connected"
  /\ remoteFiles (uploadFile {| path := "notes/a.md" |} w).2
       !! "/Collectives/notes/a.md" = Some "X".
Proof. vm_compute. repeat split. Qed.

(* ===================================================================== *)
(** ** Credentials *)
(* ===================================================================== *)

Ltac settle_branches :=
  repeat match goal with
         | |- context [if ?b then _ else _] => destruct b; simpl
         | |- context [match statusBarItem ?w with _ => _ end] =>
             destruct (statusBarItem w); simpl
         end.

Lemma credentialsGranted_clears_password loginName appPassword w :
  password (settings (credentialsGranted loginName appPassword w).2) = "".
Proof.
  unfold credentialsGranted, saveSettings, setupClient, setupOAuthClient,
    assign, new_Notice, setStatus, modify, gets, bind. simpl.
  settle_branches; reflexivity.
Qed.

Lemma loginGranted_keeps_accessToken loginName appPassword w :
  accessToken (settings (loginGranted loginName appPassword w).2)
  = accessToken (settings w).
Proof.
  unfold loginGranted, saveSettings, setupClient,
    assign, new_Notice, setStatus, modify, gets, bind. simpl.
  settle_branches; reflexivity.
Qed.

(** C4. The code at the failing input: starting from the default
    settings with a server URL, completing the token flow stores the token
    and clears the password; completing the login flow afterwards stores
    the password, switches [useOAuth] off and leaves the access token in
    place, so that both credential sets are present. *)
Theorem login_flow_leaves_access_token :
  let w0 := World (Settings "https://cloud.example.com" "" "" "/Collectives" 5
                            true true "" "" "" 0 "" false)
                  None (Some "Nextcloud: Not Connected") [] ∅ ∅ ∅ noFaults [] in
  let w1 := (pollForCredentials (fun _ => Response 200 "alice" "token-1") w0).2 in
  let w2 := (pollForLoginFlow (fun _ => Response 200 "alice" "app-pw") w1).2 in
  (useOAuth (settings w1) = true
   /\ password (settings w1) = ""
   /\ accessToken (settings w1) = "token-1"
   /\ oneCredentialSet (settings w1) = true)
  /\ (useOAuth (settings w2) = false
      /\ password (settings w2) = "app-pw"
      /\ accessToken (settings w2) = "token-1"
      /\ oneCredentialSet (settings w2) = false).
Proof. vm_compute. repeat split. Qed.

(* ===================================================================== *)
(** ** The download phase: failed listing, identical content *)
(* ===================================================================== *)

(** C8. A listing that throws is an empty listing.  With a client set up,
    when [getDirectoryContents] of the collective root throws, whatever
    the error, [downloadChanges] returns normally after logging the failed
    call and one console line: no entry is processed and nothing else
    changes.  And a pass whose upload phase returned then completes:
    [syncWithNextcloud] returns, sets the status to connected and shows the
    completion notice. *)
Theorem failed_listing_is_no_remote_files
    (w : world) (c : WebDAVClient) (e : error) :
  client w = Some c ->
  let root := downloadRoot (collectivePath (settings w)) in
  (forall folderPath,
      faults w (log w) (GetDirectoryContents root) = Some e ->
      downloadChanges folderPath w = (Ok tt, afterFailedListing root e w))
  /\ (forall w1,
         uploadChanges (JS.or_else (localFolderPath (settings w)) "/")
                       (setStatus "Nextcloud: Syncing..." w).2 = (Ok tt, w1) ->
         faults w1 (log w1) (GetDirectoryContents root) = Some e ->
         syncWithNextcloud w
         = (Ok tt,
            record (Notice "Sync with Nextcloud Collectives completed")
                   (setStatus "Nextcloud: Connected"
                              (afterFailedListing root e w1)).2)).
Proof.
  intros Hc root.
  assert (Hd : forall folderPath w',
             client w' = Some c -> settings w' = settings w ->
             faults w' (log w') (GetDirectoryContents root) = Some e ->
             downloadChanges folderPath w' = (Ok tt, afterFailedListing root e w')).
  { intros fp w' Hc' Hs Hf.
    unfold downloadChanges, getRemoteFiles, client_getDirectoryContents,
      perform, try_catch, bind, gets. simpl. rewrite Hc'. simpl.
    rewrite Hc', Hs. fold root. rewrite Hf. reflexivity. }
  split.
  - intros fp Hf. now apply Hd.
  - intros w1 Hup Hf.
    pose proof (samePlugin_uploadChanges
                  (JS.or_else (localFolderPath (settings w)) "/")
                  (setStatus "Nextcloud: Syncing..." w).2) as Hsame.
    rewrite Hup in Hsame. destruct Hsame as (Hs1 & Hc1 & _).
    assert (Hs0 : settings (setStatus "Nextcloud: Syncing..." w).2 = settings w)
      by (unfold setStatus, modify; simpl; destruct (statusBarItem w); reflexivity).
    assert (Hc0 : client (setStatus "Nextcloud: Syncing..." w).2 = client w)
      by (unfold setStatus, modify; simpl; destruct (statusBarItem w); reflexivity).
    rewrite Hs0 in Hs1. rewrite Hc0, Hc in Hc1. cbn [snd] in Hs1, Hc1.
    unfold syncWithNextcloud.
    unfold bind at 1. unfold gets at 1. rewrite Hc.
    unfold try_catch. unfold bind at 1.
    destruct (setStatus "Nextcloud: Syncing..." w) as [r0 wa] eqn:Ea.
    assert (r0 = Ok tt) by (unfold setStatus, modify in Ea; congruence).
    subst r0. simpl in Hup, Hs0.
    unfold bind at 1. unfold gets at 1. rewrite Hs0.
    unfold bind at 1. rewrite Hup.
    unfold bind at 1. rewrite (Hd _ w1 Hc1 Hs1 Hf).
    unfold bind at 1.
    destruct (setStatus "Nextcloud: Connected" (afterFailedListing root e w1))
      as [r2 wb] eqn:Eb.
    assert (r2 = Ok tt) by (unfold setStatus, modify in Eb; congruence).
    subst r2. reflexivity.
Qed.

Lemma failed_listing_is_no_remote_files_witness :
  let w := mkWorld "notes" "/Collectives" [("notes/a.md", "X")] ∅ ∅ listingFails in
  downloadChanges "notes" w = (Ok tt, afterFailedListing "/Collectives" notFound w)
  /\ (syncWithNextcloud w).1 = Ok tt.
Proof.
  intros w.
  destruct (failed_listing_is_no_remote_files w someClient notFound eq_refl)
    as [H1 H2].
  split.
  - apply H1. reflexivity.
  - rewrite (H2 (uploadChanges "notes" (setStatus "Nextcloud: Syncing..." w).2).2).
    + reflexivity.
    + vm_compute. reflexivity.
    + reflexivity.
Defined.

(* ===================================================================== *)
(** ** Running the monad step by step *)
(* ===================================================================== *)

Lemma run_bind {A B} (m : M A) (k : A -> M B) (w : world) :
  bind m k w = match m w with
               | (Ok a, w') => k a w'
               | (Throw e, w') => (Throw e, w')
               end.
Proof. reflexivity. Qed.

Lemma run_try {A} (m : M A) (h : error -> M A) (w : world) :
  try_catch m h w = match m w with
                    | (Ok a, w') => (Ok a, w')
                    | (Throw e, w') => h e w'
                    end.
Proof. reflexivity. Qed.

Lemma run_gets {A} (f : world -> A) (w : world) : gets f w = (Ok (f w), w).
Proof. reflexivity. Qed.

Lemma run_ret {A} (a : A) (w : world) : ret a w = (Ok a, w).
Proof. reflexivity. Qed.

Lemma run_throw {A} (e : error) (w : world) : @throw A e w = (Throw e, w).
Proof. reflexivity. Qed.

Lemma run_modify (f : world -> world) (w : world) : modify f w = (Ok tt, f w).
Proof. reflexivity. Qed.

Lemma run_perform {A} (c : call) (natural : M A) (w : world) :
  perform c natural w =
  match faults w (log w) c with
  | Some e => (Throw e, record (Called c (Some e)) w)
  | None =>
      match natural w with
      | (Ok a, w') => (Ok a, record (Called c None) w')
      | (Throw e, w') => (Throw e, record (Called c (Some e)) w')
      end
  end.
Proof. reflexivity. Qed.

Lemma bind_ok {A B} (m : M A) (k : A -> M B) w a w' :
  m w = (Ok a, w') -> bind m k w = k a w'.
Proof. intros H. now rewrite run_bind, H. Qed.


Lemma for_of_cons {A} (x : A) xs (body : A -> M unit) w :
  for_of (x :: xs) body w = bind (body x) (fun _ => for_of xs body) w.
Proof. reflexivity. Qed.


Lemma localWrites_app t t' :
  localWrites (t ++ t') = localWrites t ++ localWrites t'.
Proof.
  unfold localWrites, callsIssued. now rewrite omap_app, List.filter_app.
Qed.

Lemma localExists_record p e w : localExists p (record e w) = localExists p w.
Proof. reflexivity. Qed.

Lemma localExists_hit p w c :
  vlookup p (vault w) = Some c -> localExists p w = true.
Proof. intros H. unfold localExists. now rewrite H. Qed.

(* ===================================================================== *)
(** ** The download phase: identical content *)
(* ===================================================================== *)

(** The loop body on an entry whose local file holds the entry's content:
    nothing local is touched. *)
Lemma downloadEntry_identical (w : world) (remoteFile : RemoteFile) :
  (isRemoteMarkdown remoteFile = true ->
   exists content,
     vlookup (remoteToLocal (filename remoteFile) (collectivePath (settings w))
                            (localFolderPath (settings w)))
             (vault w) = Some content
     /\ remoteFiles w !! filename remoteFile = Some content) ->
  sameLocal w (downloadEntry remoteFile w).2
  /\ quietLocal w (downloadEntry remoteFile w).2.
Proof.
  intros Hmd. unfold downloadEntry, quietLocal.
  destruct (isRemoteMarkdown remoteFile);
    [| split; [apply sameLocal_refl | exists []; now rewrite app_nil_r]].
  destruct (Hmd eq_refl) as (content & Hlocal & Hremote).
  rewrite run_bind, run_gets. cbv beta iota.
  set (localPath := remoteToLocal _ _ _) in *.
  rewrite run_bind. unfold client_getFileContents. rewrite run_perform.
  destruct (faults w (log w) (GetFileContents (filename remoteFile))) as [e|].
  { split; [split; reflexivity | eexists; split; reflexivity]. }
  rewrite Hremote. cbv beta iota.
  rewrite run_bind. unfold adapter_exists. rewrite run_perform.
  destruct (faults _ _ (AdapterExists localPath)) as [e|].
  { split; [split; reflexivity |].
    eexists; split; [cbn [log record set_log snd]; rewrite <- app_assoc; reflexivity |].
    reflexivity. }
  cbv beta iota. rewrite localExists_record, (localExists_hit _ _ _ Hlocal).
  rewrite run_bind. unfold adapter_read. rewrite run_perform.
  destruct (faults _ _ (AdapterRead localPath)) as [e|].
  { split; [split; reflexivity |].
    eexists; split; [cbn [log record set_log snd]; rewrite <- !app_assoc; reflexivity |].
    reflexivity. }
  cbn [vault record set_log]. rewrite Hlocal. cbv beta iota.
  rewrite String.eqb_refl. cbn [negb]. rewrite run_ret.
  split; [split; reflexivity |].
  eexists; split; [cbn [log record set_log snd]; rewrite <- !app_assoc; reflexivity |].
  reflexivity.
Qed.

(** C7. Identical content is not written.  When the local file a remote
    markdown entry maps to exists and holds exactly the content the server
    holds for the entry, the loop body of the download phase leaves the
    vault and the local folders as they are and issues no local write, no
    file creation and no folder creation, whatever failures the
    environment injects. *)
Theorem identical_content_is_not_written
    (w : world) (remoteFile : RemoteFile) (content : string) :
  vlookup (remoteToLocal (filename remoteFile) (collectivePath (settings w))
                         (localFolderPath (settings w)))
          (vault w) = Some content ->
  remoteFiles w !! filename remoteFile = Some content ->
  sameLocal w (downloadEntry remoteFile w).2
  /\ exists t, log (downloadEntry remoteFile w).2 = log w ++ t
               /\ localWrites t = [].
Proof.
  intros Hlocal Hremote. apply downloadEntry_identical.
  intros _. exists content. now split.
Qed.

Lemma identical_content_is_not_written_witness :
  let w := mkWorld "notes" "/Collectives" [("notes/a.md", "X")]
                   {["/Collectives/a.md" := "X"]} {["/Collectives"]} noFaults in
  sameLocal w (downloadEntry (fileEntry ("/Collectives/a.md", "X")) w).2.
Proof.
  intros w.
  refine (proj1 (identical_content_is_not_written w
                   (fileEntry ("/Collectives/a.md", "X")) "X" _ _));
    reflexivity.
Defined.

(* ===================================================================== *)
(** ** The directory ensurer *)
(* ===================================================================== *)

Lemma log_record e w : log (record e w) = log w ++ [e].
Proof. reflexivity. Qed.

(** One round of the loop: the [stat], and the [createDirectory] that
    answers a [stat] that threw. *)
Lemma ensure_level (p : string) (w : world) :
  exists t r w',
    levelTrace p t r
    /\ try_catch (client_stat p) (fun _ => client_createDirectory p) w
       = (outcome r, w')
    /\ log w' = log w ++ t.
Proof.
  assert (Hcreate : forall e0 w0,
    log w0 = log w ++ [Called (Stat p) (Some e0)] ->
    exists t r w', levelTrace p t r
      /\ client_createDirectory p w0 = (outcome r, w')
      /\ log w' = log w ++ t).
  { intros e0 w0 Hlog. unfold client_createDirectory. rewrite run_perform.
    destruct (faults w0 (log w0) (CreateDirectory p)) as [e'|].
    - exists [Called (Stat p) (Some e0); Called (CreateDirectory p) (Some e')],
        (Some e'). eexists.
      split; [constructor |]. split; [reflexivity |].
      rewrite log_record, Hlog, <- app_assoc. reflexivity.
    - destruct (remoteExists p w0).
      + exists [Called (Stat p) (Some e0);
                Called (CreateDirectory p) (Some methodNotAllowed)],
          (Some methodNotAllowed). eexists.
        split; [constructor |]. split; [reflexivity |].
        rewrite log_record, Hlog, <- app_assoc. reflexivity.
      + exists [Called (Stat p) (Some e0); Called (CreateDirectory p) None], None.
        eexists.
        split; [constructor |]. split; [reflexivity |].
        rewrite log_record. cbn [log set_remoteDirs].
        rewrite Hlog, <- app_assoc. reflexivity. }
  rewrite run_try. unfold client_stat. rewrite run_perform.
  destruct (faults w (log w) (Stat p)) as [e|].
  - apply (Hcreate e). apply log_record.
  - destruct (remoteExists p w).
    + exists [Called (Stat p) None], None. eexists.
      split; [constructor |]. split; reflexivity.
    + apply (Hcreate notFound). apply log_record.
Qed.

Lemma ensureLevels_trace (components : list string) (currentPath : string)
    (w : world) :
  exists t r w',
    levelsTrace (prefixPaths components currentPath) t r
    /\ ensureLevels components currentPath w = (outcome r, w')
    /\ log w' = log w ++ t.
Proof.
  revert currentPath w.
  induction components as [|c cs IH]; intros cur w.
  - exists [], None, w. split; [constructor |]. split; [reflexivity |].
    now rewrite app_nil_r.
  - cbn [ensureLevels prefixPaths]. rewrite run_bind.
    destruct (ensure_level (cur +:+ "/" +:+ c) w)
      as (t & r & w1 & Ht & Hrun & Hlog).
    rewrite Hrun. destruct r as [e|]; cbn [outcome].
    + exists t, (Some e), w1. split; [now apply levels_abort |]. now split.
    + destruct (IH (cur +:+ "/" +:+ c) w1)
        as (t' & r' & w2 & Ht' & Hrun' & Hlog').
      exists (t ++ t'), r', w2. split; [now apply levels_next |].
      split; [exact Hrun' |]. now rewrite Hlog', Hlog, app_assoc.
Qed.

(** C6, as stated, fails: a [stat] that throws an error other than "not
    found" is answered by a [createDirectory], and the ensure operation
    returns normally. *)
Lemma stat_error_is_answered_by_create :
  let w := mkWorld "" "/Collectives" [] ∅ ∅ statFails in
  status serverError <> status notFound
  /\ (ensureDirectoryExists "/Collectives" w).1 = Ok tt
  /\ log (ensureDirectoryExists "/Collectives" w).2
     = [Called (Stat "/Collectives") (Some serverError);
        Called (CreateDirectory "/Collectives") None]
  /\ "/Collectives" ∈ remoteDirs (ensureDirectoryExists "/Collectives" w).2.
Proof.
  split; [discriminate |]. split; [reflexivity |]. split; [reflexivity |].
  vm_compute. set_solver.
Qed.

(** C6, amended.  With a client set up, the ensurer walks the increasing
    path prefixes of the directory in root-to-leaf order, one [stat] per
    prefix.  It issues a [createDirectory] for a prefix exactly when the
    [stat] of that prefix throws, whatever the error.  An error of [stat]
    is never propagated.  The operation aborts exactly when a
    [createDirectory] throws: that error is logged and re-thrown, and no
    later prefix is visited. *)
Theorem ensure_creates_on_any_stat_error
    (directory : string) (w : world) (c : WebDAVClient) :
  client w = Some c ->
  exists t r,
    levelsTrace (prefixPaths (pathComponents directory) "") t r
    /\ match r with
       | None =>
           (ensureDirectoryExists directory w).1 = Ok tt
           /\ log (ensureDirectoryExists directory w).2 = log w ++ t
       | Some e =>
           (ensureDirectoryExists directory w).1 = Throw e
           /\ log (ensureDirectoryExists directory w).2
              = log w ++ t
                ++ [ConsoleError
                      ("Error ensuring directory exists " +:+ directory +:+ ":") e]
       end.
Proof.
  intros Hc. unfold ensureDirectoryExists.
  rewrite run_bind, run_gets. cbv beta iota. rewrite Hc, run_try.
  destruct (ensureLevels_trace (pathComponents directory) "" w)
    as (t & r & w1 & Ht & Hrun & Hlog).
  exists t, r. split; [exact Ht |]. rewrite Hrun.
  destruct r as [e|]; cbn [outcome].
  - unfold console_error. rewrite run_bind, run_modify. cbv beta iota.
    rewrite run_throw. cbn [fst snd]. split; [reflexivity |].
    now rewrite log_record, Hlog, app_assoc.
  - now split.
Qed.

Lemma ensure_creates_on_any_stat_error_witness :
  exists t r,
    levelsTrace (prefixPaths (pathComponents "/Collectives/notes") "") t r
    /\ match r with
       | None =>
           (ensureDirectoryExists "/Collectives/notes"
              (mkWorld "" "/Collectives" [] ∅ ∅ statFails)).1 = Ok tt
           /\ log (ensureDirectoryExists "/Collectives/notes"
                     (mkWorld "" "/Collectives" [] ∅ ∅ statFails)).2
              = log (mkWorld "" "/Collectives" [] ∅ ∅ statFails) ++ t
       | Some e =>
           (ensureDirectoryExists "/Collectives/notes"
              (mkWorld "" "/Collectives" [] ∅ ∅ statFails)).1 = Throw e
           /\ log (ensureDirectoryExists "/Collectives/notes"
                     (mkWorld "" "/Collectives" [] ∅ ∅ statFails)).2
              = log (mkWorld "" "/Collectives" [] ∅ ∅ statFails) ++ t
                ++ [ConsoleError
                      ("Error ensuring directory exists "
                       +:+ "/Collectives/notes" +:+ ":") e]
       end.
Proof.
  apply (ensure_creates_on_any_stat_error "/Collectives/notes"
           (mkWorld "" "/Collectives" [] ∅ ∅ statFails) someClient).
  reflexivity.
Defined.

(* ===================================================================== *)
(** ** A failing file and the rest of its batch *)
(* ===================================================================== *)



(* ===================================================================== *)
(** ** An environment without failures *)
(* ===================================================================== *)

Lemma noFault_samePlugin w w' : samePlugin w w' -> noFault w -> noFault w'.
Proof. intros (_ & _ & Hf) H l c. rewrite Hf. apply H. Qed.

Lemma noFault_record e w : noFault w -> noFault (record e w).
Proof. intros H l c. apply H. Qed.

Lemma perform_free {A} (c : call) (natural : M A) (w : world) :
  noFault w ->
  perform c natural w =
  match natural w with
  | (Ok a, w') => (Ok a, record (Called c None) w')
  | (Throw e, w') => (Throw e, record (Called c (Some e)) w')
  end.
Proof. intros H. rewrite run_perform, H. reflexivity. Qed.

Lemma remoteWrites_app t t' :
  remoteWrites (t ++ t') = remoteWrites t ++ remoteWrites t'.
Proof.
  unfold remoteWrites, callsIssued. now rewrite omap_app, List.filter_app.
Qed.

Lemma quiet_refl w : quiet w w.
Proof. exists []. now rewrite app_nil_r. Qed.

Lemma quiet_trans w1 w2 w3 : quiet w1 w2 -> quiet w2 w3 -> quiet w1 w3.
Proof.
  intros (t1 & H1 & A1 & B1) (t2 & H2 & A2 & B2). exists (t1 ++ t2).
  rewrite H2, H1, app_assoc, remoteWrites_app, localWrites_app, A1, A2, B1, B2.
  now repeat split.
Qed.

Lemma quiet_record w e : notWrite e -> quiet w (record e w).
Proof.
  intros He. exists [e]. split; [reflexivity |].
  destruct e as [c o| | |]; simpl in He; [| now split ..].
  destruct He as [H1 H2].
  unfold remoteWrites, localWrites, callsIssued. simpl. now rewrite H1, H2.
Qed.

Lemma quiet_ensureDirectoryExists d : preserves quiet (ensureDirectoryExists d).
Proof.
  apply (preserves_ensureDirectoryExists quiet notWrite).
  - exact quiet_refl.
  - exact quiet_trans.
  - exact quiet_record.
  - intros c o. destruct c; simpl; intros; try discriminate; now split.
  - intros; exact I.
  - intros w p. exists []. split; [simpl; now rewrite app_nil_r | now split].
Qed.

Lemma sameFiles_ensureDirectoryExists d :
  preserves sameFiles (ensureDirectoryExists d).
Proof.
  apply (preserves_ensureDirectoryExists sameFiles anyEvent);
    solve [intros; exact I | intros; reflexivity
          | unfold sameFiles; intros; congruence].
Qed.

Lemma samePlugin_ensureDirectoryExists d :
  preserves samePlugin (ensureDirectoryExists d).
Proof.
  apply (preserves_ensureDirectoryExists samePlugin anyEvent);
    first [ exact samePlugin_refl | exact samePlugin_trans
          | solve [intros; exact I] | solve [intros; repeat split] ].
Qed.

Lemma sameLocal_ensureDirectoryExists d :
  preserves sameLocal (ensureDirectoryExists d).
Proof.
  apply (preserves_ensureDirectoryExists sameLocal anyEvent);
    first [ exact sameLocal_refl | exact sameLocal_trans
          | solve [intros; exact I] | solve [intros; repeat split] ].
Qed.


Lemma remoteExists_record p e w : remoteExists p (record e w) = remoteExists p w.
Proof. reflexivity. Qed.

Lemma ensure_level_free (p : string) (w : world) :
  noFault w ->
  exists w',
    try_catch (client_stat p) (fun _ => client_createDirectory p) w = (Ok tt, w')
    /\ noFault w'.
Proof.
  intros Hf. rewrite run_try. unfold client_stat.
  rewrite (perform_free _ _ _ Hf).
  destruct (remoteExists p w) eqn:E.
  - eexists. split; [reflexivity | now apply noFault_record].
  - unfold client_createDirectory.
    rewrite (perform_free _ _ _ (noFault_record _ _ Hf)).
    rewrite remoteExists_record, E.
    eexists. split; [reflexivity |]. intros l c. apply Hf.
Qed.

Lemma ensureLevels_free (components : list string) (currentPath : string)
    (w : world) :
  noFault w -> exists w', ensureLevels components currentPath w = (Ok tt, w').
Proof.
  revert currentPath w.
  induction components as [|c cs IH]; intros cur w Hf.
  - exists w. reflexivity.
  - cbn [ensureLevels]. rewrite run_bind.
    destruct (ensure_level_free (cur +:+ "/" +:+ c) w Hf) as (w1 & -> & Hf1).
    apply IH, Hf1.
Qed.

Lemma ensureDirectoryExists_free (directory : string) (w : world) :
  noFault w -> exists w', ensureDirectoryExists directory w = (Ok tt, w').
Proof.
  intros Hf. unfold ensureDirectoryExists.
  rewrite run_bind, run_gets. cbv beta iota.
  destruct (client w); [| exists w; reflexivity].
  rewrite run_try.
  destruct (ensureLevels_free (pathComponents directory) "" w Hf) as (w1 & ->).
  exists w1. reflexivity.
Qed.

(** One file uploaded in an environment without failures. *)
Lemma uploadFile_free (f : TFile) (w : world) (c0 : WebDAVClient)
    (content : string) :
  noFault w ->
  client w = Some c0 ->
  vlookup (path f) (vault w) = Some content ->
  let r := localToRemote (path f) (localFolderPath (settings w))
                         (collectivePath (settings w)) in
  exists w',
    uploadFile f w = (Ok tt, w')
    /\ remoteFiles w' = <[r := content]> (remoteFiles w)
    /\ exists t, log w' = log w ++ t
                 /\ remoteWrites t = [PutFileContents r content]
                 /\ localWrites t = [].
Proof.
  intros Hf Hc Hv r. unfold uploadFile.
  rewrite run_bind, run_gets. cbv beta iota. rewrite Hc, run_try.
  rewrite run_bind. unfold vault_read. rewrite (perform_free _ _ _ Hf), Hv.
  cbv beta iota. rewrite run_bind, run_gets. cbv beta iota.
  cbn [settings record set_log]. fold r.
  set (w1 := record (Called (VaultRead (path f)) None) w).
  assert (Hf1 : noFault w1) by now apply noFault_record.
  set (dir := JS.substring r 0 (JS.lastIndexOf r "/")).
  rewrite run_bind.
  destruct (ensureDirectoryExists_free dir w1 Hf1) as (w2 & Hrun).
  pose proof (quiet_ensureDirectoryExists dir w1) as Hq.
  pose proof (sameFiles_ensureDirectoryExists dir w1) as Hs.
  pose proof (samePlugin_ensureDirectoryExists dir w1) as Hp.
  rewrite Hrun in Hq, Hs, Hp |- *. cbn [snd] in Hq, Hs, Hp.
  assert (Hf2 : noFault w2) by exact (noFault_samePlugin _ _ Hp Hf1).
  unfold client_putFileContents. rewrite (perform_free _ _ _ Hf2).
  eexists. split; [reflexivity |]. split.
  - cbn [remoteFiles record set_log set_remoteFiles]. now rewrite Hs.
  - destruct Hq as (t & Ht & Hr & Hl).
    exists ([Called (VaultRead (path f)) None] ++ t
            ++ [Called (PutFileContents r content) None]).
    split.
    + rewrite log_record. cbn [log set_remoteFiles]. rewrite Ht.
      unfold w1. rewrite log_record, <- !app_assoc. reflexivity.
    + rewrite !remoteWrites_app, !localWrites_app, Hr, Hl. now split.
Qed.

Lemma uploadedMap_cons L C f fs v m c :
  vlookup (path f) v = Some c ->
  uploadedMap L C (f :: fs) v m
  = uploadedMap L C fs v (<[localToRemote (path f) L C := c]> m).
Proof. intros H. unfold uploadedMap. simpl. now rewrite H. Qed.

Lemma uploadsOf_cons L C f fs v c :
  vlookup (path f) v = Some c ->
  uploadsOf L C (f :: fs) v
  = PutFileContents (localToRemote (path f) L C) c :: uploadsOf L C fs v.
Proof. intros H. unfold uploadsOf. simpl. now rewrite H. Qed.

Lemma uploadLoop_free (fs : list TFile) (w : world) (c0 : WebDAVClient) :
  noFault w ->
  client w = Some c0 ->
  (forall f, In f fs -> is_Some (vlookup (path f) (vault w))) ->
  let L := localFolderPath (settings w) in
  let C := collectivePath (settings w) in
  exists w',
    for_of fs uploadFile w = (Ok tt, w')
    /\ remoteFiles w' = uploadedMap L C fs (vault w) (remoteFiles w)
    /\ exists t, log w' = log w ++ t
                 /\ remoteWrites t = uploadsOf L C fs (vault w)
                 /\ localWrites t = [].
Proof.
  revert w. induction fs as [|f fs IH]; intros w Hf Hc Hin L C.
  - exists w. split; [reflexivity |]. split; [reflexivity |].
    exists []. now rewrite app_nil_r.
  - destruct (Hin f (or_introl eq_refl)) as [content Hv].
    destruct (uploadFile_free f w c0 content Hf Hc Hv)
      as (w1 & Hrun & Hfiles & t1 & Hlog1 & Hr1 & Hl1).
    pose proof (samePlugin_uploadFile f w) as Hp.
    pose proof (sameLocal_uploadFile f w) as Hloc.
    rewrite Hrun in Hp, Hloc. cbn [snd] in Hp, Hloc.
    destruct Hp as (Hs & Hcl & Hfa). destruct Hloc as [Hvault _].
    assert (Hf1 : noFault w1) by (intros l c; rewrite Hfa; apply Hf).
    assert (Hc1 : client w1 = Some c0) by congruence.
    assert (Hin1 : forall g, In g fs -> is_Some (vlookup (path g) (vault w1)))
      by (intros g Hg; rewrite Hvault; apply Hin; now right).
    destruct (IH w1 Hf1 Hc1 Hin1) as (w2 & Hrun2 & Hfiles2 & t2 & Hlog2 & Hr2 & Hl2).
    exists w2. rewrite for_of_cons, (bind_ok _ _ _ _ _ Hrun).
    split; [exact Hrun2 |]. rewrite Hs, Hvault in *. fold L C in Hfiles, Hr1 |- *.
    split.
    + now rewrite Hfiles2, Hfiles, (uploadedMap_cons _ _ _ _ _ _ _ Hv).
    + exists (t1 ++ t2). rewrite Hlog2, Hlog1, app_assoc.
      split; [reflexivity |].
      rewrite remoteWrites_app, localWrites_app, Hr1, Hr2, Hl1, Hl2.
      now rewrite (uploadsOf_cons _ _ _ _ _ _ Hv).
Qed.

Lemma selectedFiles_in_vault (folderPath : string) (w : world) (f : TFile) :
  In f (selectedFiles folderPath w) -> is_Some (vlookup (path f) (vault w)).
Proof.
  intros H. apply selectedFiles_In in H. destruct H as [H _].
  unfold getMarkdownFiles in H. apply List.in_map_iff in H.
  destruct H as (pc & <- & Hpc). apply List.filter_In in Hpc.
  destruct Hpc as [Hpc _]. cbn [path].
  induction (vault w) as [|[q d] v IH]; [destruct Hpc |].
  simpl. destruct (String.eqb q pc.1) eqn:E; [eexists; reflexivity |].
  destruct Hpc as [<- | Hpc]; [| now apply IH].
  simpl in E. now rewrite String.eqb_refl in E.
Qed.

(** The upload phase in an environment without failures: it returns, the
    remote files are those of the fold, every selected file is put once
    and nothing local is touched. *)
Lemma uploadChanges_free (folderPath : string) (w : world) (c0 : WebDAVClient) :
  noFault w ->
  client w = Some c0 ->
  let L := localFolderPath (settings w) in
  let C := collectivePath (settings w) in
  exists w',
    uploadChanges folderPath w = (Ok tt, w')
    /\ remoteFiles w'
       = uploadedMap L C (selectedFiles folderPath w) (vault w) (remoteFiles w)
    /\ exists t, log w' = log w ++ t
                 /\ remoteWrites t
                    = uploadsOf L C (selectedFiles folderPath w) (vault w)
                 /\ localWrites t = [].
Proof.
  intros Hf Hc L C. unfold uploadChanges.
  rewrite run_bind, run_gets. cbv beta iota. rewrite Hc.
  rewrite run_bind, run_gets. cbv beta iota.
  apply (uploadLoop_free _ w c0 Hf Hc).
  intros f. apply selectedFiles_in_vault.
Qed.

(* ===================================================================== *)
(** ** The download phase without failures *)
(* ===================================================================== *)

Lemma vupdate_same p c v : vlookup p v = Some c -> vupdate p c v = v.
Proof.
  induction v as [|[q d] v IH]; simpl; [reflexivity |].
  destruct (String.eqb q p) eqn:E.
  - intros [= ->]. reflexivity.
  - intros H. now rewrite (IH H).
Qed.

Lemma vwrite_same p c v : vlookup p v = Some c -> vwrite p c v = v.
Proof. intros H. unfold vwrite. rewrite H. now apply vupdate_same. Qed.

Lemma vwrite_fresh p c v : vlookup p v = None -> vwrite p c v = v ++ [(p, c)].
Proof. intros H. unfold vwrite. now rewrite H. Qed.

Lemma createFolder_step (dirPath : string) (w : world) :
  noFault w ->
  exists w',
    (if JS.truthy dirPath
     then try_catch (vault_createFolder dirPath) (fun _ => ret tt)
     else ret tt) w = (Ok tt, w')
    /\ vault w' = vault w /\ noFault w'.
Proof.
  intros Hf. destruct (JS.truthy dirPath).
  - rewrite run_try. unfold vault_createFolder. rewrite (perform_free _ _ _ Hf).
    destruct (localExists dirPath w).
    + eexists. split; [reflexivity |]. split; [reflexivity |].
      intros l c. apply Hf.
    + eexists. split; [reflexivity |]. split; [reflexivity |].
      intros l c. apply Hf.
  - exists w. now repeat split.
Qed.

(** One entry downloaded in an environment without failures: when the loop
    body returns, the vault is the old one with the entry written to its
    local path. *)
Lemma downloadEntry_ok (r : RemoteFile) (w w' : world) :
  noFault w ->
  downloadEntry r w = (Ok tt, w') ->
  vault w' = downloadedVault (localFolderPath (settings w))
                             (collectivePath (settings w))
                             (remoteFiles w) [r] (vault w).
Proof.
  intros Hf. unfold downloadedVault. cbn [fold_left]. unfold downloadEntry.
  destruct (isRemoteMarkdown r); [| now intros [= <-]].
  rewrite run_bind, run_gets. cbv beta iota.
  set (localPath := remoteToLocal _ _ _).
  rewrite run_bind. unfold client_getFileContents.
  rewrite (perform_free _ _ _ Hf).
  destruct (remoteFiles w !! filename r) as [content|]; [| discriminate].
  set (w1 := record _ w).
  assert (Hf1 : noFault w1) by now apply noFault_record.
  rewrite run_bind. unfold adapter_exists. rewrite (perform_free _ _ _ Hf1).
  set (w2 := record _ w1).
  assert (Hf2 : noFault w2) by now apply noFault_record.
  unfold w1 at 1. rewrite localExists_record.
  destruct (localExists localPath w) eqn:Hex.
  - rewrite run_bind. unfold adapter_read. rewrite (perform_free _ _ _ Hf2).
    change (vault w2) with (vault w).
    destruct (vlookup localPath (vault w)) as [localContent|] eqn:Hv;
      [| discriminate].
    destruct (String.eqb content localContent) eqn:E; cbn [negb].
    + apply String.eqb_eq in E. subst localContent.
      rewrite run_ret. intros [= <-]. cbn [vault record set_log].
      now rewrite (vwrite_same _ _ _ Hv).
    + unfold adapter_write. rewrite perform_free by now apply noFault_record.
      intros [= <-]. reflexivity.
  - assert (Hv : vlookup localPath (vault w) = None).
    { unfold localExists in Hex. now destruct (vlookup localPath (vault w)). }
    rewrite run_bind.
    destruct (createFolder_step
                (JS.substring localPath 0 (JS.lastIndexOf localPath "/")) w2 Hf2)
      as (w3 & -> & Hv3 & Hf3).
    unfold vault_create. rewrite (perform_free _ _ _ Hf3).
    destruct (localExists localPath w3); [discriminate |].
    intros [= <-]. cbn [vault record set_log set_vault].
    rewrite Hv3. change (vault w2) with (vault w).
    now rewrite (vwrite_fresh _ _ _ Hv).
Qed.

Lemma downloadedVault_app L C m rs rs' v :
  downloadedVault L C m (rs ++ rs') v
  = downloadedVault L C m rs' (downloadedVault L C m rs v).
Proof. unfold downloadedVault. apply fold_left_app. Qed.

Lemma downloadLoop_ok (rs : list RemoteFile) (w w' : world) :
  noFault w ->
  for_of rs downloadEntry w = (Ok tt, w') ->
  vault w' = downloadedVault (localFolderPath (settings w))
                             (collectivePath (settings w))
                             (remoteFiles w) rs (vault w).
Proof.
  revert w. induction rs as [|r rs IH]; intros w Hf.
  - now intros [= <-].
  - rewrite for_of_cons, run_bind.
    destruct (downloadEntry r w) as [[[]|e] w1] eqn:E; [| discriminate].
    intros Hrest.
    pose proof (samePlugin_downloadEntry r w) as Hp.
    pose proof (sameRemote_downloadEntry r w) as Hr.
    rewrite E in Hp, Hr. cbn [snd] in Hp, Hr.
    assert (Hf1 : noFault w1) by exact (noFault_samePlugin _ _ Hp Hf).
    destruct Hp as (Hs & _). destruct Hr as (Hm & _).
    rewrite (IH w1 Hf1 Hrest), Hs, Hm, (downloadEntry_ok r w w1 Hf E).
    change (r :: rs) with ([r] ++ rs). now rewrite downloadedVault_app.
Qed.

Lemma downloadChanges_ok (folderPath : string) (w w' : world)
    (c0 : WebDAVClient) :
  noFault w ->
  client w = Some c0 ->
  downloadChanges folderPath w = (Ok tt, w') ->
  vault w' = downloadedVault (localFolderPath (settings w))
               (collectivePath (settings w)) (remoteFiles w)
               (listing (downloadRoot (collectivePath (settings w))) w)
               (vault w).
Proof.
  intros Hf Hc. unfold downloadChanges.
  rewrite run_bind, run_gets. cbv beta iota. rewrite Hc, run_try.
  rewrite run_bind, run_gets. cbv beta iota. rewrite run_bind.
  unfold getRemoteFiles. rewrite run_bind, run_gets. cbv beta iota.
  rewrite Hc, run_try. unfold client_getDirectoryContents.
  rewrite (perform_free _ _ _ Hf). cbv beta iota.
  set (w1 := record _ w).
  destruct (for_of _ downloadEntry w1) as [[[]|e] w2] eqn:E.
  - intros [= <-].
    exact (downloadLoop_ok _ w1 w2 (noFault_record _ _ Hf) E).
  - unfold console_error. rewrite run_bind, run_modify. cbv beta iota.
    rewrite run_throw. discriminate.
Qed.

(* ===================================================================== *)
(** ** Who wrote last *)
(* ===================================================================== *)

Lemma find_app {A} (p : A -> bool) (xs ys : list A) :
  List.find p (xs ++ ys)
  = match List.find p xs with Some x => Some x | None => List.find p ys end.
Proof.
  induction xs as [|x xs IH]; simpl; [reflexivity |].
  destruct (p x); [reflexivity | exact IH].
Qed.

Lemma lastUpload_app L C q xs ys :
  lastUpload L C q (xs ++ ys)
  = match lastUpload L C q ys with
    | Some f => Some f
    | None => lastUpload L C q xs
    end.
Proof. unfold lastUpload. now rewrite rev_app_distr, find_app. Qed.

Lemma uploadedMap_snoc L C fs f v m :
  uploadedMap L C (fs ++ [f]) v m
  = match vlookup (path f) v with
    | Some c => <[localToRemote (path f) L C := c]> (uploadedMap L C fs v m)
    | None => uploadedMap L C fs v m
    end.
Proof. unfold uploadedMap. now rewrite fold_left_app. Qed.

(** A remote path holds what the last file uploaded to it held. *)
Lemma uploadedMap_lookup L C (fs : list TFile) v m q :
  (forall f, In f fs -> is_Some (vlookup (path f) v)) ->
  uploadedMap L C fs v m !! q
  = match lastUpload L C q fs with
    | Some f => vlookup (path f) v
    | None => m !! q
    end.
Proof.
  induction fs as [|f fs IH] using rev_ind; intros Hin; [reflexivity |].
  rewrite uploadedMap_snoc, lastUpload_app.
  destruct (Hin f) as [c Hc]; [apply in_or_app; right; now left |].
  rewrite Hc. unfold lastUpload at 1. simpl.
  destruct (String.eqb (localToRemote (path f) L C) q) eqn:E.
  - apply String.eqb_eq in E. subst q. now rewrite lookup_insert_eq.
  - apply String.eqb_neq in E. rewrite lookup_insert_ne by exact E.
    apply IH. intros g Hg. apply Hin, in_or_app. now left.
Qed.

Lemma lastEntry_app L C p xs ys :
  lastEntry L C p (xs ++ ys)
  = match lastEntry L C p ys with
    | Some r => Some r
    | None => lastEntry L C p xs
    end.
Proof. unfold lastEntry. now rewrite rev_app_distr, find_app. Qed.

Lemma downloadedVault_snoc L C m rs r v :
  downloadedVault L C m (rs ++ [r]) v
  = if isRemoteMarkdown r
    then match m !! filename r with
         | Some c => vwrite (remoteToLocal (filename r) C L) c
                            (downloadedVault L C m rs v)
         | None => downloadedVault L C m rs v
         end
    else downloadedVault L C m rs v.
Proof. unfold downloadedVault. now rewrite fold_left_app. Qed.

(** A local path holds what the last entry downloaded to it holds. *)
Lemma downloadedVault_lookup L C m (rs : list RemoteFile) v p :
  (forall r, In r rs -> isRemoteMarkdown r = true ->
             is_Some (m !! filename r)) ->
  vlookup p (downloadedVault L C m rs v)
  = match lastEntry L C p rs with
    | Some r => m !! filename r
    | None => vlookup p v
    end.
Proof.
  induction rs as [|r rs IH] using rev_ind; intros Hin; [reflexivity |].
  assert (IH' := IH (fun r0 H0 => Hin r0 (in_or_app _ _ _ (or_introl H0)))).
  rewrite downloadedVault_snoc, lastEntry_app.
  unfold lastEntry at 1. simpl.
  destruct (isRemoteMarkdown r) eqn:Hmd; simpl; [| exact IH'].
  destruct (Hin r) as [c Hc]; [apply in_or_app; right; now left | exact Hmd |].
  rewrite Hc, vlookup_vwrite.
  destruct (String.eqb (remoteToLocal (filename r) C L) p); [now rewrite Hc |].
  exact IH'.
Qed.

Lemma keys_vupdate p c v : map fst (vupdate p c v) = map fst v.
Proof.
  induction v as [|[q d] v IH]; simpl; [reflexivity |].
  destruct (String.eqb q p); simpl; [reflexivity | now rewrite IH].
Qed.

Lemma keys_vwrite p c v :
  exists news, map fst (vwrite p c v) = map fst v ++ news
               /\ forall k, In k news -> k = p.
Proof.
  unfold vwrite. destruct (vlookup p v).
  - exists []. rewrite keys_vupdate, app_nil_r. split; [reflexivity | intros k []].
  - exists [p]. rewrite map_app. split; [reflexivity |].
    intros k [<- | []]. reflexivity.
Qed.

(** Downloading keeps the paths of the vault in place and appends the new
    ones, each the local path of a markdown entry. *)
Lemma downloadedVault_keys L C m (rs : list RemoteFile) v :
  exists news,
    map fst (downloadedVault L C m rs v) = map fst v ++ news
    /\ forall k, In k news ->
                 exists r, In r rs /\ isRemoteMarkdown r = true
                           /\ k = remoteToLocal (filename r) C L.
Proof.
  induction rs as [|r rs IH] using rev_ind.
  - exists []. rewrite app_nil_r. split; [reflexivity | intros k []].
  - destruct IH as (news & Hk & Hn). rewrite downloadedVault_snoc.
    assert (Hkeep : exists news0,
               map fst (downloadedVault L C m rs v) = map fst v ++ news0
               /\ forall k, In k news0 ->
                    exists r0, In r0 (rs ++ [r]) /\ isRemoteMarkdown r0 = true
                               /\ k = remoteToLocal (filename r0) C L).
    { exists news. split; [exact Hk |]. intros k Hin.
      destruct (Hn k Hin) as (r0 & H0 & H1 & H2).
      exists r0. split; [apply in_or_app; now left | now split]. }
    destruct (isRemoteMarkdown r) eqn:Hmd; [| exact Hkeep].
    destruct (m !! filename r) as [c|]; [| exact Hkeep].
    destruct (keys_vwrite (remoteToLocal (filename r) C L) c
                (downloadedVault L C m rs v)) as (n1 & Hk1 & Hn1).
    exists (news ++ n1). rewrite Hk1, Hk, app_assoc. split; [reflexivity |].
    intros k Hin. apply in_app_or in Hin. destruct Hin as [Hin | Hin].
    + destruct (Hn k Hin) as (r0 & H0 & H1 & H2).
      exists r0. split; [apply in_or_app; now left | now split].
    + exists r. split; [apply in_or_app; right; now left |].
      split; [exact Hmd | now apply Hn1].
Qed.

(* ===================================================================== *)
(** ** Selection, listing and the way back of a listed path *)
(* ===================================================================== *)

Lemma select_by_key (md sw : string -> bool) (v : list (string * string)) :
  List.filter (fun f => sw (path f))
              (map (fun pc => {| path := pc.1 |})
                   (List.filter (fun pc => md pc.1) v))
  = map (fun k => {| path := k |})
        (List.filter (fun k => md k && sw k) (map fst v)).
Proof.
  induction v as [|[q d] v IH]; [reflexivity |].
  simpl. destruct (md q); simpl; [| exact IH].
  destruct (sw q); simpl; [now rewrite IH | exact IH].
Qed.

Lemma selectedFiles_keys (folderPath : string) (w : world) :
  selectedFiles folderPath w = selFrom folderPath (map fst (vault w)).
Proof.
  exact (select_by_key isMarkdown (fun k => JS.startsWith k folderPath) (vault w)).
Qed.

Lemma selFrom_app fp ks ks' : selFrom fp (ks ++ ks') = selFrom fp ks ++ selFrom fp ks'.
Proof. unfold selFrom. now rewrite List.filter_app, map_app. Qed.

Lemma selFrom_In fp ks f : In f (selFrom fp ks) -> In (path f) ks.
Proof.
  unfold selFrom. intros H. apply List.in_map_iff in H.
  destruct H as (k & <- & Hk). apply List.filter_In in Hk. apply Hk.
Qed.

Lemma vlookup_key p v : In p (map fst v) -> is_Some (vlookup p v).
Proof.
  induction v as [|[q d] v IH]; [intros [] |].
  simpl. destruct (String.eqb q p) eqn:E; [eexists; reflexivity |].
  intros [-> | H]; [now rewrite String.eqb_refl in E | now apply IH].
Qed.

(** The markdown entries of a listing are files of the store, below the
    listed directory; they depend on the remote files only. *)
Lemma listing_markdown (d : string) (w : world) (r : RemoteFile) :
  In r (listing d w) -> isRemoteMarkdown r = true ->
  is_Some (remoteFiles w !! filename r) /\ inside d (filename r) = true
  /\ forall w', remoteFiles w' = remoteFiles w -> In r (listing d w').
Proof.
  unfold listing. intros Hin Hmd. apply in_app_or in Hin.
  destruct Hin as [Hin | Hin].
  - apply List.in_map_iff in Hin. destruct Hin as (p & <- & _). discriminate Hmd.
  - split; [| split].
    + apply List.in_map_iff in Hin. destruct Hin as ([p c] & <- & Hpc).
      apply List.filter_In in Hpc. destruct Hpc as [Hpc _].
      apply list_elem_of_In, elem_of_map_to_list in Hpc.
      cbn [filename fileEntry fst]. now rewrite Hpc.
    + apply List.in_map_iff in Hin. destruct Hin as ([p c] & <- & Hpc).
      apply List.filter_In in Hpc. apply Hpc.
    + intros w' Hw'. rewrite Hw'. apply in_or_app. now right.
Qed.

Section WayBack.

Variables L C : string.
Hypothesis root_plain : JS.endsWith (downloadRoot C) "/" = false.

Lemma inside_split (r : string) :
  inside (downloadRoot C) r = true ->
  exists t, r = downloadRoot C +:+ "/" +:+ t.
Proof using root_plain.
  unfold inside, withTrailingSlash. rewrite root_plain. intros H.
  apply startsWith_spec in H. destruct H as [t ->].
  exists t. apply append_assoc.
Qed.

(** The local path of a listed remote path is uploaded to that path. *)
Lemma upload_of_download (r : string) :
  inside (downloadRoot C) r = true ->
  localToRemote (remoteToLocal r C L) L C = r.
Proof using root_plain.
  intros H. destruct (inside_split r H) as [t ->].
  unfold remoteToLocal, localToRemote.
  rewrite replace_prefix, (uploadRoot_downloadRoot _ root_plain), append_assoc.
  f_equal. destruct (JS.truthy L) eqn:E.
  - apply truthy_true in E. now rewrite (relativePath_under _ _ E).
  - destruct L; [reflexivity | discriminate E].
Qed.

Lemma download_injective (r r' : string) :
  inside (downloadRoot C) r = true -> inside (downloadRoot C) r' = true ->
  remoteToLocal r C L = remoteToLocal r' C L -> r = r'.
Proof using root_plain.
  intros H H' Heq.
  rewrite <- (upload_of_download r H), <- (upload_of_download r' H').
  now rewrite Heq.
Qed.

(** After a pass, a second upload leaves the remote files as they are:
    [v0] and [m0] are the vault and the remote files before the first
    pass, [rs] the entries the first download processed. *)
Lemma second_upload_changes_nothing
    (fp : string) (v0 : list (string * string)) (m0 : gmap string string)
    (rs : list RemoteFile) :
  let m1 := uploadedMap L C (selFrom fp (map fst v0)) v0 m0 in
  let v1 := downloadedVault L C m1 rs v0 in
  (forall r, In r rs -> isRemoteMarkdown r = true ->
             is_Some (m1 !! filename r)
             /\ inside (downloadRoot C) (filename r) = true) ->
  uploadedMap L C (selFrom fp (map fst v1)) v1 m1 = m1.
Proof using root_plain.
  intros m1 v1 Hrs.
  assert (Hrs1 : forall r, In r rs -> isRemoteMarkdown r = true ->
                           is_Some (m1 !! filename r))
    by (intros r H1 H2; now apply Hrs).
  assert (Hsel0 : forall f, In f (selFrom fp (map fst v0)) ->
                            is_Some (vlookup (path f) v0))
    by (intros f Hf; now apply vlookup_key, (selFrom_In fp)).
  assert (Hsel1 : forall f, In f (selFrom fp (map fst v1)) ->
                            is_Some (vlookup (path f) v1))
    by (intros f Hf; now apply vlookup_key, (selFrom_In fp)).
  (* what an entry that is written to the local path of [f] holds *)
  assert (Hentry : forall f r q,
             localToRemote (path f) L C = q ->
             lastEntry L C (path f) rs = Some r ->
             m1 !! filename r = m1 !! q).
  { intros f r q Hq Hlast. unfold lastEntry in Hlast.
    apply List.find_some in Hlast. destruct Hlast as [Hin Hp].
    apply andb_true_iff in Hp. destruct Hp as [Hmd Hp].
    apply String.eqb_eq in Hp. apply in_rev in Hin.
    destruct (Hrs r Hin Hmd) as [_ Hins].
    rewrite <- Hq, <- Hp, (upload_of_download _ Hins). reflexivity. }
  apply map_eq. intros q.
  rewrite (uploadedMap_lookup _ _ _ _ _ _ Hsel1).
  destruct (downloadedVault_keys L C m1 rs v0) as (news & Hkeys & Hnews).
  fold v1 in Hkeys. rewrite Hkeys, selFrom_app, lastUpload_app.
  destruct (lastUpload L C q (selFrom fp news)) as [f|] eqn:Enew.
  - (* the last writer is a file the first download created *)
    unfold lastUpload in Enew. apply List.find_some in Enew.
    destruct Enew as [Hin Hq]. apply String.eqb_eq in Hq. apply in_rev in Hin.
    apply selFrom_In in Hin. destruct (Hnews _ Hin) as (r & Hr & Hmd & Hpath).
    unfold v1. rewrite (downloadedVault_lookup _ _ _ _ _ _ Hrs1).
    destruct (lastEntry L C (path f) rs) as [r'|] eqn:Elast.
    + exact (Hentry f r' q Hq Elast).
    + exfalso. unfold lastEntry in Elast. apply in_rev in Hr.
      pose proof (List.find_none _ _ Elast r Hr) as Hx. cbv beta in Hx.
      rewrite Hmd, <- Hpath, String.eqb_refl in Hx. discriminate Hx.
  - destruct (lastUpload L C q (selFrom fp (map fst v0))) as [f|] eqn:Eold;
      [| reflexivity].
    (* the last writer is the one of the first pass *)
    assert (Hm1 : m1 !! q = vlookup (path f) v0).
    { unfold m1. now rewrite (uploadedMap_lookup _ _ _ _ _ _ Hsel0), Eold. }
    assert (Hq : localToRemote (path f) L C = q).
    { unfold lastUpload in Eold. apply List.find_some in Eold.
      now apply String.eqb_eq. }
    unfold v1. rewrite (downloadedVault_lookup _ _ _ _ _ _ Hrs1).
    destruct (lastEntry L C (path f) rs) as [r'|] eqn:Elast.
    + exact (Hentry f r' q Hq Elast).
    + now rewrite Hm1.
Qed.

(** After a pass, every markdown entry the first download processed has
    its content in the vault. *)
Lemma downloaded_entry_in_vault
    (m : gmap string string) (rs : list RemoteFile)
    (v : list (string * string)) (r : RemoteFile) :
  (forall r, In r rs -> isRemoteMarkdown r = true ->
             is_Some (m !! filename r)
             /\ inside (downloadRoot C) (filename r) = true) ->
  In r rs -> isRemoteMarkdown r = true ->
  vlookup (remoteToLocal (filename r) C L) (downloadedVault L C m rs v)
  = m !! filename r.
Proof using root_plain.
  intros Hrs Hin Hmd.
  rewrite downloadedVault_lookup by (intros r0 H1 H2; now apply Hrs).
  destruct (lastEntry L C (remoteToLocal (filename r) C L) rs) as [r'|] eqn:E.
  - unfold lastEntry in E. apply List.find_some in E. destruct E as [Hin' Hp].
    apply andb_true_iff in Hp. destruct Hp as [Hmd' Hp].
    apply String.eqb_eq in Hp. apply in_rev in Hin'.
    f_equal. apply download_injective; [apply (Hrs r' Hin' Hmd') | | exact Hp].
    apply (Hrs r Hin Hmd).
  - exfalso. unfold lastEntry in E. apply in_rev in Hin.
    pose proof (List.find_none _ _ E r Hin) as Hx. cbv beta in Hx.
    rewrite Hmd, String.eqb_refl in Hx. discriminate Hx.
Qed.

End WayBack.

(* ===================================================================== *)
(** ** A download phase that finds everything in place *)
(* ===================================================================== *)

Lemma quietLocal_refl w : quietLocal w w.
Proof. exists []. now rewrite app_nil_r. Qed.

Lemma quietLocal_trans w1 w2 w3 :
  quietLocal w1 w2 -> quietLocal w2 w3 -> quietLocal w1 w3.
Proof.
  intros (t1 & H1 & A1) (t2 & H2 & A2). exists (t1 ++ t2).
  now rewrite H2, H1, app_assoc, localWrites_app, A1, A2.
Qed.

Lemma quietLocal_record w e : notLocalWrite e -> quietLocal w (record e w).
Proof.
  intros He. exists [e]. split; [reflexivity |].
  destruct e as [c o| | |]; simpl in He; [| reflexivity ..].
  unfold localWrites, callsIssued. simpl. now rewrite He.
Qed.

Lemma quietRemote_refl w : quietRemote w w.
Proof. exists []. now rewrite app_nil_r. Qed.

Lemma quietRemote_trans w1 w2 w3 :
  quietRemote w1 w2 -> quietRemote w2 w3 -> quietRemote w1 w3.
Proof.
  intros (t1 & H1 & A1) (t2 & H2 & A2). exists (t1 ++ t2).
  now rewrite H2, H1, app_assoc, remoteWrites_app, A1, A2.
Qed.

Lemma quietRemote_record w e : notRemoteWrite e -> quietRemote w (record e w).
Proof.
  intros He. exists [e]. split; [reflexivity |].
  destruct e as [c o| | |]; simpl in He; [| reflexivity ..].
  unfold remoteWrites, callsIssued. simpl. now rewrite He.
Qed.

(** The download phase issues no remote write. *)
Lemma quietRemote_downloadChanges fp : preserves quietRemote (downloadChanges fp).
Proof.
  apply (preserves_downloadChanges quietRemote notRemoteWrite).
  - exact quietRemote_refl.
  - exact quietRemote_trans.
  - exact quietRemote_record.
  - intros c o. destruct c; simpl; intros; try discriminate; reflexivity.
  - intros; exact I.
  - intros; exact I.
  - intros w p c. exists []. split; [simpl; now rewrite app_nil_r | reflexivity].
  - intros w p. exists []. split; [simpl; now rewrite app_nil_r | reflexivity].
  - intros w p c. exists []. split; [simpl; now rewrite app_nil_r | reflexivity].
Qed.

Lemma downloadLoop_noop (rs : list RemoteFile) (w : world) :
  (forall r, In r rs -> isRemoteMarkdown r = true ->
     exists c,
       vlookup (remoteToLocal (filename r) (collectivePath (settings w))
                              (localFolderPath (settings w)))
               (vault w) = Some c
       /\ remoteFiles w !! filename r = Some c) ->
  sameLocal w (for_of rs downloadEntry w).2
  /\ quietLocal w (for_of rs downloadEntry w).2.
Proof.
  revert w. induction rs as [|r rs IH]; intros w Hrs.
  - split; [apply sameLocal_refl | apply quietLocal_refl].
  - rewrite for_of_cons, run_bind.
    destruct (downloadEntry_identical w r) as [Hl Hq];
      [intros Hmd; apply Hrs; [now left | exact Hmd] |].
    pose proof (samePlugin_downloadEntry r w) as Hp.
    pose proof (sameRemote_downloadEntry r w) as Hr.
    destruct (downloadEntry r w) as [[[]|e] w1]; cbn [snd] in *;
      [| now split].
    destruct Hp as (Hs & _). destruct Hr as (Hm & _).
    destruct (IH w1) as [Hl1 Hq1].
    + intros r0 Hin Hmd. destruct Hl as [Hv _]. rewrite Hs, Hv, Hm.
      apply Hrs; [now right | exact Hmd].
    + split; [exact (sameLocal_trans _ _ _ Hl Hl1)
             | exact (quietLocal_trans _ _ _ Hq Hq1)].
Qed.

Lemma downloadChanges_noop (folderPath : string) (w : world)
    (c0 : WebDAVClient) :
  noFault w ->
  client w = Some c0 ->
  (forall r, In r (listing (downloadRoot (collectivePath (settings w))) w) ->
     isRemoteMarkdown r = true ->
     exists c,
       vlookup (remoteToLocal (filename r) (collectivePath (settings w))
                              (localFolderPath (settings w)))
               (vault w) = Some c
       /\ remoteFiles w !! filename r = Some c) ->
  sameLocal w (downloadChanges folderPath w).2
  /\ quietLocal w (downloadChanges folderPath w).2.
Proof.
  intros Hf Hc Hrs. unfold downloadChanges.
  rewrite run_bind, run_gets. cbv beta iota. rewrite Hc, run_try.
  rewrite run_bind, run_gets. cbv beta iota. rewrite run_bind.
  unfold getRemoteFiles. rewrite run_bind, run_gets. cbv beta iota.
  rewrite Hc, run_try. unfold client_getDirectoryContents.
  rewrite (perform_free _ _ _ Hf). cbv beta iota.
  set (w1 := record _ w).
  destruct (downloadLoop_noop
              (listing (downloadRoot (collectivePath (settings w))) w) w1 Hrs)
    as [Hl Hq].
  assert (Hq1 : quietLocal w w1) by (apply quietLocal_record; reflexivity).
  destruct (for_of _ downloadEntry w1) as [[[]|e] w2]; cbn [snd] in *.
  - split; [exact Hl | exact (quietLocal_trans _ _ _ Hq1 Hq)].
  - unfold console_error. rewrite run_bind, run_modify. cbv beta iota.
    rewrite run_throw. cbn [snd]. split; [exact Hl |].
    apply (quietLocal_trans _ _ _ Hq1), (quietLocal_trans _ _ _ Hq).
    apply quietLocal_record. exact I.
Qed.

(* ===================================================================== *)
(** ** The pass as a whole *)
(* ===================================================================== *)

Lemma setStatus_run s w : setStatus s w = (Ok tt, (setStatus s w).2).
Proof. reflexivity. Qed.

Lemma setStatus_onlyStatus s w : onlyStatus w (setStatus s w).2.
Proof.
  unfold setStatus, modify. cbn [snd].
  destruct (statusBarItem w); repeat split.
Qed.

(** [syncWithNextcloud] with a client: the two phases in turn, then one of
    the two endings. *)
Lemma sync_unfold (w : world) (c0 : WebDAVClient) :
  client w = Some c0 ->
  syncWithNextcloud w
  = (Ok tt,
     match uploadChanges (syncFolder w)
                         (setStatus "Nextcloud: Syncing..." w).2 with
     | (Throw e, wb) => syncFailed e wb
     | (Ok _, wb) =>
         match downloadChanges (syncFolder w) wb with
         | (Throw e, wc) => syncFailed e wc
         | (Ok _, wc) => syncSucceeded wc
         end
     end).
Proof.
  intros Hc. unfold syncWithNextcloud.
  rewrite run_bind, run_gets. cbv beta iota. rewrite Hc, run_try.
  rewrite run_bind, setStatus_run. cbv beta iota.
  rewrite run_bind, run_gets. cbv beta iota.
  destruct (setStatus_onlyStatus "Nextcloud: Syncing..." w) as (Hs & _).
  rewrite Hs. fold (syncFolder w). rewrite run_bind.
  assert (Hfail : forall e w0,
    (console_error "Error syncing with Nextcloud:" e;;
     new_Notice ("Error syncing with Nextcloud: " +:+ message e);;
     setStatus "Nextcloud: Error") w0 = (Ok tt, syncFailed e w0)).
  { intros e w0. unfold console_error, new_Notice.
    rewrite run_bind, run_modify. cbv beta iota.
    rewrite run_bind, run_modify. cbv beta iota.
    now rewrite setStatus_run. }
  destruct (uploadChanges _ _) as [[[]|e] wb]; [| apply Hfail].
  rewrite run_bind.
  destruct (downloadChanges _ wb) as [[[]|e] wc]; [| apply Hfail].
  rewrite run_bind, setStatus_run. cbv beta iota.
  unfold new_Notice. now rewrite run_modify.
Qed.

Lemma syncSucceeded_frame w :
  sameLocal w (syncSucceeded w) /\ sameRemote w (syncSucceeded w)
  /\ quiet w (syncSucceeded w)
  /\ last (log (syncSucceeded w)) = Some completed.
Proof.
  unfold syncSucceeded.
  destruct (setStatus_onlyStatus "Nextcloud: Connected" w)
    as (_ & _ & _ & Hv & Hfo & Hm & Hd & Hl).
  repeat split; cbn [vault folders remoteFiles remoteDirs record set_log];
    try assumption.
  - exists [completed]. rewrite log_record, Hl. now repeat split.
  - rewrite log_record. apply last_snoc.
Qed.

Lemma syncFailed_frame e w :
  sameLocal w (syncFailed e w) /\ sameRemote w (syncFailed e w)
  /\ quiet w (syncFailed e w)
  /\ last (log (syncFailed e w))
     = Some (Notice ("Error syncing with Nextcloud: " +:+ message e)).
Proof.
  unfold syncFailed.
  set (w1 := record _ (record _ w)).
  destruct (setStatus_onlyStatus "Nextcloud: Error" w1)
    as (_ & _ & _ & Hv & Hfo & Hm & Hd & Hl).
  unfold sameLocal, sameRemote, quiet. rewrite Hv, Hfo, Hm, Hd, Hl.
  repeat split.
  - eexists. split; [unfold w1; rewrite !log_record, <- app_assoc; reflexivity |].
    now split.
  - unfold w1. rewrite log_record. apply last_snoc.
Qed.

(** What a first pass that reports completion leaves, in an environment
    without failures. *)
Lemma first_pass_shape (w : world) :
  noFault w ->
  last (log (syncWithNextcloud w).2) = Some completed ->
  let L := localFolderPath (settings w) in
  let C := collectivePath (settings w) in
  exists c0 wb,
    client w = Some c0
    /\ remoteFiles wb
       = uploadedMap L C (selFrom (syncFolder w) (map fst (vault w)))
                     (vault w) (remoteFiles w)
    /\ vault (syncWithNextcloud w).2
       = downloadedVault L C (remoteFiles wb) (listing (downloadRoot C) wb)
                         (vault w)
    /\ remoteFiles (syncWithNextcloud w).2 = remoteFiles wb.
Proof.
  intros Hf Hdone L C.
  destruct (client w) as [c0|] eqn:Hc.
  2: { exfalso. unfold syncWithNextcloud in Hdone.
       rewrite run_bind, run_gets in Hdone. cbv beta iota in Hdone.
       rewrite Hc in Hdone. unfold new_Notice in Hdone.
       rewrite run_modify in Hdone. cbn [snd] in Hdone.
       rewrite log_record, last_snoc in Hdone. discriminate Hdone. }
  rewrite (sync_unfold w c0 Hc) in *. cbn [snd] in *.
  destruct (setStatus_onlyStatus "Nextcloud: Syncing..." w)
    as (Hsa & Hca & Hfa & Hva & _ & Hma & _ & _).
  set (wa := (setStatus "Nextcloud: Syncing..." w).2) in *.
  assert (Hfa' : noFault wa) by (intros l c; rewrite Hfa; apply Hf).
  assert (Hca' : client wa = Some c0) by congruence.
  destruct (uploadChanges_free (syncFolder w) wa c0 Hfa' Hca')
    as (wb & Hup & Hfiles & _).
  pose proof (sameLocal_uploadChanges (syncFolder w) wa) as [Hvb _].
  pose proof (samePlugin_uploadChanges (syncFolder w) wa) as (Hsb & Hcb & Hfb).
  rewrite Hup in *. cbn [snd] in *.
  assert (Hfb' : noFault wb) by (intros l c; rewrite Hfb; apply Hfa').
  assert (Hcb' : client wb = Some c0) by congruence.
  destruct (downloadChanges (syncFolder w) wb) as [[[]|e] wc] eqn:Hdown.
  2: { exfalso. destruct (syncFailed_frame e wc) as (_ & _ & _ & Hlast).
       rewrite Hlast in Hdone. vm_compute in Hdone. discriminate Hdone. }
  pose proof (downloadChanges_ok _ wb wc c0 Hfb' Hcb' Hdown) as Hvc.
  pose proof (sameRemote_downloadChanges (syncFolder w) wb) as [Hmc _].
  rewrite Hdown in Hmc. cbn [snd] in Hmc.
  destruct (syncSucceeded_frame wc) as ((Hv1 & _) & (Hm1 & _) & _).
  exists c0, wb. split; [reflexivity |]. split; [| split].
  - rewrite Hfiles, selectedFiles_keys, Hsa, Hva, Hma. reflexivity.
  - rewrite Hv1, Hvc, Hsb, Hsa, Hvb, Hva. reflexivity.
  - now rewrite Hm1, Hmc.
Qed.

(** C2, as stated, fails: the second of two passes run back to back
    writes the remote file again. *)
Lemma second_run_writes_remote_again :
  let w := mkWorld "notes" "/Collectives" [("notes/a.md", "X")] ∅ ∅ noFaults in
  let w1 := (syncWithNextcloud w).2 in
  let w2 := (syncWithNextcloud (set_log [] w1)).2 in
  last (log w1) = Some completed
  /\ remoteWrites (log w2) = [PutFileContents "/Collectives/a.md" "X"]
  /\ localWrites (log w2) = [].
Proof. vm_compute. repeat split. Qed.

(** The condition on the remote root is needed: with the root [/C/] and the
    remote path [/C//a.md], the first pass creates [notes/a.md], the second
    uploads it to [/C/a.md] and downloads that to the new file
    [notesa.md]. *)
Example second_run_with_slashed_root :
  let w1 := (syncWithNextcloud slashedRoot).2 in
  let w2 := (syncWithNextcloud (set_log [] w1)).2 in
  last (log w1) = Some completed
  /\ localWrites (log w2) = [VaultCreate "notesa.md" "X"].
Proof. vm_compute. split; reflexivity. Qed.

(* ===================================================================== *)
(** ** Paths: components, parent directory, roots *)
(* ===================================================================== *)

Lemma append_empty (a : string) : a +:+ "" = a.
Proof.
  induction a as [|x a IH]; [reflexivity |].
  rewrite append_cons. f_equal. exact IH.
Qed.

Lemma length_of_append (a b : string) :
  String.length (a +:+ b) = String.length a + String.length b.
Proof.
  induction a as [|x a IH]; [reflexivity |].
  rewrite append_cons. simpl. now rewrite IH.
Qed.

Lemma split_nonempty (s : string) : JS.split s "/" <> [].
Proof.
  induction s as [|a s IH]; simpl; [discriminate |].
  destruct (Ascii.eqb a "/"); [discriminate |].
  destruct (JS.split s "/"); discriminate.
Qed.

Lemma split_slash_free (s : string) :
  Forall (fun c => occurs "/" c = false) (JS.split s "/").
Proof.
  induction s as [|a s IH]; simpl.
  - repeat constructor.
  - destruct (Ascii.eqb a "/") eqn:E.
    + constructor; [reflexivity | exact IH].
    + destruct (JS.split s "/") as [|w ws]; [repeat constructor; simpl; now rewrite E |].
      inversion IH as [|? ? Hw Hws]; subst.
      constructor; [simpl; now rewrite E, Hw | exact Hws].
Qed.

Lemma split_prepend (c r : string) :
  occurs "/" c = false ->
  JS.split (c +:+ r) "/"
  = match JS.split r "/" with
    | w :: ws => (c +:+ w) :: ws
    | [] => [c]
    end.
Proof.
  induction c as [|a c IH]; intros Hc.
  - rewrite append_nil. destruct (JS.split r "/") eqn:E; [| reflexivity].
    now destruct (split_nonempty r).
  - simpl in Hc. apply orb_false_iff in Hc. destruct Hc as [Ha Hc].
    rewrite append_cons. simpl. rewrite Ha, (IH Hc).
    destruct (JS.split r "/"); reflexivity.
Qed.

Lemma split_joinPath (cs : list string) :
  Forall (fun c => isComponent c = true) cs ->
  JS.split (joinPath cs) "/" = "" :: cs.
Proof.
  induction cs as [|c cs IH]; intros H; [reflexivity |].
  inversion H as [|? ? Hc Hcs]; subst.
  apply andb_true_iff in Hc. destruct Hc as [_ Hc]. apply negb_true_iff in Hc.
  cbn [joinPath]. rewrite append_cons, append_nil. simpl.
  rewrite (split_prepend _ _ Hc), (IH Hcs). now rewrite append_empty.
Qed.

Lemma prefixPaths_last (cs : list string) (c cur : string) :
  last (prefixPaths (cs ++ [c]) cur) = Some (cur +:+ joinPath (cs ++ [c])).
Proof.
  revert cur. induction cs as [|d cs IH]; intros cur.
  - simpl. now rewrite append_empty.
  - cbn [app prefixPaths joinPath]. rewrite last_cons, IH.
    now rewrite !append_assoc.
Qed.

(** X1. The components the ensurer walks are in normal form: none is empty
    and none holds a slash, whatever the directory string (doubled,
    leading and trailing slashes vanish).  Joining components in normal
    form and splitting again gives them back, so a directory and its
    normal form are walked alike; and the last path the ensurer visits is
    the normal form of the directory. *)
Theorem pathComponents_normal_form (directory : string) :
  Forall (fun c => isComponent c = true) (pathComponents directory)
  /\ (forall cs, Forall (fun c => isComponent c = true) cs ->
                 pathComponents (joinPath cs) = cs)
  /\ pathComponents (joinPath (pathComponents directory))
     = pathComponents directory
  /\ (pathComponents directory <> [] ->
      last (prefixPaths (pathComponents directory) "")
      = Some (joinPath (pathComponents directory))).
Proof.
  assert (H1 : Forall (fun c => isComponent c = true) (pathComponents directory)).
  { unfold pathComponents. apply Forall_forall. intros c Hc.
    apply list_elem_of_In, List.filter_In in Hc. destruct Hc as [Hin Ht].
    unfold isComponent. rewrite Ht. cbn [andb]. apply negb_true_iff.
    pose proof (split_slash_free directory) as Hs.
    rewrite Forall_forall in Hs. apply Hs. now apply list_elem_of_In. }
  assert (H2 : forall cs, Forall (fun c => isComponent c = true) cs ->
                          pathComponents (joinPath cs) = cs).
  { intros cs Hcs. unfold pathComponents. rewrite (split_joinPath _ Hcs).
    cbn [List.filter JS.truthy].
    induction Hcs as [|c cs Hc _ IH]; [reflexivity |].
    cbn [List.filter]. apply andb_true_iff in Hc. destruct Hc as [-> _].
    now rewrite IH. }
  split; [exact H1 |]. split; [exact H2 |]. split; [now apply H2 |].
  intros Hne. destruct (pathComponents directory) as [|c cs] using rev_ind;
    [now destruct Hne |].
  now rewrite prefixPaths_last, append_nil.
Qed.

Lemma pathComponents_normal_form_witness :
  last (prefixPaths (pathComponents "//Collectives//notes/") "")
  = Some (joinPath (pathComponents "//Collectives//notes/")).
Proof.
  apply (pathComponents_normal_form "//Collectives//notes/"). discriminate.
Defined.

Lemma lastIndexOf_from_spec (c : ascii) (s : string) (i acc : Z) :
  JS.lastIndexOf_from s c i acc
  = if occurs c s then (i + Z.of_nat (lastPos c s))%Z else acc.
Proof.
  revert i acc. induction s as [|a s IH]; intros i acc; [reflexivity |].
  cbn [JS.lastIndexOf_from occurs lastPos]. rewrite IH.
  destruct (occurs c s); [rewrite orb_true_r; lia |].
  rewrite orb_false_r. destruct (Ascii.eqb a c); [simpl; lia | reflexivity].
Qed.

Lemma take_lastPos (c : ascii) (s : string) :
  occurs c s = true ->
  exists rest, occurs c rest = false
               /\ s = JS.take s (lastPos c s) +:+ String c rest.
Proof.
  induction s as [|a s IH]; [discriminate |].
  cbn [occurs lastPos]. destruct (occurs c s) eqn:E.
  - intros _. destruct (IH eq_refl) as (rest & Hr & Hs).
    exists rest. split; [exact Hr |]. cbn [JS.take]. rewrite append_cons.
    now rewrite <- Hs.
  - rewrite orb_false_r. intros Ha. apply Ascii.eqb_eq in Ha. subst a.
    exists s. now split.
Qed.

Lemma lastPos_le (c : ascii) (s : string) : lastPos c s <= String.length s.
Proof.
  induction s as [|a s IH]; simpl; [lia |]. destruct (occurs c s); lia.
Qed.

(** X2. The parent directory both phases compute,
    [p.substring(0, p.lastIndexOf('/'))], cuts a path at its last slash:
    a path with a slash is its parent, a slash, and a rest without slash;
    a path without slash has the empty parent (for which the download
    phase creates no folder and the ensurer visits nothing). *)
Theorem parent_directory_cuts_at_last_slash (p : string) :
  (occurs "/" p = true ->
   exists rest, occurs "/" rest = false
                /\ p = JS.substring p 0 (JS.lastIndexOf p "/") +:+ "/" +:+ rest)
  /\ (occurs "/" p = false ->
      JS.substring p 0 (JS.lastIndexOf p "/") = ""
      /\ pathComponents (JS.substring p 0 (JS.lastIndexOf p "/")) = []).
Proof.
  unfold JS.lastIndexOf. rewrite lastIndexOf_from_spec. split; intros H; rewrite H.
  - destruct (take_lastPos "/" p H) as (rest & Hr & Hp).
    exists rest. split; [exact Hr |].
    unfold JS.substring, JS.clamp. pose proof (lastPos_le "/" p).
    replace (Z.to_nat (0 + Z.of_nat (lastPos "/" p))) with (lastPos "/" p) by lia.
    change (Z.to_nat 0) with 0.
    rewrite Nat.min_0_l, (Nat.min_l _ _ H0), Nat.min_0_l, Nat.max_0_l, Nat.sub_0_r.
    exact Hp.
  - split; reflexivity.
Qed.

Lemma parent_directory_cuts_at_last_slash_witness :
  exists rest, occurs "/" rest = false
    /\ "/Collectives/notes/a.md"
       = JS.substring "/Collectives/notes/a.md" 0
           (JS.lastIndexOf "/Collectives/notes/a.md" "/") +:+ "/" +:+ rest.
Proof.
  apply (parent_directory_cuts_at_last_slash "/Collectives/notes/a.md").
  reflexivity.
Defined.

Lemma endsWith_slash (s : string) : JS.endsWith (s +:+ "/") "/" = true.
Proof.
  unfold JS.endsWith. rewrite length_of_append. cbn [String.length].
  replace (1 <=? String.length s + 1)%nat with true
    by (symmetry; apply Nat.leb_le; lia).
  replace (String.length s + 1 - 1) with (String.length s) by lia.
  now rewrite slice_append.
Qed.

Lemma downloadRoot_slash (C : string) : JS.startsWith (downloadRoot C) "/" = true.
Proof.
  unfold downloadRoot. destruct (JS.startsWith C "/") eqn:E; [exact E | reflexivity].
Qed.

Lemma uploadRoot_is_listed_root (C : string) :
  uploadRoot C = withTrailingSlash (downloadRoot C).
Proof.
  unfold uploadRoot, withTrailingSlash. fold (downloadRoot C).
  now destruct (JS.endsWith (downloadRoot C) "/").
Qed.

Lemma uploadRoot_fixed (r : string) :
  JS.startsWith r "/" = true -> JS.endsWith r "/" = true -> uploadRoot r = r.
Proof.
  intros H1 H2. unfold uploadRoot. cbv zeta. rewrite H1. cbn [negb].
  now rewrite H2.
Qed.

Lemma downloadRoot_fixed (r : string) :
  JS.startsWith r "/" = true -> downloadRoot r = r.
Proof. intros H1. unfold downloadRoot. cbv zeta. now rewrite H1. Qed.

(** X3. The two phases agree on the remote root.  The root the uploader
    builds always starts and ends with a slash, building it twice changes
    nothing, and every remote path an upload writes to lies inside the
    directory whose listing the download phase asks for, whatever the
    configured collective path and local folder. *)
Theorem upload_targets_are_listed (C L p : string) :
  JS.startsWith (uploadRoot C) "/" = true
  /\ JS.endsWith (uploadRoot C) "/" = true
  /\ uploadRoot (uploadRoot C) = uploadRoot C
  /\ downloadRoot (downloadRoot C) = downloadRoot C
  /\ inside (downloadRoot C) (localToRemote p L C) = true.
Proof.
  assert (Hs : JS.startsWith (uploadRoot C) "/" = true).
  { rewrite uploadRoot_is_listed_root. unfold withTrailingSlash.
    pose proof (downloadRoot_slash C) as H.
    destruct (JS.endsWith (downloadRoot C) "/"); [exact H |].
    apply startsWith_spec in H. destruct H as [t ->].
    apply startsWith_spec. exists (t +:+ "/"). apply append_assoc. }
  assert (He : JS.endsWith (uploadRoot C) "/" = true).
  { rewrite uploadRoot_is_listed_root. unfold withTrailingSlash.
    destruct (JS.endsWith (downloadRoot C) "/") eqn:E; [exact E |].
    apply endsWith_slash. }
  split; [exact Hs |]. split; [exact He |]. split; [| split].
  - exact (uploadRoot_fixed _ Hs He).
  - exact (downloadRoot_fixed _ (downloadRoot_slash C)).
  - unfold inside, localToRemote. rewrite <- uploadRoot_is_listed_root.
    apply startsWith_append.
Qed.

(* ===================================================================== *)
(** ** The directory ensurer: what it leaves, what it repeats *)
(* ===================================================================== *)

Lemma onlyCreates_refl ps w : onlyCreates ps w w.
Proof. repeat split; auto. Qed.

Lemma onlyCreates_trans ps qs w1 w2 w3 :
  onlyCreates ps w1 w2 -> onlyCreates qs w2 w3 -> onlyCreates (ps ++ qs) w1 w3.
Proof.
  intros (F1 & D1 & N1) (F2 & D2 & N2). split; [congruence |].
  split; [set_solver |]. intros p Hp.
  destruct (N2 p Hp) as [H | H]; [| right; apply in_or_app; now right].
  destruct (N1 p H) as [H' | H']; [now left | right; apply in_or_app; now left].
Qed.

Lemma onlyCreates_record ps e w w' :
  onlyCreates ps w w' -> onlyCreates ps w (record e w').
Proof. intros H. exact H. Qed.

Lemma remoteExists_kept ps p w w' :
  onlyCreates ps w w' -> remoteExists p w = true -> remoteExists p w' = true.
Proof.
  intros (F & D & _). unfold remoteExists. rewrite F. intros H.
  apply orb_true_iff in H. apply orb_true_iff.
  destruct H as [H | H]; [left | now right].
  apply bool_decide_eq_true in H. apply bool_decide_eq_true. set_solver.
Qed.

Lemma createDirectory_frame (p : string) (w : world) :
  onlyCreates [p] w (client_createDirectory p w).2
  /\ ((client_createDirectory p w).1 = Ok tt ->
      remoteExists p (client_createDirectory p w).2 = true).
Proof.
  unfold client_createDirectory. rewrite run_perform.
  destruct (faults w (log w) (CreateDirectory p)).
  - split; [apply onlyCreates_record, onlyCreates_refl | discriminate].
  - destruct (remoteExists p w).
    + split; [apply onlyCreates_record, onlyCreates_refl | discriminate].
    + split.
      * split; [reflexivity |]. cbn [snd remoteDirs record set_log set_remoteDirs].
        split; [set_solver |]. intros q Hq.
        apply elem_of_union in Hq. destruct Hq as [Hq | Hq]; [| now left].
        apply elem_of_singleton in Hq. subst q. right. now left.
      * intros _. unfold remoteExists.
        cbn [snd remoteDirs record set_log set_remoteDirs].
        apply orb_true_iff. left. apply bool_decide_eq_true. set_solver.
Qed.

Lemma ensure_level_frame (p : string) (w : world) :
  onlyCreates [p] w
    (try_catch (client_stat p) (fun _ => client_createDirectory p) w).2
  /\ ((try_catch (client_stat p) (fun _ => client_createDirectory p) w).1
      = Ok tt ->
      remoteExists p
        (try_catch (client_stat p) (fun _ => client_createDirectory p) w).2
      = true).
Proof.
  rewrite run_try. unfold client_stat. rewrite run_perform.
  destruct (faults w (log w) (Stat p)).
  - apply (createDirectory_frame p (record _ w)).
  - destruct (remoteExists p w) eqn:E.
    + split; [apply onlyCreates_record, onlyCreates_refl | intros _; exact E].
    + apply (createDirectory_frame p (record _ w)).
Qed.

Lemma ensureLevels_frame (components : list string) (currentPath : string)
    (w : world) :
  onlyCreates (prefixPaths components currentPath) w
              (ensureLevels components currentPath w).2
  /\ ((ensureLevels components currentPath w).1 = Ok tt ->
      allExist (prefixPaths components currentPath)
               (ensureLevels components currentPath w).2).
Proof.
  revert currentPath w. induction components as [|c cs IH]; intros cur w.
  - split; [apply onlyCreates_refl | intros _ p []].
  - cbn [ensureLevels prefixPaths]. rewrite run_bind.
    destruct (ensure_level_frame (cur +:+ "/" +:+ c) w) as [Hf Hex].
    destruct (try_catch _ _ w) as [[[]|e] w1]; cbn [fst snd] in *.
    + destruct (IH (cur +:+ "/" +:+ c) w1) as [Hf1 Hex1]. split.
      * exact (onlyCreates_trans [_] _ _ _ _ Hf Hf1).
      * intros Hok p [<- | Hp].
        -- exact (remoteExists_kept _ _ _ _ Hf1 (Hex eq_refl)).
        -- now apply Hex1.
    + split; [| discriminate].
      exact (onlyCreates_trans [_] _ _ _ _ Hf (onlyCreates_refl _ _)).
Qed.

(** [ensureDirectoryExists] only adds collections among the path prefixes
    of the directory; when it returns, all of them exist. *)
Lemma ensureDirectoryExists_frame (directory : string) (w : world) :
  onlyCreates (prefixPaths (pathComponents directory) "") w
              (ensureDirectoryExists directory w).2.
Proof.
  unfold ensureDirectoryExists. rewrite run_bind, run_gets. cbv beta iota.
  destruct (client w); [| apply onlyCreates_refl].
  rewrite run_try.
  destruct (ensureLevels_frame (pathComponents directory) "" w) as [Hf _].
  destruct (ensureLevels _ _ w) as [[[]|e] w1]; [exact Hf |].
  unfold console_error. rewrite run_bind, run_modify. cbv beta iota.
  rewrite run_throw. exact Hf.
Qed.

Lemma ensureDirectoryExists_present
    (directory : string) (w w' : world) (c : WebDAVClient) :
  client w = Some c ->
  ensureDirectoryExists directory w = (Ok tt, w') ->
  allExist (prefixPaths (pathComponents directory) "") w'.
Proof.
  intros Hc. unfold ensureDirectoryExists.
  rewrite run_bind, run_gets. cbv beta iota. rewrite Hc, run_try.
  destruct (ensureLevels_frame (pathComponents directory) "" w) as [_ Hex].
  destruct (ensureLevels _ _ w) as [[[]|e] w1]; cbn [fst snd] in *.
  - intros [= <-]. now apply Hex.
  - unfold console_error. rewrite run_bind, run_modify. cbv beta iota.
    rewrite run_throw. discriminate.
Qed.

(** X4. What the directory ensurer never does.  Whatever the directory,
    the world and the failures injected, and whether it returns or throws,
    [ensureDirectoryExists] leaves every remote file, the vault, the local
    folders, the settings and the client as they are, removes no
    collection, and the only collections it adds are path prefixes of the
    directory. *)
Theorem ensure_only_creates_prefixes (directory : string) (w : world) :
  onlyCreates (prefixPaths (pathComponents directory) "") w
              (ensureDirectoryExists directory w).2
  /\ sameLocal w (ensureDirectoryExists directory w).2
  /\ samePlugin w (ensureDirectoryExists directory w).2.
Proof.
  split; [apply ensureDirectoryExists_frame |].
  split; [apply sameLocal_ensureDirectoryExists
         | apply samePlugin_ensureDirectoryExists].
Qed.

(** X5. What the directory ensurer achieves.  With a client set up, when
    [ensureDirectoryExists] returns, whatever failures were injected on the
    way, every path prefix of the directory exists on the server, the last
    of them being the directory in normal form. *)
Theorem ensure_leaves_every_prefix_present
    (directory : string) (w w' : world) (c : WebDAVClient) :
  client w = Some c ->
  ensureDirectoryExists directory w = (Ok tt, w') ->
  allExist (prefixPaths (pathComponents directory) "") w'
  /\ (pathComponents directory <> [] ->
      remoteExists (joinPath (pathComponents directory)) w' = true).
Proof.
  intros Hc Hrun.
  pose proof (ensureDirectoryExists_present directory w w' c Hc Hrun) as Hex.
  split; [exact Hex |]. intros Hne. apply Hex.
  destruct (pathComponents directory) as [|x cs] using rev_ind;
    [now destruct Hne |].
  rewrite <- (append_nil (joinPath (cs ++ [x]))).
  pose proof (prefixPaths_last cs x "") as Hlast.
  apply last_Some in Hlast. destruct Hlast as [l' ->].
  apply in_or_app. right. now left.
Qed.

Lemma ensure_leaves_every_prefix_present_witness :
  allExist (prefixPaths (pathComponents "/Collectives/notes") "")
           (ensureDirectoryExists "/Collectives/notes"
              (mkWorld "" "/Collectives" [] ∅ ∅ statFails)).2.
Proof.
  apply (ensure_leaves_every_prefix_present "/Collectives/notes"
           (mkWorld "" "/Collectives" [] ∅ ∅ statFails) _ someClient).
  - reflexivity.
  - vm_compute. reflexivity.
Defined.

Lemma ensureLevels_present (components : list string) (currentPath : string)
    (w : world) :
  noFault w ->
  allExist (prefixPaths components currentPath) w ->
  exists w',
    ensureLevels components currentPath w = (Ok tt, w')
    /\ log w' = log w ++ map (fun p => Called (Stat p) None)
                             (prefixPaths components currentPath)
    /\ sameRemote w w' /\ noFault w'.
Proof.
  revert currentPath w. induction components as [|c cs IH]; intros cur w Hf Hex.
  - exists w. split; [reflexivity |]. cbn. rewrite app_nil_r.
    now repeat split.
  - cbn [ensureLevels prefixPaths map]. rewrite run_bind, run_try.
    unfold client_stat. rewrite (perform_free _ _ _ Hf).
    rewrite (Hex (cur +:+ "/" +:+ c)) by now left.
    destruct (IH (cur +:+ "/" +:+ c) (record (Called (Stat (cur +:+ "/" +:+ c)) None) w))
      as (w' & Hrun & Hlog & Hsame & Hf').
    + now apply noFault_record.
    + intros p Hp. rewrite remoteExists_record. apply Hex. now right.
    + exists w'. split; [exact Hrun |]. split; [| split; [exact Hsame | exact Hf']].
      rewrite Hlog, log_record, <- app_assoc. reflexivity.
Qed.

(** X6. The directory ensurer is idempotent.  In an environment that
    injects no failure and with a client set up, a second
    [ensureDirectoryExists] on the same directory returns, issues one
    [stat] per path prefix and nothing else (no [createDirectory]), and
    leaves the server as the first call left it. *)
Theorem ensure_twice_creates_nothing
    (directory : string) (w : world) (c : WebDAVClient) :
  noFault w ->
  client w = Some c ->
  exists w2,
    ensureDirectoryExists directory (ensureDirectoryExists directory w).2
    = (Ok tt, w2)
    /\ log w2 = log (ensureDirectoryExists directory w).2
                ++ map (fun p => Called (Stat p) None)
                       (prefixPaths (pathComponents directory) "")
    /\ sameRemote (ensureDirectoryExists directory w).2 w2.
Proof.
  intros Hf Hc.
  destruct (ensureDirectoryExists_free directory w Hf) as (w1 & Hrun).
  pose proof (ensureDirectoryExists_present directory w w1 c Hc Hrun) as Hex.
  pose proof (samePlugin_ensureDirectoryExists directory w) as Hp.
  rewrite Hrun in *. cbn [snd] in *.
  assert (Hf1 : noFault w1) by exact (noFault_samePlugin _ _ Hp Hf).
  destruct Hp as (_ & Hc1 & _).
  unfold ensureDirectoryExists. rewrite run_bind, run_gets. cbv beta iota.
  rewrite Hc1, Hc, run_try.
  destruct (ensureLevels_present _ "" w1 Hf1 Hex) as (w2 & -> & Hlog & Hsame & _).
  exists w2. split; [reflexivity | split; assumption].
Qed.

Lemma ensure_twice_creates_nothing_witness :
  exists w2,
    ensureDirectoryExists "/Collectives/notes"
      (ensureDirectoryExists "/Collectives/notes" oneNote).2 = (Ok tt, w2)
    /\ log w2 = log (ensureDirectoryExists "/Collectives/notes" oneNote).2
                ++ map (fun p => Called (Stat p) None)
                       (prefixPaths (pathComponents "/Collectives/notes") "")
    /\ sameRemote (ensureDirectoryExists "/Collectives/notes" oneNote).2 w2.
Proof.
  apply (ensure_twice_creates_nothing "/Collectives/notes" oneNote someClient).
  - intros l c. reflexivity.
  - reflexivity.
Defined.

(* ===================================================================== *)
(** ** The uploader *)
(* ===================================================================== *)

Lemma rethrow_run (msg : string) (e : error) (w : world) :
  (console_error msg e ;; @throw unit e) w
  = (Throw e, record (ConsoleError msg e) w).
Proof.
  unfold console_error. rewrite run_bind, run_modify. cbv beta iota.
  now rewrite run_throw.
Qed.

Lemma remoteExists_after_put p q content e w :
  remoteExists p w = true ->
  remoteExists p (record e (set_remoteFiles (<[q:=content]> (remoteFiles w)) w))
  = true.
Proof.
  unfold remoteExists, hasFile. cbn [remoteDirs remoteFiles record set_log set_remoteFiles].
  intros H. apply orb_true_iff in H. apply orb_true_iff.
  destruct H as [H | H]; [now left | right].
  destruct (decide (q = p)) as [-> | Hne].
  - now rewrite lookup_insert_eq.
  - now rewrite lookup_insert_ne.
Qed.

(** The parent directory [uploadFile] ensures for the remote path [r]. *)
Lemma uploadFile_outcome (f : TFile) (w : world) (c0 : WebDAVClient) :
  client w = Some c0 ->
  let r := localToRemote (path f) (localFolderPath (settings w))
                         (collectivePath (settings w)) in
  match uploadFile f w with
  | (Ok _, w') =>
      exists content,
        vlookup (path f) (vault w) = Some content
        /\ remoteFiles w' = <[r := content]> (remoteFiles w)
        /\ allExist (prefixPaths
                       (pathComponents
                          (JS.substring r 0 (JS.lastIndexOf r "/"))) "") w'
        /\ last (log w') = Some (Called (PutFileContents r content) None)
  | (Throw e, w') =>
      remoteFiles w' = remoteFiles w
      /\ last (log w')
         = Some (ConsoleError ("Error uploading file " +:+ path f +:+ ":") e)
  end.
Proof.
  intros Hc r. unfold uploadFile.
  rewrite run_bind, run_gets. cbv beta iota. rewrite Hc, run_try.
  rewrite run_bind. unfold vault_read. rewrite run_perform.
  destruct (faults w (log w) (VaultRead (path f))) as [e|].
  { rewrite rethrow_run. split; [reflexivity | apply last_snoc]. }
  destruct (vlookup (path f) (vault w)) as [content|] eqn:Hv.
  2: { rewrite rethrow_run. split; [reflexivity | apply last_snoc]. }
  cbv beta iota. rewrite run_bind, run_gets. cbv beta iota.
  cbn [settings record set_log]. fold r.
  set (w1 := record (Called (VaultRead (path f)) None) w).
  set (dir := JS.substring r 0 (JS.lastIndexOf r "/")).
  rewrite run_bind.
  destruct (ensureDirectoryExists_frame dir w1) as (Hfiles & _).
  pose proof (ensureDirectoryExists_present dir w1) as Hex.
  destruct (ensureDirectoryExists dir w1) as [[[]|e] w2]; cbn [snd] in Hfiles.
  2: { rewrite rethrow_run. split; [exact Hfiles | apply last_snoc]. }
  specialize (Hex w2 c0 Hc eq_refl).
  unfold client_putFileContents. rewrite run_perform.
  destruct (faults w2 (log w2) (PutFileContents r content)) as [e|].
  { rewrite rethrow_run. split; [exact Hfiles | apply last_snoc]. }
  exists content. split; [reflexivity |]. split; [| split].
  - cbn [remoteFiles record set_log set_remoteFiles]. now rewrite Hfiles.
  - intros p Hp. apply remoteExists_after_put. now apply Hex.
  - rewrite log_record. apply last_snoc.
Qed.

(** X7. What a returned upload guarantees.  With a client set up, when
    [uploadFile] returns, whatever failures were injected on the way: the
    file was in the vault, the remote path it maps to now holds exactly
    its content, every other remote file is as before, the vault is
    untouched, every ancestor directory of the remote path exists on the
    server, and the last call issued, the last event of the log, is the
    [putFileContents] of that path and content, which returned. *)
Theorem returned_upload_stores_content
    (f : TFile) (w w' : world) (c0 : WebDAVClient) :
  client w = Some c0 ->
  uploadFile f w = (Ok tt, w') ->
  let r := localToRemote (path f) (localFolderPath (settings w))
                         (collectivePath (settings w)) in
  (exists content,
      vlookup (path f) (vault w) = Some content
      /\ remoteFiles w' !! r = Some content
      /\ last (log w') = Some (Called (PutFileContents r content) None))
  /\ (forall q, q <> r -> remoteFiles w' !! q = remoteFiles w !! q)
  /\ sameLocal w w'
  /\ allExist (prefixPaths
                 (pathComponents (JS.substring r 0 (JS.lastIndexOf r "/"))) "")
              w'.
Proof.
  intros Hc Hrun r.
  pose proof (uploadFile_outcome f w c0 Hc) as H.
  pose proof (sameLocal_uploadFile f w) as Hl.
  rewrite Hrun in H, Hl. cbv zeta in H. fold r in H.
  destruct H as (content & Hv & Hfiles & Hex & Hlast).
  split; [| split; [| split; [exact Hl | exact Hex]]].
  - exists content. split; [exact Hv |]. split; [| exact Hlast].
    rewrite Hfiles. apply lookup_insert_eq.
  - intros q Hq. rewrite Hfiles. now apply lookup_insert_ne.
Qed.

Lemma returned_upload_stores_content_witness :
  exists content,
    vlookup "notes/a.md" (vault oneNote) = Some content
    /\ remoteFiles (uploadFile {| path := "notes/a.md" |} oneNote).2
         !! "/Collectives/a.md" = Some content
    /\ last (log (uploadFile {| path := "notes/a.md" |} oneNote).2)
       = Some (Called (PutFileContents "/Collectives/a.md" content) None).
Proof.
  apply (returned_upload_stores_content {| path := "notes/a.md" |} oneNote
           (uploadFile {| path := "notes/a.md" |} oneNote).2 someClient).
  - reflexivity.
  - vm_compute. reflexivity.
Defined.

(** X8. A failed upload writes no file.  With a client set up, when
    [uploadFile] throws, for whatever reason, every remote file is as it
    was before (directories may have been created), the vault is
    untouched, and the last thing logged is the console error naming the
    file and carrying the error thrown. *)
Theorem failed_upload_writes_no_file
    (f : TFile) (w w' : world) (c0 : WebDAVClient) (e : error) :
  client w = Some c0 ->
  uploadFile f w = (Throw e, w') ->
  remoteFiles w' = remoteFiles w
  /\ sameLocal w w'
  /\ last (log w')
     = Some (ConsoleError ("Error uploading file " +:+ path f +:+ ":") e).
Proof.
  intros Hc Hrun.
  pose proof (uploadFile_outcome f w c0 Hc) as H.
  pose proof (sameLocal_uploadFile f w) as Hl.
  rewrite Hrun in H, Hl. destruct H as [H1 H2].
  split; [exact H1 | split; [exact Hl | exact H2]].
Qed.

Lemma failed_upload_writes_no_file_witness :
  remoteFiles (uploadFile {| path := "notes/b.md" |} threeNotes).2
  = remoteFiles threeNotes.
Proof.
  apply (failed_upload_writes_no_file {| path := "notes/b.md" |} threeNotes
           (uploadFile {| path := "notes/b.md" |} threeNotes).2 someClient
           noSuchFile).
  - reflexivity.
  - vm_compute. reflexivity.
Defined.

(* ===================================================================== *)
(** ** The upload phase and the save hook *)
(* ===================================================================== *)

Lemma uploadFile_outside (f : TFile) (w : world) (q : string) :
  q <> localToRemote (path f) (localFolderPath (settings w))
                     (collectivePath (settings w)) ->
  remoteFiles (uploadFile f w).2 !! q = remoteFiles w !! q.
Proof.
  intros Hq. destruct (client w) as [c0|] eqn:Hc.
  - pose proof (uploadFile_outcome f w c0 Hc) as H. cbv zeta in H.
    destruct (uploadFile f w) as [[[]|e] w']; cbn [snd].
    + destruct H as (content & _ & -> & _). now apply lookup_insert_ne.
    + destruct H as [-> _]. reflexivity.
  - unfold uploadFile. rewrite run_bind, run_gets. cbv beta iota.
    now rewrite Hc.
Qed.

Lemma uploadLoop_outside (fs : list TFile) (w : world) (q : string) :
  (forall f, In f fs ->
     q <> localToRemote (path f) (localFolderPath (settings w))
                        (collectivePath (settings w))) ->
  remoteFiles (for_of fs uploadFile w).2 !! q = remoteFiles w !! q.
Proof.
  revert w. induction fs as [|f fs IH]; intros w Hq; [reflexivity |].
  rewrite for_of_cons, run_bind.
  pose proof (uploadFile_outside f w q (Hq f (or_introl eq_refl))) as H1.
  pose proof (samePlugin_uploadFile f w) as (Hs & _).
  destruct (uploadFile f w) as [[[]|e] w1]; cbn [snd] in *; [| exact H1].
  rewrite IH; [exact H1 |]. intros g Hg. rewrite Hs. apply Hq. now right.
Qed.

(** X9. The upload phase touches only its targets.  Whatever the failures
    injected and whether the phase returns or throws, a remote file whose
    path no selected local file maps to is left exactly as it was; the
    vault, the local folders, the settings and the client are untouched. *)
Theorem upload_touches_only_its_targets (folderPath : string) (w : world) :
  remoteAgreeOutside (uploadTargets folderPath w) w
                     (uploadChanges folderPath w).2
  /\ sameLocal w (uploadChanges folderPath w).2
  /\ samePlugin w (uploadChanges folderPath w).2.
Proof.
  split; [| split; [apply sameLocal_uploadChanges | apply samePlugin_uploadChanges]].
  intros q Hq. unfold uploadChanges. rewrite run_bind, run_gets. cbv beta iota.
  destruct (client w); [| reflexivity].
  rewrite run_bind, run_gets. cbv beta iota.
  apply uploadLoop_outside. intros f Hf Heq. apply Hq.
  unfold uploadTargets. apply List.in_map_iff. exists f. now split.
Qed.

(** X10. Last writer wins in the upload phase.  In an environment that
    injects no failure and with a client set up, after the upload phase
    every remote path holds the content of the last selected file that
    maps to it, in the order the vault enumerates its files, and a remote
    path no selected file maps to holds what it held.  So two local files
    that map to one remote path (as [notes/a.md] and [notesa.md] do under
    the folder [notes]) overwrite each other silently. *)
Theorem upload_last_writer_wins
    (folderPath : string) (w : world) (c0 : WebDAVClient) (q : string) :
  noFault w ->
  client w = Some c0 ->
  (uploadChanges folderPath w).1 = Ok tt
  /\ remoteFiles (uploadChanges folderPath w).2 !! q
     = match lastUpload (localFolderPath (settings w))
                        (collectivePath (settings w)) q
                        (selectedFiles folderPath w) with
       | Some f => vlookup (path f) (vault w)
       | None => remoteFiles w !! q
       end.
Proof.
  intros Hf Hc.
  destruct (uploadChanges_free folderPath w c0 Hf Hc) as (w' & -> & Hfiles & _).
  split; [reflexivity |]. cbn [snd]. rewrite Hfiles.
  apply uploadedMap_lookup. intros f. apply selectedFiles_in_vault.
Qed.

Lemma upload_last_writer_wins_witness :
  remoteFiles
    (uploadChanges "notes"
       (mkWorld "notes" "/Collectives"
                [("notes/a.md", "A"); ("notesa.md", "B")] ∅ ∅ noFaults)).2
    !! "/Collectives/a.md"
  = Some "B".
Proof.
  refine (eq_trans
            (proj2 (upload_last_writer_wins "notes"
                      (mkWorld "notes" "/Collectives"
                               [("notes/a.md", "A"); ("notesa.md", "B")]
                               ∅ ∅ noFaults)
                      someClient "/Collectives/a.md" _ eq_refl)) _).
  - intros l c. reflexivity.
  - reflexivity.
Defined.

Lemma quietLocal_uploadChanges fp : preserves quietLocal (uploadChanges fp).
Proof.
  apply (preserves_uploadChanges quietLocal notLocalWrite).
  - exact quietLocal_refl.
  - exact quietLocal_trans.
  - exact quietLocal_record.
  - intros c o. destruct c; simpl; intros; try discriminate; reflexivity.
  - intros c o. destruct c; simpl; intros; try discriminate; reflexivity.
  - intros; exact I.
  - intros w p. exists []. split; [simpl; now rewrite app_nil_r | reflexivity].
  - intros w p c. exists []. split; [simpl; now rewrite app_nil_r | reflexivity].
Qed.

(** X11. Each phase writes in one direction only.  Whatever the world and
    the failures injected, the upload phase issues no local write and
    leaves the vault and the local folders as they are, and the download
    phase issues no remote write and leaves the remote files and
    collections as they are. *)
Theorem phases_write_one_way (folderPath : string) (w : world) :
  (sameLocal w (uploadChanges folderPath w).2
   /\ quietLocal w (uploadChanges folderPath w).2)
  /\ (sameRemote w (downloadChanges folderPath w).2
      /\ quietRemote w (downloadChanges folderPath w).2).
Proof.
  split; split.
  - apply sameLocal_uploadChanges.
  - apply quietLocal_uploadChanges.
  - apply sameRemote_downloadChanges.
  - apply quietRemote_downloadChanges.
Qed.

(** X12. Without a client nothing is attempted.  When no client is set up,
    the uploader, the save hook, the upload phase, the download phase, the
    directory ensurer and the remote listing return at once and leave the
    world, log included, exactly as it was; the pass itself only shows the
    notice that the plugin is not connected. *)
Theorem without_client_nothing_is_attempted (w : world) :
  client w = None ->
  (forall f, uploadFile f w = (Ok tt, w))
  /\ (forall f, onModify f w = (Ok tt, w))
  /\ (forall fp, uploadChanges fp w = (Ok tt, w))
  /\ (forall fp, downloadChanges fp w = (Ok tt, w))
  /\ (forall d, ensureDirectoryExists d w = (Ok tt, w))
  /\ (forall d, getRemoteFiles d w = (Ok [], w))
  /\ syncWithNextcloud w
     = (Ok tt,
        record (Notice "Not connected to Nextcloud. Please check your settings.")
               w).
Proof.
  intros Hc.
  assert (Hup : forall f, uploadFile f w = (Ok tt, w)).
  { intros f. unfold uploadFile. rewrite run_bind, run_gets. cbv beta iota.
    now rewrite Hc. }
  split; [exact Hup |]. split.
  { intros f. unfold onModify. destruct (isMarkdown (path f)); [apply Hup | reflexivity]. }
  split; [| split; [| split; [| split]]].
  - intros fp. unfold uploadChanges. rewrite run_bind, run_gets.
    cbv beta iota. now rewrite Hc.
  - intros fp. unfold downloadChanges. rewrite run_bind, run_gets.
    cbv beta iota. now rewrite Hc.
  - intros d. unfold ensureDirectoryExists. rewrite run_bind, run_gets.
    cbv beta iota. now rewrite Hc.
  - intros d. unfold getRemoteFiles. rewrite run_bind, run_gets.
    cbv beta iota. now rewrite Hc.
  - unfold syncWithNextcloud. rewrite run_bind, run_gets.
    cbv beta iota. now rewrite Hc.
Qed.

Lemma without_client_nothing_is_attempted_witness :
  uploadChanges "notes" (set_client None oneNote)
  = (Ok tt, set_client None oneNote).
Proof.
  apply (without_client_nothing_is_attempted (set_client None oneNote)).
  reflexivity.
Defined.

Lemma relativePath_outside (p L : string) :
  JS.startsWith p L = false -> relativePath p L = stripSlash p.
Proof.
  intros H. unfold relativePath, JS.or_else.
  destruct (JS.truthy L) eqn:E.
  - rewrite E, H. reflexivity.
  - destruct L; [discriminate H | discriminate E].
Qed.

(** X13. The save hook ignores the configured folder.  In an environment
    that injects no failure and with a client set up, a markdown file of
    the vault whose path does not begin with the local folder path is not
    selected by the upload phase of a pass, yet when it is modified the
    save hook uploads it: to the remote root followed by its whole path
    (less one leading slash). *)
Theorem save_hook_ignores_folder
    (f : TFile) (w : world) (c0 : WebDAVClient) (content : string) :
  noFault w ->
  client w = Some c0 ->
  isMarkdown (path f) = true ->
  vlookup (path f) (vault w) = Some content ->
  JS.startsWith (path f) (localFolderPath (settings w)) = false ->
  ~ In f (selectedFiles (syncFolder w) w)
  /\ exists w',
       onModify f w = (Ok tt, w')
       /\ remoteFiles w'
            !! (uploadRoot (collectivePath (settings w)) +:+ stripSlash (path f))
          = Some content.
Proof.
  intros Hf Hc Hmd Hv Hout. split.
  - intros Hin. apply selectedFiles_In in Hin. destruct Hin as [_ Hs].
    unfold syncFolder, JS.or_else in Hs.
    destruct (JS.truthy (localFolderPath (settings w))) eqn:E.
    + rewrite Hout in Hs. discriminate Hs.
    + destruct (localFolderPath (settings w)); [discriminate Hout | discriminate E].
  - unfold onModify. rewrite Hmd.
    destruct (uploadFile_free f w c0 content Hf Hc Hv) as (w' & Hrun & Hfiles & _).
    exists w'. split; [exact Hrun |]. rewrite Hfiles.
    unfold localToRemote. rewrite (relativePath_outside _ _ Hout).
    apply lookup_insert_eq.
Qed.

Lemma save_hook_ignores_folder_witness :
  ~ In {| path := "journal/b.md" |}
       (selectedFiles
          (syncFolder (mkWorld "notes" "/Collectives"
                         [("journal/b.md", "B")] ∅ ∅ noFaults))
          (mkWorld "notes" "/Collectives" [("journal/b.md", "B")] ∅ ∅ noFaults)).
Proof.
  apply (save_hook_ignores_folder {| path := "journal/b.md" |}
           (mkWorld "notes" "/Collectives" [("journal/b.md", "B")] ∅ ∅ noFaults)
           someClient "B").
  - intros l c. reflexivity.
  - reflexivity.
  - reflexivity.
  - reflexivity.
  - reflexivity.
Defined.

(* ===================================================================== *)
(** ** The download phase, whatever fails *)
(* ===================================================================== *)

(** One entry of the download loop, whatever fails: a returned body has
    written the fetched content to the local path of a markdown entry,
    and a thrown body has written nothing. *)
Lemma downloadEntry_outcome (r : RemoteFile) (w : world) :
  let lp := remoteToLocal (filename r) (collectivePath (settings w))
                          (localFolderPath (settings w)) in
  match downloadEntry r w with
  | (Ok _, w') =>
      if isRemoteMarkdown r
      then exists content,
             remoteFiles w !! filename r = Some content
             /\ vault w' = vwrite lp content (vault w)
      else vault w' = vault w
  | (Throw _, w') => vault w' = vault w
  end.
Proof.
  intros lp. unfold downloadEntry.
  destruct (isRemoteMarkdown r); [| reflexivity].
  rewrite run_bind, run_gets. cbv beta iota. fold lp.
  rewrite run_bind. unfold client_getFileContents. rewrite run_perform.
  destruct (faults w (log w) _); [reflexivity |].
  destruct (remoteFiles w !! filename r) as [content|]; [| reflexivity].
  set (w1 := record _ w).
  rewrite run_bind. unfold adapter_exists. rewrite run_perform.
  destruct (faults w1 (log w1) _); [reflexivity |].
  set (w2 := record _ w1).
  unfold w1 at 1. rewrite localExists_record.
  destruct (localExists lp w) eqn:Hex.
  - rewrite run_bind. unfold adapter_read. rewrite run_perform.
    destruct (faults w2 (log w2) _); [reflexivity |].
    change (vault w2) with (vault w).
    destruct (vlookup lp (vault w)) as [localContent|] eqn:Hv; [| reflexivity].
    destruct (String.eqb content localContent) eqn:E; cbn [negb].
    + apply String.eqb_eq in E. subst localContent.
      rewrite run_ret. exists content. split; [reflexivity |].
      cbn [vault record set_log]. now rewrite (vwrite_same _ _ _ Hv).
    + unfold adapter_write. rewrite run_perform.
      destruct (faults _ _ _); [reflexivity |].
      exists content. split; reflexivity.
  - assert (Hv : vlookup lp (vault w) = None).
    { unfold localExists in Hex. now destruct (vlookup lp (vault w)). }
    rewrite run_bind.
    assert (Hdir : exists w3,
      (if JS.truthy (JS.substring lp 0 (JS.lastIndexOf lp "/"))
       then try_catch (vault_createFolder
                         (JS.substring lp 0 (JS.lastIndexOf lp "/")))
                      (fun _ => ret tt)
       else ret tt) w2 = (Ok tt, w3) /\ vault w3 = vault w).
    { destruct (JS.truthy _); [| now exists w2].
      rewrite run_try. unfold vault_createFolder. rewrite run_perform.
      destruct (faults w2 (log w2) _); [eexists; split; reflexivity |].
      destruct (localExists _ w2); eexists; split; reflexivity. }
    destruct Hdir as (w3 & -> & Hv3).
    unfold vault_create. rewrite run_perform.
    destruct (faults w3 (log w3) _); [exact Hv3 |].
    destruct (localExists lp w3); [exact Hv3 |].
    exists content. split; [reflexivity |].
    cbn [vault record set_log set_vault].
    now rewrite Hv3, (vwrite_fresh _ _ _ Hv).
Qed.

Lemma vlookup_vwrite_same p c v : vlookup p (vwrite p c v) = Some c.
Proof. rewrite vlookup_vwrite. now rewrite String.eqb_refl. Qed.

(** X14. A returned download of a markdown entry has stored the remote
    content.  Whatever the failures injected, when the body of the
    download loop returns on a markdown entry, the remote file of the
    entry existed, the local path of the entry now holds its content,
    every other local file holds what it held, and the remote side is as
    it was. *)
Theorem returned_download_stores_content
    (r : RemoteFile) (w w' : world) :
  downloadEntry r w = (Ok tt, w') ->
  isRemoteMarkdown r = true ->
  let lp := remoteToLocal (filename r) (collectivePath (settings w))
                          (localFolderPath (settings w)) in
  exists content,
    remoteFiles w !! filename r = Some content
    /\ vlookup lp (vault w') = Some content
    /\ (forall p, p <> lp -> vlookup p (vault w') = vlookup p (vault w))
    /\ sameRemote w w'.
Proof.
  intros Hrun Hmd lp.
  pose proof (downloadEntry_outcome r w) as H. cbv zeta in H.
  pose proof (sameRemote_downloadEntry r w) as Hr.
  rewrite Hrun in H, Hr. rewrite Hmd in H. cbn [snd] in Hr.
  destruct H as (content & Hc & Hv). exists content.
  split; [exact Hc |]. split; [| split; [| exact Hr]].
  - rewrite Hv. apply vlookup_vwrite_same.
  - intros p Hp. rewrite Hv, vlookup_vwrite.
    destruct (String.eqb _ p) eqn:E; [| reflexivity].
    apply String.eqb_eq in E. now subst p.
Qed.

Lemma returned_download_stores_content_witness :
  exists content,
    remoteFiles oneRemoteNote !! "/Collectives/a.md" = Some content
    /\ vlookup "notes/a.md"
         (vault (downloadEntry (fileEntry ("/Collectives/a.md", "A"))
                               oneRemoteNote).2)
       = Some content.
Proof.
  destruct (returned_download_stores_content
              (fileEntry ("/Collectives/a.md", "A")) oneRemoteNote
              (downloadEntry (fileEntry ("/Collectives/a.md", "A"))
                             oneRemoteNote).2
              eq_refl eq_refl)
    as (content & H1 & H2 & _).
  exists content. split; [exact H1 | exact H2].
Defined.

(** X15. A failed download of an entry writes no file.  Whatever the
    failures injected, when the body of the download loop throws, the
    files of the vault and the remote side are as they were. *)
Theorem failed_download_writes_no_file
    (r : RemoteFile) (w w' : world) (e : error) :
  downloadEntry r w = (Throw e, w') ->
  vault w' = vault w /\ sameRemote w w' /\ samePlugin w w'.
Proof.
  intros Hrun.
  pose proof (downloadEntry_outcome r w) as H. cbv zeta in H.
  pose proof (sameRemote_downloadEntry r w) as Hr.
  pose proof (samePlugin_downloadEntry r w) as Hp.
  rewrite Hrun in H, Hr, Hp. cbn [snd] in Hr, Hp.
  split; [exact H |]. split; [exact Hr | exact Hp].
Qed.

Lemma failed_download_writes_no_file_witness :
  vault (downloadEntry (fileEntry ("/Collectives/a.md", "A"))
                       threeRemoteNotes).2
  = vault threeRemoteNotes.
Proof.
  apply (failed_download_writes_no_file
           (fileEntry ("/Collectives/a.md", "A")) threeRemoteNotes _
           serverError).
  reflexivity.
Defined.

Lemma downloadLoop_outside (rs : list RemoteFile) (w : world) (p : string) :
  (forall r, In r rs -> isRemoteMarkdown r = true ->
     remoteToLocal (filename r) (collectivePath (settings w))
                   (localFolderPath (settings w)) <> p) ->
  vlookup p (vault (for_of rs downloadEntry w).2) = vlookup p (vault w).
Proof.
  revert w. induction rs as [|r rs IH]; intros w Hp; [reflexivity |].
  rewrite for_of_cons, run_bind.
  pose proof (downloadEntry_outcome r w) as H. cbv zeta in H.
  pose proof (samePlugin_downloadEntry r w) as (Hs & _).
  destruct (downloadEntry r w) as [[[]|e] w1]; cbn [snd] in *;
    [| now rewrite H].
  rewrite IH.
  - destruct (isRemoteMarkdown r) eqn:Hmd; [| now rewrite H].
    destruct H as (content & _ & ->). rewrite vlookup_vwrite.
    destruct (String.eqb _ p) eqn:E; [| reflexivity].
    apply String.eqb_eq in E. exfalso.
    exact (Hp r (or_introl eq_refl) Hmd E).
  - intros r0 Hin Hmd0. rewrite Hs. apply Hp; [now right | exact Hmd0].
Qed.

(** What the listing step of the download phase hands to its loop: the
    listing of the root, or nothing when the listing fails. *)
Lemma getRemoteFiles_cases (d : string) (w : world) :
  exists rs w1,
    getRemoteFiles d w = (Ok rs, w1)
    /\ (rs = listing d w \/ rs = [])
    /\ vault w1 = vault w /\ settings w1 = settings w.
Proof.
  unfold getRemoteFiles. rewrite run_bind, run_gets. cbv beta iota.
  destruct (client w); [| exists [], w; auto].
  rewrite run_try. unfold client_getDirectoryContents. rewrite run_perform.
  destruct (faults w (log w) _).
  - unfold console_log. rewrite run_bind, run_modify. cbv beta iota.
    rewrite run_ret. eexists _, _. split; [reflexivity |]. auto.
  - eexists _, _. split; [reflexivity |]. auto.
Qed.

(** X16. The download phase touches only its targets.  Whatever the
    failures injected and whether the phase returns or throws, a local
    file whose path is not the local path of a listed markdown file of the
    remote root is left exactly as it was; the remote side, the settings
    and the client are untouched. *)
Theorem download_touches_only_its_targets (folderPath : string) (w : world) :
  localAgreeOutside (downloadTargets w) w (downloadChanges folderPath w).2
  /\ sameRemote w (downloadChanges folderPath w).2
  /\ samePlugin w (downloadChanges folderPath w).2.
Proof.
  split; [| split; [apply sameRemote_downloadChanges
                   | apply samePlugin_downloadChanges]].
  intros p Hp. unfold downloadChanges. rewrite run_bind, run_gets.
  cbv beta iota. destruct (client w); [| reflexivity].
  rewrite run_try, run_bind, run_gets. cbv beta iota. rewrite run_bind.
  destruct (getRemoteFiles_cases (downloadRoot (collectivePath (settings w))) w)
    as (rs & w1 & -> & Hrs & Hv1 & Hs1).
  assert (Hloop : vlookup p (vault (for_of rs downloadEntry w1).2)
                  = vlookup p (vault w)).
  { rewrite <- Hv1. apply downloadLoop_outside. intros r Hin Hmd Heq.
    apply Hp. unfold downloadTargets. apply List.in_map_iff. exists r.
    rewrite Hs1 in Heq. split; [exact Heq |]. apply List.filter_In.
    split; [| exact Hmd]. destruct Hrs as [-> | ->]; [exact Hin | destruct Hin]. }
  destruct (for_of rs downloadEntry w1) as [[[]|e] w2]; cbn [snd] in *;
    [exact Hloop |].
  unfold console_error. rewrite run_bind, run_modify. cbv beta iota.
  rewrite run_throw. exact Hloop.
Qed.

(** X17. A returned download phase has brought every listed note.  In an
    environment that injects no failure, with a client set up and a
    remote root that does not end in a slash, when the download phase
    returns, the local path of every markdown file listed below the
    remote root holds the content of that remote file. *)
Theorem returned_download_brings_every_note
    (folderPath : string) (w w' : world) (c0 : WebDAVClient)
    (r : RemoteFile) :
  noFault w ->
  client w = Some c0 ->
  JS.endsWith (downloadRoot (collectivePath (settings w))) "/" = false ->
  downloadChanges folderPath w = (Ok tt, w') ->
  In r (listing (downloadRoot (collectivePath (settings w))) w) ->
  isRemoteMarkdown r = true ->
  vlookup (remoteToLocal (filename r) (collectivePath (settings w))
                         (localFolderPath (settings w)))
          (vault w')
  = remoteFiles w !! filename r.
Proof.
  intros Hf Hc Hroot Hrun Hin Hmd.
  rewrite (downloadChanges_ok folderPath w w' c0 Hf Hc Hrun).
  apply (downloaded_entry_in_vault _ _ Hroot); [| exact Hin | exact Hmd].
  intros r0 Hin0 Hmd0.
  destruct (listing_markdown _ w r0 Hin0 Hmd0) as (H1 & H2 & _).
  split; [exact H1 | exact H2].
Qed.

Lemma returned_download_brings_every_note_witness :
  vlookup "notes/a.md" (vault (downloadChanges "" oneRemoteNote).2)
  = remoteFiles oneRemoteNote !! "/Collectives/a.md".
Proof.
  refine (returned_download_brings_every_note "" oneRemoteNote
            (downloadChanges "" oneRemoteNote).2 someClient
            (fileEntry ("/Collectives/a.md", "A"))
            _ eq_refl eq_refl _ _ eq_refl).
  - intros l c. reflexivity.
  - vm_compute. reflexivity.
  - vm_compute. tauto.
Defined.

(* ===================================================================== *)
(** ** The pass never throws *)
(* ===================================================================== *)

Lemma sameBar_uploadChanges fp : preserves sameBar (uploadChanges fp).
Proof.
  apply (preserves_uploadChanges sameBar anyEvent);
    first [ solve [intros; exact I] | solve [intros; reflexivity]
          | (intros w1 w2 w3 H1 H2; unfold sameBar in *; congruence) ].
Qed.

Lemma sameBar_downloadChanges fp : preserves sameBar (downloadChanges fp).
Proof.
  apply (preserves_downloadChanges sameBar anyEvent);
    first [ solve [intros; exact I] | solve [intros; reflexivity]
          | (intros w1 w2 w3 H1 H2; unfold sameBar in *; congruence) ].
Qed.

Lemma setStatus_shown s w : statusBarItem (setStatus s w).2 = shown s w.
Proof.
  unfold setStatus, modify, shown. cbn [snd].
  destruct (statusBarItem w) eqn:E; [reflexivity | exact E].
Qed.

Lemma shown_shown s t w w' :
  statusBarItem w' = shown t w -> shown s w' = shown s w.
Proof. unfold shown. intros ->. now destruct (statusBarItem w). Qed.

(** X18. A pass never throws and always ends in a verdict.  Whatever the
    world and the failures injected, [syncWithNextcloud] returns.  Without
    a client its last event is the notice that the plugin is not connected
    and the status bar is as it was; with a client its last event is
    either the notice of completion, with the status bar (when there is
    one) showing [Nextcloud: Connected], or the notice of an error with
    the message of that error, with the status bar showing
    [Nextcloud: Error].  The settings and the client are as they were. *)
Theorem pass_returns_with_a_verdict (w : world) :
  (syncWithNextcloud w).1 = Ok tt
  /\ samePlugin w (syncWithNextcloud w).2
  /\ ((client w = None
       /\ last (log (syncWithNextcloud w).2)
          = Some (Notice "Not connected to Nextcloud. Please check your settings.")
       /\ statusBarItem (syncWithNextcloud w).2 = statusBarItem w)
      \/ (client w <> None
          /\ last (log (syncWithNextcloud w).2) = Some completed
          /\ statusBarItem (syncWithNextcloud w).2
             = shown "Nextcloud: Connected" w)
      \/ (client w <> None
          /\ (exists e,
                last (log (syncWithNextcloud w).2)
                = Some (Notice ("Error syncing with Nextcloud: " +:+ message e)))
          /\ statusBarItem (syncWithNextcloud w).2
             = shown "Nextcloud: Error" w)).
Proof.
  split; [| split; [apply samePlugin_syncWithNextcloud |]].
  { unfold syncWithNextcloud. rewrite run_bind, run_gets. cbv beta iota.
    destruct (client w) as [c0|] eqn:Hc; [| reflexivity].
    pose proof (sync_unfold w c0 Hc) as H. unfold syncWithNextcloud in H.
    rewrite run_bind, run_gets in H. cbv beta iota in H. rewrite Hc in H.
    now rewrite H. }
  destruct (client w) as [c0|] eqn:Hc.
  - right. rewrite (sync_unfold w c0 Hc). cbn [snd].
    pose proof (setStatus_shown "Nextcloud: Syncing..." w) as Ha.
    set (wa := (setStatus "Nextcloud: Syncing..." w).2) in *.
    pose proof (sameBar_uploadChanges (syncFolder w) wa) as Hb.
    destruct (uploadChanges (syncFolder w) wa) as [[[]|e] wb]; cbn [snd] in Hb.
    + pose proof (sameBar_downloadChanges (syncFolder w) wb) as Hd.
      destruct (downloadChanges (syncFolder w) wb) as [[[]|e] wc];
        cbn [snd] in Hd.
      * left. split; [discriminate |].
        destruct (syncSucceeded_frame wc) as (_ & _ & _ & Hlast).
        split; [exact Hlast |]. unfold syncSucceeded.
        cbn [statusBarItem record set_log]. rewrite setStatus_shown.
        apply (shown_shown _ "Nextcloud: Syncing..."). unfold sameBar in *.
        congruence.
      * right. split; [discriminate |].
        destruct (syncFailed_frame e wc) as (_ & _ & _ & Hlast).
        split; [now exists e |]. unfold syncFailed.
        rewrite setStatus_shown.
        apply (shown_shown _ "Nextcloud: Syncing..."). unfold sameBar in *.
        cbn [statusBarItem record set_log]. congruence.
    + right. split; [discriminate |].
      destruct (syncFailed_frame e wb) as (_ & _ & _ & Hlast).
      split; [now exists e |]. unfold syncFailed.
      rewrite setStatus_shown.
      apply (shown_shown _ "Nextcloud: Syncing..."). unfold sameBar in *.
      cbn [statusBarItem record set_log]. congruence.
  - left. split; [reflexivity |]. unfold syncWithNextcloud.
    rewrite run_bind, run_gets. cbv beta iota. rewrite Hc.
    unfold new_Notice. rewrite run_modify. cbn [snd].
    split; [| reflexivity]. rewrite log_record. apply last_snoc.
Qed.

(* ===================================================================== *)
(** ** Polling for credentials *)
(* ===================================================================== *)

Lemma poll_eq (onSuccess : string -> string -> M unit)
    (responses : nat -> pollResult) (remaining attempts : nat) :
  poll onSuccess responses remaining attempts
  = let next :=
      if (maxAttempts <=? S attempts)%nat
      then new_Notice "Authentication timed out. Please try again."
      else match remaining with
           | O => ret tt
           | S remaining' => poll onSuccess responses remaining' (S attempts)
           end in
    match responses attempts with
    | Response st loginName appPassword =>
        if (st =? 200)%Z then onSuccess loginName appPassword else next
    | Rejected e =>
        if negb (bool_decide (status e = Some 404%Z))
        then
          console_error "Error polling for credentials:" e ;;
          new_Notice ("Authentication polling error: " +:+ message e)
        else next
    end.
Proof. destruct remaining; reflexivity. Qed.

Lemma poll_pending (onSuccess : string -> string -> M unit)
    (responses : nat -> pollResult) (remaining attempts : nat) :
  pending (responses attempts) = true ->
  poll onSuccess responses remaining attempts
  = if (maxAttempts <=? S attempts)%nat
    then new_Notice "Authentication timed out. Please try again."
    else match remaining with
         | O => ret tt
         | S remaining' => poll onSuccess responses remaining' (S attempts)
         end.
Proof.
  intros Hp. rewrite poll_eq. cbv zeta.
  destruct (responses attempts) as [st l a|e]; cbn [pending] in Hp.
  - apply negb_true_iff in Hp. now rewrite Hp.
  - now rewrite Hp.
Qed.

Lemma poll_answered (onSuccess : string -> string -> M unit)
    (responses : nat -> pollResult) (remaining attempts : nat) :
  pending (responses attempts) = false ->
  poll onSuccess responses remaining attempts
  = match responses attempts with
    | Response _ loginName appPassword => onSuccess loginName appPassword
    | Rejected e =>
        console_error "Error polling for credentials:" e ;;
        new_Notice ("Authentication polling error: " +:+ message e)
    end.
Proof.
  intros Hp. rewrite poll_eq. cbv zeta.
  destruct (responses attempts) as [st l a|e]; cbn [pending] in Hp.
  - apply negb_false_iff in Hp. now rewrite Hp.
  - now rewrite Hp.
Qed.

(** Polls that leave the login pending are passed over, one re-armed
    timer each. *)
Lemma poll_skip (onSuccess : string -> string -> M unit)
    (responses : nat -> pollResult) (k : nat) :
  forall remaining attempts,
    (forall i, (attempts <= i < attempts + k)%nat ->
               pending (responses i) = true) ->
    (attempts + k < maxAttempts)%nat ->
    (k <= remaining)%nat ->
    poll onSuccess responses remaining attempts
    = poll onSuccess responses (remaining - k) (attempts + k).
Proof.
  induction k as [|k IH]; intros remaining attempts Hp Hlt Hle.
  - now rewrite Nat.sub_0_r, Nat.add_0_r.
  - destruct remaining as [|remaining]; [lia |].
    rewrite poll_pending by (apply Hp; lia).
    assert (Hmax : (maxAttempts <=? S attempts)%nat = false)
      by (apply Nat.leb_gt; lia).
    rewrite Hmax, IH; [| intros i Hi; apply Hp; lia | lia | lia].
    f_equal; lia.
Qed.

(** X19. Polling stops at the first answer.  In both flows, when the first
    [n] polls leave the login pending (a response other than 200, or the
    rejection 404) and poll [n], one of the sixty, does not, then the flow
    ends with that poll: on a response 200 it runs the block that stores
    the credentials, with the login name and the password of that
    response; on any other rejection it logs the error and shows the
    notice of a polling error, and leaves the plugin as it was.  No later
    response is asked for. *)
Theorem polling_stops_at_first_answer
    (responses : nat -> pollResult) (n : nat) (w : world) :
  (n < maxAttempts)%nat ->
  pendingUntil responses n ->
  pending (responses n) = false ->
  pollForCredentials responses w
  = match responses n with
    | Response _ loginName appPassword =>
        credentialsGranted loginName appPassword w
    | Rejected e =>
        (Ok tt,
         record (Notice ("Authentication polling error: " +:+ message e))
           (record (ConsoleError "Error polling for credentials:" e) w))
    end
  /\ pollForLoginFlow responses w
     = match responses n with
       | Response _ loginName appPassword =>
           loginGranted loginName appPassword w
       | Rejected e =>
           (Ok tt,
            record (Notice ("Authentication polling error: " +:+ message e))
              (record (ConsoleError "Error polling for credentials:" e) w))
       end.
Proof.
  intros Hn Hpend Hans.
  assert (Hgen : forall onSuccess,
    poll onSuccess responses maxAttempts 0 w
    = match responses n with
      | Response _ loginName appPassword => onSuccess loginName appPassword w
      | Rejected e =>
          (Ok tt,
           record (Notice ("Authentication polling error: " +:+ message e))
             (record (ConsoleError "Error polling for credentials:" e) w))
      end).
  { intros onSuccess.
    rewrite (poll_skip onSuccess responses n maxAttempts 0);
      [| intros i Hi; apply Hpend; lia | lia | lia].
    rewrite poll_answered by exact Hans. cbn [Nat.add].
    destruct (responses n); reflexivity. }
  split; apply Hgen.
Qed.

Lemma polling_stops_at_first_answer_witness :
  pollForCredentials
    (fun i => if (i <? 2)%nat then Rejected notFound
              else Response 200 "alice" "token-1") oneNote
  = match (if (2 <? 2)%nat then Rejected notFound
           else Response 200 "alice" "token-1") with
    | Response _ loginName appPassword =>
        credentialsGranted loginName appPassword oneNote
    | Rejected e =>
        (Ok tt,
         record (Notice ("Authentication polling error: " +:+ message e))
           (record (ConsoleError "Error polling for credentials:" e) oneNote))
    end.
Proof.
  refine (proj1 (polling_stops_at_first_answer
                   (fun i => if (i <? 2)%nat then Rejected notFound
                             else Response 200 "alice" "token-1")
                   2 oneNote _ _ eq_refl)).
  - unfold maxAttempts. lia.
  - intros i Hi. destruct i as [|[|i]]; [reflexivity | reflexivity | lia].
Defined.

(** X20. Polling gives up after sixty requests.  In both flows, when each
    of the first sixty polls leaves the login pending, the flow ends with
    the notice that the authentication timed out, after exactly those
    sixty polls, and leaves the plugin as it was. *)
Theorem polling_gives_up_after_sixty
    (responses : nat -> pollResult) (w : world) :
  pendingUntil responses maxAttempts ->
  pollForCredentials responses w
  = (Ok tt, record (Notice "Authentication timed out. Please try again.") w)
  /\ pollForLoginFlow responses w
     = (Ok tt, record (Notice "Authentication timed out. Please try again.") w).
Proof.
  intros Hpend.
  assert (Hgen : forall onSuccess,
    poll onSuccess responses maxAttempts 0 w
    = (Ok tt, record (Notice "Authentication timed out. Please try again.") w)).
  { intros onSuccess.
    rewrite (poll_skip onSuccess responses (maxAttempts - 1) maxAttempts 0);
      [| intros i Hi; apply Hpend; unfold maxAttempts in *; lia
       | unfold maxAttempts; lia | unfold maxAttempts; lia].
    rewrite poll_pending by (apply Hpend; unfold maxAttempts; lia).
    reflexivity. }
  split; apply Hgen.
Qed.

Lemma polling_gives_up_after_sixty_witness :
  pollForLoginFlow (fun _ => Rejected notFound) oneNote
  = (Ok tt,
     record (Notice "Authentication timed out. Please try again.") oneNote).
Proof.
  refine (proj2 (polling_gives_up_after_sixty
                   (fun _ => Rejected notFound) oneNote _)).
  intros i Hi. reflexivity.
Defined.

(* ===================================================================== *)
(** ** Credentials, the client and the status bar *)
(* ===================================================================== *)

Ltac run_plugin :=
  unfold credentialsGranted, loginGranted, onChange, connectCommand,
    saveSettings, setupClient, setupOAuthClient, onload, loadSettings,
    assign, new_Notice, console_error, setStatus, modify, gets, bind, ret;
  simpl.

(** [setupClient] returns, and changes the client and the status bar
    only. *)
Lemma setupClient_frame (w : world) :
  setupClient w = (Ok tt, (setupClient w).2)
  /\ settings (setupClient w).2 = settings w
  /\ faults (setupClient w).2 = faults w
  /\ log (setupClient w).2 = log w
  /\ sameLocal w (setupClient w).2 /\ sameRemote w (setupClient w).2.
Proof. run_plugin. settle_branches; repeat split. Qed.

Lemma setupClient_without_password (w : world) :
  password (settings w) = "" -> client (setupClient w).2 = None.
Proof.
  intros Hp. run_plugin. rewrite Hp. cbn. rewrite !orb_true_r. cbn.
  settle_branches; reflexivity.
Qed.

Lemma setupClient_client (w : world) :
  client (setupClient w).2
  = (let s := settings w in
     if JS.truthy (nextcloudUrl s) && JS.truthy (username s)
        && JS.truthy (password s)
     then Some {| remoteURL := nextcloudUrl s
                               +:+ "/remote.php/dav/files/" +:+ username s;
                  authUser := username s;
                  authPassword := password s |}
     else None).
Proof.
  unfold setupClient. rewrite run_bind, run_gets. cbv beta iota zeta.
  destruct (JS.truthy (nextcloudUrl (settings w)));
    destruct (JS.truthy (username (settings w)));
    destruct (JS.truthy (password (settings w)));
    cbn [negb orb andb]; rewrite run_bind, run_modify; cbv beta iota;
    unfold setStatus; rewrite run_modify; cbn [snd];
    now destruct (statusBarItem _).
Qed.

Lemma setupClient_shown (s : string) (w : world) :
  shown s (setupClient w).2 = shown s w.
Proof.
  unfold setupClient. rewrite run_bind, run_gets. cbv beta iota.
  destruct (_ || _); rewrite run_bind, run_modify; cbv beta iota;
    unfold shown; rewrite setStatus_shown; unfold shown;
    cbn [statusBarItem set_client]; now destruct (statusBarItem w).
Qed.

Lemma editOf_password (f : tabField) (s : NextcloudPluginSettings) :
  password (editOf f s) = password s.
Proof. destruct f; reflexivity. Qed.

Lemma truthy_neq (s : string) : s <> "" -> JS.truthy s = true.
Proof. apply truthy_true. Qed.

(** X21. The token flow connects with the token.  When the server URL is
    set and the granted password is not empty, the status-200 block of the
    token flow leaves a client for the granted login name whose password
    is the granted token; the settings hold the login name and the token,
    [useOAuth] set and an empty password; and the status bar, when there
    is one, shows [Nextcloud: Connected via OAuth]. *)
Theorem token_flow_connects_with_token
    (loginName appPassword : string) (w : world) :
  nextcloudUrl (settings w) <> "" ->
  appPassword <> "" ->
  client (credentialsGranted loginName appPassword w).2
  = Some {| remoteURL := nextcloudUrl (settings w)
                         +:+ "/remote.php/dav/files/" +:+ loginName;
            authUser := loginName;
            authPassword := appPassword |}
  /\ settings (credentialsGranted loginName appPassword w).2
     = set_password ""
         (set_useOAuth true
            (set_accessToken appPassword
               (set_username loginName (settings w))))
  /\ statusBarItem (credentialsGranted loginName appPassword w).2
     = shown "Nextcloud: Connected via OAuth" w
  /\ tokenMode (settings (credentialsGranted loginName appPassword w).2).
Proof.
  intros Hu Ha. unfold tokenMode, shown.
  destruct appPassword as [|a0 a']; [congruence |].
  destruct (nextcloudUrl (settings w)) as [|u0 u'] eqn:Eu; [congruence |].
  assert (Hu' : JS.truthy (String u0 u') = true) by reflexivity.
  assert (Ha' : JS.truthy (String a0 a') = true) by reflexivity.
  run_plugin.
  destruct (statusBarItem w) eqn:Eb;
    repeat (progress (cbn; rewrite ?Eb, ?Eu, ?Hu', ?Ha', ?orb_true_r));
    repeat split; discriminate.
Qed.

Lemma token_flow_connects_with_token_witness :
  authPassword
    <$> client (credentialsGranted "alice" "token-1"
                  (set_settings
                     (set_nextcloudUrl "https://cloud.example.com"
                                       DEFAULT_SETTINGS) unloaded)).2
  = Some "token-1".
Proof.
  rewrite (proj1 (token_flow_connects_with_token "alice" "token-1"
                    (set_settings
                       (set_nextcloudUrl "https://cloud.example.com"
                                         DEFAULT_SETTINGS) unloaded)
                    ltac:(discriminate) ltac:(discriminate))).
  reflexivity.
Defined.

(** X22. The token client is lost whenever the client is rebuilt.  After
    the status-200 block of the token flow, whatever was granted, each of
    [saveSettings], a change of any field of the settings tab other than
    the password, the command [Connect to Nextcloud] and the button
    [Test Connection] leaves the plugin without a client: they rebuild the
    client from the password, which the token flow has cleared. *)
Theorem token_client_is_lost_on_rebuild
    (loginName appPassword : string) (w : world) :
  client (saveSettings (credentialsGranted loginName appPassword w).2).2 = None
  /\ (forall f,
        client (onChange (editOf f)
                  (credentialsGranted loginName appPassword w).2).2 = None)
  /\ client (connectCommand (credentialsGranted loginName appPassword w).2).2
     = None
  /\ client (testConnection (credentialsGranted loginName appPassword w).2).2
     = None.
Proof.
  pose proof (credentialsGranted_clears_password loginName appPassword w) as Hp.
  set (w1 := (credentialsGranted loginName appPassword w).2) in *.
  split; [exact (setupClient_without_password w1 Hp) |].
  split; [| split].
  - intros f. unfold onChange, assign. rewrite run_bind, run_modify.
    cbv beta iota. apply setupClient_without_password.
    cbn [settings set_settings]. now rewrite editOf_password.
  - unfold connectCommand. rewrite run_bind.
    destruct (setupClient_frame w1) as (Hrun & _). rewrite Hrun.
    cbv beta iota.
    rewrite run_bind, run_gets. cbv beta iota.
    rewrite (setupClient_without_password w1 Hp), run_ret.
    exact (setupClient_without_password w1 Hp).
  - unfold testConnection. rewrite run_try, run_bind.
    destruct (setupClient_frame w1) as (Hrun & _). rewrite Hrun.
    cbv beta iota.
    rewrite run_bind, run_gets. cbv beta iota.
    rewrite (setupClient_without_password w1 Hp).
    unfold new_Notice. rewrite run_modify. cbn [snd client record set_log].
    exact (setupClient_without_password w1 Hp).
Qed.

(** X23. Loading shows [Not Connected] whatever the client.  [onload]
    returns with the stored fields over the defaults as settings, with a
    client exactly when the loaded URL, user name and password are all
    non-empty (a stored token is not looked at), and with the status bar
    showing [Nextcloud: Not Connected] in either case. *)
Theorem onload_shows_not_connected (data : option StoredData) (w : world) :
  (onload data w).1 = Ok tt
  /\ settings (onload data w).2 = assignOver DEFAULT_SETTINGS data
  /\ statusBarItem (onload data w).2 = Some "Nextcloud: Not Connected"
  /\ client (onload data w).2
     = (let s := assignOver DEFAULT_SETTINGS data in
        if JS.truthy (nextcloudUrl s) && JS.truthy (username s)
           && JS.truthy (password s)
        then Some {| remoteURL := nextcloudUrl s
                                  +:+ "/remote.php/dav/files/" +:+ username s;
                     authUser := username s;
                     authPassword := password s |}
        else None).
Proof.
  unfold onload, loadSettings. rewrite run_bind, run_modify. cbv beta iota.
  set (w1 := set_settings (assignOver DEFAULT_SETTINGS data) w).
  rewrite run_bind.
  destruct (setupClient_frame w1) as (-> & Hs & _). cbv beta iota.
  rewrite run_modify. cbn [fst snd settings statusBarItem client
                           set_statusBarItem].
  split; [reflexivity |]. split; [exact Hs |]. split; [reflexivity |].
  apply (setupClient_client w1).
Qed.

(** X24. The command [Connect to Nextcloud] contacts nobody.  It returns,
    issues no call to the server or to the vault, and leaves the settings,
    the vault and the remote side as they are; when the URL, the user name
    and the password are all set it leaves a client and its last event is
    the notice [Connected to Nextcloud], otherwise it leaves no client and
    logs nothing. *)
Theorem connect_command_contacts_nobody (w : world) :
  (connectCommand w).1 = Ok tt
  /\ settings (connectCommand w).2 = settings w
  /\ sameLocal w (connectCommand w).2
  /\ sameRemote w (connectCommand w).2
  /\ (if JS.truthy (nextcloudUrl (settings w))
         && JS.truthy (username (settings w))
         && JS.truthy (password (settings w))
      then client (connectCommand w).2 <> None
           /\ log (connectCommand w).2
              = log w ++ [Notice "Connected to Nextcloud"]
           /\ statusBarItem (connectCommand w).2
              = shown "Nextcloud: Connected" w
      else client (connectCommand w).2 = None
           /\ log (connectCommand w).2 = log w).
Proof.
  unfold connectCommand. rewrite run_bind.
  destruct (setupClient_frame w) as (Hrun & Hs & _ & Hl & Hloc & Hrem).
  rewrite Hrun. cbv beta iota. rewrite run_bind, run_gets. cbv beta iota.
  pose proof (setupClient_client w) as Hc. cbv zeta in Hc.
  pose proof (setupClient_shown "Nextcloud: Connected" w) as Hb.
  set (w1 := (setupClient w).2) in *.
  destruct (JS.truthy (nextcloudUrl (settings w))
            && JS.truthy (username (settings w))
            && JS.truthy (password (settings w))).
  - rewrite Hc. unfold new_Notice. rewrite run_bind, run_modify.
    cbv beta iota. rewrite setStatus_run. cbn [fst snd].
    destruct (setStatus_onlyStatus "Nextcloud: Connected"
                (record (Notice "Connected to Nextcloud") w1))
      as (Hs2 & Hc2 & _ & Hv2 & Hfo2 & Hm2 & Hd2 & Hl2).
    unfold sameLocal, sameRemote.
    rewrite Hs2, Hc2, Hv2, Hfo2, Hm2, Hd2, Hl2, setStatus_shown.
    cbn [settings client vault folders remoteFiles remoteDirs record set_log].
    split; [reflexivity |]. split; [exact Hs |].
    split; [exact Hloc |]. split; [exact Hrem |].
    split; [now rewrite Hc |]. split; [| exact Hb].
    now rewrite log_record, Hl.
  - rewrite Hc, run_ret. cbn [fst snd].
    split; [reflexivity |]. split; [exact Hs |].
    split; [exact Hloc |]. split; [exact Hrem |].
    split; [exact Hc | exact Hl].
Qed.

(** X25. The button [Test Connection] only reports.  Whatever the world and
    the failures injected, the handler returns, leaves the settings, the
    vault and the remote side as they are, and its last event is a
    notice: that the connection is not configured when the rebuilt client
    is missing, that the connection succeeded when the listing of [/]
    returned, and otherwise that the connection failed, with the message
    of the error the listing threw. *)
Theorem test_connection_only_reports (w : world) :
  (testConnection w).1 = Ok tt
  /\ settings (testConnection w).2 = settings w
  /\ sameLocal w (testConnection w).2
  /\ sameRemote w (testConnection w).2
  /\ last (log (testConnection w).2)
     = Some (Notice
         match client (setupClient w).2 with
         | None => "Please configure your Nextcloud connection first"
         | Some _ =>
             match faults w (log w) (GetDirectoryContents "/") with
             | None => "Connection to Nextcloud successful!"
             | Some e => "Connection failed: " +:+ message e
             end
         end).
Proof.
  unfold testConnection. rewrite run_try, run_bind.
  destruct (setupClient_frame w) as (Hrun & Hs & Hf & Hl & Hloc & Hrem).
  rewrite Hrun. cbv beta iota. rewrite run_bind, run_gets. cbv beta iota.
  set (w1 := (setupClient w).2) in *.
  destruct (client w1) eqn:Hc.
  - rewrite run_bind. unfold client_getDirectoryContents.
    rewrite run_perform, Hf, Hl.
    destruct (faults w (log w) (GetDirectoryContents "/")) as [e|].
    + unfold console_error, new_Notice.
      rewrite run_bind, run_modify. cbv beta iota. rewrite run_modify.
      cbn [fst snd]. split; [reflexivity |]. split; [exact Hs |].
      split; [exact Hloc |]. split; [exact Hrem |].
      rewrite log_record, last_snoc. cbn [snd]. now rewrite Hc.
    + unfold new_Notice. rewrite run_modify. cbn [fst snd].
      split; [reflexivity |]. split; [exact Hs |].
      split; [exact Hloc |]. split; [exact Hrem |].
      rewrite log_record, last_snoc. cbn [snd]. now rewrite Hc.
  - unfold new_Notice. rewrite run_modify. cbn [fst snd].
    split; [reflexivity |]. split; [exact Hs |].
    split; [exact Hloc |]. split; [exact Hrem |].
    rewrite log_record, last_snoc. cbn [snd]. now rewrite Hc.
Qed.

(* ===================================================================== *)
(** ** Starting a login flow *)
(* ===================================================================== *)

(** The plugin's own state only: a computation that returns and leaves
    the vault and the remote side alone. *)
Lemma granted_frame (loginName appPassword : string) (w : world) :
  ((credentialsGranted loginName appPassword w).1 = Ok tt
   /\ sameLocal w (credentialsGranted loginName appPassword w).2
   /\ sameRemote w (credentialsGranted loginName appPassword w).2)
  /\ ((loginGranted loginName appPassword w).1 = Ok tt
      /\ sameLocal w (loginGranted loginName appPassword w).2
      /\ sameRemote w (loginGranted loginName appPassword w).2).
Proof.
  split; run_plugin; unfold sameLocal, sameRemote;
    settle_branches; repeat split.
Qed.

Lemma poll_frame (onSuccess : string -> string -> M unit)
    (responses : nat -> pollResult) :
  (forall l a w, (onSuccess l a w).1 = Ok tt
                 /\ sameLocal w (onSuccess l a w).2
                 /\ sameRemote w (onSuccess l a w).2) ->
  forall remaining attempts w,
    (poll onSuccess responses remaining attempts w).1 = Ok tt
    /\ sameLocal w (poll onSuccess responses remaining attempts w).2
    /\ sameRemote w (poll onSuccess responses remaining attempts w).2.
Proof.
  intros Hok. induction remaining as [|remaining IH]; intros attempts w.
  - rewrite poll_eq. cbv zeta.
    destruct (responses attempts) as [st l a|e].
    + destruct (st =? 200)%Z; [apply Hok |].
      destruct (maxAttempts <=? S attempts)%nat; repeat split.
    + destruct (negb _); [repeat split |].
      destruct (maxAttempts <=? S attempts)%nat; repeat split.
  - rewrite poll_eq. cbv zeta.
    destruct (responses attempts) as [st l a|e].
    + destruct (st =? 200)%Z; [apply Hok |].
      destruct (maxAttempts <=? S attempts)%nat; [repeat split | apply IH].
    + destruct (negb _); [repeat split |].
      destruct (maxAttempts <=? S attempts)%nat; [repeat split | apply IH].
Qed.

Lemma flow_frame (label prefix : string) (start : startResult)
    (onSuccess : string -> string -> M unit)
    (responses : nat -> pollResult) (w : world) :
  (forall l a w, (onSuccess l a w).1 = Ok tt
                 /\ sameLocal w (onSuccess l a w).2
                 /\ sameRemote w (onSuccess l a w).2) ->
  let flow :=
    try_catch
      (s <- gets settings ;;
       if negb (JS.truthy (nextcloudUrl s))
       then new_Notice "Please configure your Nextcloud URL first"
       else
         requestLogin start ;;
         new_Notice "Nextcloud login page opened. Please log in through your browser." ;;
         poll onSuccess responses maxAttempts 0)
      (fun e =>
         console_error label e ;;
         new_Notice (prefix +:+ message e)) in
  (flow w).1 = Ok tt /\ sameLocal w (flow w).2 /\ sameRemote w (flow w).2.
Proof.
  intros Hok flow. unfold flow. rewrite run_try, run_bind, run_gets.
  cbv beta iota.
  destruct (negb (JS.truthy (nextcloudUrl (settings w)))); [repeat split |].
  rewrite run_bind.
  assert (Hfail : forall e,
    let w' := ((console_error label e ;; new_Notice (prefix +:+ message e)) w) in
    w'.1 = Ok tt /\ sameLocal w w'.2 /\ sameRemote w w'.2)
    by (intros e; repeat split).
  unfold requestLogin. destruct start as [st|e]; [| rewrite run_throw; apply Hfail].
  destruct (negb (st =? 200)%Z); [rewrite run_throw; apply Hfail |].
  rewrite run_ret. cbv beta iota. rewrite run_bind. unfold new_Notice.
  rewrite run_modify. cbv beta iota.
  set (w1 := record _ w).
  destruct (poll_frame onSuccess responses Hok maxAttempts 0 w1)
    as (Hr & Hl & Hm).
  destruct (poll onSuccess responses maxAttempts 0 w1) as [[[]|e] w2];
    cbn [fst snd] in *; [| discriminate Hr].
  split; [reflexivity |]. split; [exact Hl | exact Hm].
Qed.

(** X26. The login flows never throw and touch no file.  Whatever the start
    request and the polls yield, [initiateOAuthFlow] and
    [initiateLoginFlowV2] return, and leave the vault, the local folders
    and the remote side as they are. *)
Theorem login_flows_never_throw
    (start : startResult) (responses : nat -> pollResult) (w : world) :
  ((initiateOAuthFlow start responses w).1 = Ok tt
   /\ sameLocal w (initiateOAuthFlow start responses w).2
   /\ sameRemote w (initiateOAuthFlow start responses w).2)
  /\ ((initiateLoginFlowV2 start responses w).1 = Ok tt
      /\ sameLocal w (initiateLoginFlowV2 start responses w).2
      /\ sameRemote w (initiateLoginFlowV2 start responses w).2).
Proof.
  split.
  - apply (flow_frame "OAuth flow error:" "OAuth error: " start
                      credentialsGranted responses w).
    intros l a w0. apply (granted_frame l a w0).
  - apply (flow_frame "Login flow error:" "Login flow error: " start
                      loginGranted responses w).
    intros l a w0. apply (granted_frame l a w0).
Qed.

(** X27. A refused start ends the flow with an error notice.  When the
    server URL is set and the start request is answered with a status
    other than 200, both flows make no poll: they log the error
    [Failed to initiate login flow: <status>], show it in a notice, and
    leave everything else, the settings and the client included, as it
    was. *)
Theorem refused_start_polls_nothing
    (st : Z) (responses : nat -> pollResult) (w : world) :
  nextcloudUrl (settings w) <> "" ->
  st <> 200%Z ->
  let e := newError ("Failed to initiate login flow: " +:+ pretty st) in
  initiateOAuthFlow (Started st) responses w
  = (Ok tt,
     record (Notice ("OAuth error: " +:+ message e))
       (record (ConsoleError "OAuth flow error:" e) w))
  /\ initiateLoginFlowV2 (Started st) responses w
     = (Ok tt,
        record (Notice ("Login flow error: " +:+ message e))
          (record (ConsoleError "Login flow error:" e) w)).
Proof.
  intros Hu Hst e. apply truthy_true in Hu. apply Z.eqb_neq in Hst.
  unfold initiateOAuthFlow, initiateLoginFlowV2.
  rewrite !run_try, !run_bind, !run_gets. cbv beta iota.
  rewrite Hu. cbn [negb]. rewrite !run_bind. unfold requestLogin.
  rewrite Hst. cbn [negb]. rewrite !run_throw. cbv beta iota.
  unfold console_error, new_Notice. rewrite !run_bind, !run_modify.
  cbv beta iota. rewrite ?run_modify. split; reflexivity.
Qed.

Lemma refused_start_polls_nothing_witness :
  settings
    (initiateOAuthFlow (Started 503) (fun _ => Response 200 "alice" "token-1")
                       oneNote).2
  = settings oneNote.
Proof.
  rewrite (proj1 (refused_start_polls_nothing 503
                    (fun _ => Response 200 "alice" "token-1") oneNote
                    ltac:(discriminate) ltac:(discriminate))).
  reflexivity.
Defined.

(* ===================================================================== *)
(** ** What a completed pass leaves *)
(* ===================================================================== *)

Lemma eqb_length (x y : string) :
  String.length x <> String.length y -> String.eqb x y = false.
Proof.
  intros H. destruct (String.eqb x y) eqn:E; [| reflexivity].
  apply String.eqb_eq in E. now subst y.
Qed.

Lemma endsWith_cons (a : ascii) (s suf : string) :
  JS.endsWith (String a s) suf
  = JS.endsWith s suf || String.eqb (String a s) suf.
Proof.
  unfold JS.endsWith. cbn [String.length].
  destruct (String.length suf <=? String.length s)%nat eqn:E1.
  - apply Nat.leb_le in E1.
    assert (E2 : (String.length suf <=? S (String.length s))%nat = true)
      by (apply Nat.leb_le; lia).
    rewrite E2.
    replace (S (String.length s) - String.length suf)
      with (S (String.length s - String.length suf)) by lia.
    cbn [JS.slice].
    rewrite (eqb_length (String a s) suf) by (cbn [String.length]; lia).
    now rewrite orb_false_r.
  - apply Nat.leb_gt in E1. cbn [orb].
    destruct (String.length suf <=? S (String.length s))%nat eqn:E2.
    + apply Nat.leb_le in E2.
      replace (S (String.length s) - String.length suf) with 0 by lia.
      reflexivity.
    + apply Nat.leb_gt in E2. symmetry. apply eqb_length.
      cbn [String.length]. lia.
Qed.

Lemma endsWith_append_left (x s suf : string) :
  JS.endsWith s suf = true -> JS.endsWith (x +:+ s) suf = true.
Proof.
  intros H. induction x as [|a x IH]; [exact H |].
  rewrite append_cons, endsWith_cons, IH. reflexivity.
Qed.

(** A path that ends in [.md] does so behind its last slash. *)
Lemma endsWith_after_slash (pre rest : string) :
  JS.endsWith (pre +:+ String "/" rest) ".md" = true ->
  JS.endsWith rest ".md" = true.
Proof.
  induction pre as [|a pre IH].
  - rewrite append_nil, endsWith_cons. intros H.
    apply orb_true_iff in H. destruct H as [H | H]; [exact H |].
    discriminate H.
  - rewrite append_cons, endsWith_cons. intros H.
    apply orb_true_iff in H. destruct H as [H | H]; [exact (IH H) |].
    exfalso. apply String.eqb_eq in H.
    destruct pre as [|b [|c pre]]; rewrite ?append_cons, ?append_nil in H;
      try discriminate H.
    injection H as _ _ _ H. destruct pre; discriminate H.
Qed.

Lemma length_take (s : string) (n : nat) :
  n <= String.length s -> String.length (JS.take s n) = n.
Proof.
  revert s. induction n as [|n IH]; intros s Hn; [reflexivity |].
  destruct s as [|a s]; cbn [String.length] in Hn; [lia |].
  cbn [JS.take String.length]. rewrite IH; lia.
Qed.

(** [basenameOf] gives what follows the last slash. *)
Lemma basenameOf_markdown (p : string) :
  JS.endsWith p ".md" = true -> JS.endsWith (basenameOf p) ".md" = true.
Proof.
  intros H. unfold basenameOf, JS.lastIndexOf.
  rewrite lastIndexOf_from_spec.
  destruct (occurs "/" p) eqn:E; [| exact H].
  destruct (take_lastPos "/" p E) as (rest & _ & Hp).
  replace (Z.to_nat (0 + Z.of_nat (lastPos "/" p) + 1))
    with (String.length (JS.take p (lastPos "/" p) +:+ "/")).
  - rewrite Hp in H at 1. apply endsWith_after_slash in H.
    rewrite Hp at 1.
    change (String "/" rest) with ("/" +:+ rest).
    now rewrite <- append_assoc, slice_append.
  - rewrite length_of_append, length_take by apply lastPos_le.
    cbn [String.length]. lia.
Qed.

Lemma localToRemote_inside (C L p : string) :
  inside (downloadRoot C) (localToRemote p L C) = true.
Proof.
  unfold inside, localToRemote. rewrite uploadRoot_is_listed_root.
  apply startsWith_append.
Qed.

Lemma vlookup_Some_key (p c : string) (v : list (string * string)) :
  vlookup p v = Some c -> In p (map fst v).
Proof.
  induction v as [|[q d] v IH]; [discriminate |].
  cbn [vlookup map fst]. destruct (String.eqb q p) eqn:E.
  - apply String.eqb_eq in E. now left.
  - intros H. right. now apply IH.
Qed.

(** After a completed pass, every markdown file listed below the remote
    root has its content at its local path. *)
Lemma pass_mirror (w : world) (r : RemoteFile) :
  noFault w ->
  JS.endsWith (downloadRoot (collectivePath (settings w))) "/" = false ->
  last (log (syncWithNextcloud w).2) = Some completed ->
  In r (listing (downloadRoot (collectivePath (settings w)))
                (syncWithNextcloud w).2) ->
  isRemoteMarkdown r = true ->
  vlookup (remoteToLocal (filename r) (collectivePath (settings w))
                         (localFolderPath (settings w)))
          (vault (syncWithNextcloud w).2)
  = remoteFiles (syncWithNextcloud w).2 !! filename r.
Proof.
  intros Hf Hroot Hdone Hin Hmd.
  destruct (first_pass_shape w Hf Hdone) as (c0 & wb & _ & _ & Hv & Hm).
  destruct (listing_markdown _ _ r Hin Hmd) as (_ & _ & Hall).
  rewrite Hv, Hm.
  apply (downloaded_entry_in_vault _ _ Hroot); [| now apply Hall | exact Hmd].
  intros r0 Hin0 Hmd0.
  destruct (listing_markdown _ wb r0 Hin0 Hmd0) as (H1 & H2 & _).
  split; [exact H1 | exact H2].
Qed.

(** X28. A completed pass leaves the folder and the remote root equal.  In
    an environment that injects no failure and with a remote root that
    does not end in a slash, after a pass that reports completion:
    every markdown file listed below the remote root has its content at
    its local path; and, when the local folder is set, every markdown
    file the vault held at a path made of the local folder, a slash and a
    rest is on the server at the remote root followed by that rest, with
    the content the vault now holds at that path. *)
Theorem completed_pass_leaves_both_sides_equal (w : world) :
  noFault w ->
  JS.endsWith (downloadRoot (collectivePath (settings w))) "/" = false ->
  last (log (syncWithNextcloud w).2) = Some completed ->
  let L := localFolderPath (settings w) in
  let C := collectivePath (settings w) in
  (forall r,
     In r (listing (downloadRoot C) (syncWithNextcloud w).2) ->
     isRemoteMarkdown r = true ->
     vlookup (remoteToLocal (filename r) C L) (vault (syncWithNextcloud w).2)
     = remoteFiles (syncWithNextcloud w).2 !! filename r)
  /\ (L <> "" ->
      forall rel,
        isMarkdown (L +:+ "/" +:+ rel) = true ->
        is_Some (vlookup (L +:+ "/" +:+ rel) (vault w)) ->
        is_Some (remoteFiles (syncWithNextcloud w).2 !! (uploadRoot C +:+ rel))
        /\ vlookup (L +:+ "/" +:+ rel) (vault (syncWithNextcloud w).2)
           = remoteFiles (syncWithNextcloud w).2 !! (uploadRoot C +:+ rel)).
Proof.
  intros Hf Hroot Hdone L C.
  split; [intros r; now apply pass_mirror |].
  intros HL rel Hmd [c0 Hc0].
  set (p := L +:+ "/" +:+ rel) in *.
  set (q := uploadRoot C +:+ rel).
  assert (Hq : localToRemote p L C = q).
  { unfold localToRemote, p, q.
    now rewrite (relativePath_under L ("/" +:+ rel) HL), stripSlash_slash. }
  assert (Hback : remoteToLocal q C L = p).
  { rewrite <- Hq. unfold p.
    rewrite (roundtrip_general _ _ _ Hroot),
      (relativePath_under L ("/" +:+ rel) HL), stripSlash_slash.
    apply truthy_true in HL. fold L. now rewrite HL. }
  destruct (first_pass_shape w Hf Hdone) as (cl & wb & _ & Hm1 & _ & Hm).
  fold L C in Hm1.
  set (sel := selFrom (syncFolder w) (map fst (vault w))) in *.
  assert (Hsel : forall f, In f sel -> is_Some (vlookup (path f) (vault w)))
    by (intros f Hin; now apply vlookup_key, (selFrom_In (syncFolder w))).
  assert (Hin : In {| path := p |} sel).
  { unfold sel, selFrom. apply List.in_map_iff. exists p.
    split; [reflexivity |]. apply List.filter_In.
    split; [exact (vlookup_Some_key _ _ _ Hc0) |].
    rewrite Hmd. cbn [andb]. unfold syncFolder. fold L.
    rewrite (or_else_truthy L "/" HL). apply startsWith_append. }
  assert (Hsome : is_Some (remoteFiles (syncWithNextcloud w).2 !! q)).
  { rewrite Hm, Hm1, (uploadedMap_lookup _ _ _ _ _ _ Hsel).
    destruct (lastUpload L C q sel) as [f|] eqn:E.
    - unfold lastUpload in E. apply List.find_some in E.
      destruct E as [E _]. apply in_rev in E. now apply Hsel.
    - exfalso. unfold lastUpload in E. apply in_rev in Hin.
      pose proof (List.find_none _ _ E _ Hin) as Hx. cbv beta in Hx.
      cbn [path] in Hx. rewrite Hq, String.eqb_refl in Hx. discriminate Hx. }
  split; [exact Hsome |]. destruct Hsome as [c Hc].
  rewrite <- Hback.
  apply (pass_mirror w (fileEntry (q, c)) Hf Hroot Hdone).
  - unfold listing. apply in_or_app. right. apply List.in_map.
    apply List.filter_In. split.
    + apply list_elem_of_In, elem_of_map_to_list. exact Hc.
    + cbn [fst]. rewrite <- Hq. apply localToRemote_inside.
  - unfold isRemoteMarkdown. cbn [type fileEntry basename fst].
    apply basenameOf_markdown. unfold q. apply endsWith_append_left.
    exact (endsWith_after_slash L rel Hmd).
Qed.

Lemma completed_pass_leaves_both_sides_equal_witness :
  vlookup "notes/a.md" (vault (syncWithNextcloud oneNote).2)
  = remoteFiles (syncWithNextcloud oneNote).2 !! "/Collectives/a.md".
Proof.
  refine (proj2 (proj2 (completed_pass_leaves_both_sides_equal oneNote
                          _ eq_refl eq_refl)
                       ltac:(discriminate) "a.md" eq_refl _)).
  - intros l c. reflexivity.
  - eexists. reflexivity.
Defined.

(* ===================================================================== *)
(** ** A failure on one file *)
(* ===================================================================== *)










(* ===================================================================== *)
(** ** The collections a pass creates *)
(* ===================================================================== *)

Lemma remoteGrows_refl w : remoteGrows w w.
Proof. intros p H. exact H. Qed.

Lemma remoteGrows_trans w1 w2 w3 :
  remoteGrows w1 w2 -> remoteGrows w2 w3 -> remoteGrows w1 w3.
Proof. intros H1 H2 p H. now apply H2, H1. Qed.

Lemma remoteGrows_same w w' :
  remoteDirs w' = remoteDirs w -> remoteFiles w' = remoteFiles w ->
  remoteGrows w w'.
Proof. intros Hd Hm p. unfold remoteExists. now rewrite Hd, Hm. Qed.

Lemma remoteMissing w w' p :
  remoteGrows w w' -> remoteExists p w' = false -> remoteExists p w = false.
Proof.
  intros Hg H. destruct (remoteExists p w) eqn:E; [| reflexivity].
  apply Hg in E. congruence.
Qed.

Lemma createsMissing_nothing w w' :
  createsNothing w w' -> createsMissing [] w w' /\ remoteGrows w w'.
Proof.
  intros (Hd & Hm & t & Hlog & Ht). split.
  - split; [now rewrite Hd |]. split; [intros p Hp; left; now rewrite <- Hd |].
    exists t. split; [exact Hlog |]. intros p o Hin. now destruct (Ht p o).
  - now apply remoteGrows_same.
Qed.

Lemma createsNothing_refl w : createsNothing w w.
Proof.
  split; [reflexivity |]. split; [reflexivity |].
  exists []. split; [now rewrite app_nil_r | intros p o []].
Qed.

Lemma createsNothing_trans w1 w2 w3 :
  createsNothing w1 w2 -> createsNothing w2 w3 -> createsNothing w1 w3.
Proof.
  intros (Hd1 & Hm1 & t1 & Hl1 & Ht1) (Hd2 & Hm2 & t2 & Hl2 & Ht2).
  split; [congruence |]. split; [congruence |].
  exists (t1 ++ t2). split; [now rewrite Hl2, Hl1, app_assoc |].
  intros p o Hin. apply in_app_or in Hin.
  destruct Hin as [Hin | Hin]; [exact (Ht1 p o Hin) | exact (Ht2 p o Hin)].
Qed.

Lemma createsNothing_record w e :
  notCreateDirectory e -> createsNothing w (record e w).
Proof.
  intros He. split; [reflexivity |]. split; [reflexivity |].
  exists [e]. split; [reflexivity |].
  intros p o [Hin | []]. subst e. exact He.
Qed.

Lemma createsNothing_local w w' :
  remoteDirs w' = remoteDirs w -> remoteFiles w' = remoteFiles w ->
  log w' = log w -> createsNothing w w'.
Proof.
  intros Hd Hm Hl. split; [exact Hd |]. split; [exact Hm |].
  exists []. split; [now rewrite app_nil_r | intros p o []].
Qed.

Lemma createsMissing_weaken ps qs w w' :
  (forall p, In p ps -> In p qs) ->
  createsMissing ps w w' -> createsMissing qs w w'.
Proof.
  intros Hsub (Hd & Hnew & t & Hlog & Ht).
  split; [exact Hd |]. split.
  - intros p Hp. destruct (Hnew p Hp) as [H | [H1 H2]]; [now left | right].
    split; [now apply Hsub | exact H2].
  - exists t. split; [exact Hlog |]. intros p o Hin.
    destruct (Ht p o Hin) as [H1 H2]. split; [now apply Hsub | exact H2].
Qed.

Lemma createsMissing_trans ps qs w1 w2 w3 :
  remoteGrows w1 w2 ->
  createsMissing ps w1 w2 -> createsMissing qs w2 w3 ->
  createsMissing (ps ++ qs) w1 w3.
Proof.
  intros Hg (Hd1 & Hn1 & t1 & Hl1 & Ht1) (Hd2 & Hn2 & t2 & Hl2 & Ht2).
  split; [etransitivity; eassumption |]. split.
  - intros p Hp. destruct (Hn2 p Hp) as [H | [H1 H2]].
    + destruct (Hn1 p H) as [H' | [H1 H2]]; [now left | right].
      split; [apply in_or_app; now left | exact H2].
    + right. split; [apply in_or_app; now right |].
      exact (remoteMissing _ _ _ Hg H2).
  - exists (t1 ++ t2). split; [now rewrite Hl2, Hl1, app_assoc |].
    intros p o Hin. apply in_app_or in Hin. destruct Hin as [Hin | Hin].
    + destruct (Ht1 p o Hin) as [H1 H2].
      split; [apply in_or_app; now left | exact H2].
    + destruct (Ht2 p o Hin) as [H1 H2].
      split; [apply in_or_app; now right |].
      exact (remoteMissing _ _ _ Hg H2).
Qed.

(** One level of the ensurer, without failures. *)
Lemma ensure_level_created (p : string) (w : world) :
  noFault w ->
  let w' := (try_catch (client_stat p) (fun _ => client_createDirectory p) w).2 in
  createsMissing [p] w w' /\ remoteGrows w w'.
Proof.
  intros Hf. rewrite run_try. unfold client_stat.
  rewrite (perform_free _ _ _ Hf).
  destruct (remoteExists p w) eqn:E; cbn [snd].
  - split.
    + apply (createsMissing_weaken []); [intros q [] |].
      apply createsMissing_nothing, createsNothing_record. exact I.
    + apply remoteGrows_same; reflexivity.
  - unfold client_createDirectory.
    rewrite (perform_free _ _ _ (noFault_record _ _ Hf)).
    rewrite remoteExists_record, E. cbn [snd]. split.
    + split; [cbn; set_solver |]. split.
      * intros q Hq. cbn in Hq. apply elem_of_union in Hq.
        destruct Hq as [Hq | Hq]; [| now left].
        apply elem_of_singleton in Hq. subst q. right.
        split; [now left | exact E].
      * eexists. split; [rewrite !log_record; cbn [log set_remoteDirs];
                          rewrite log_record, <- app_assoc; reflexivity |].
        intros q o Hin. simpl in Hin.
        destruct Hin as [Hin | [Hin | []]]; [discriminate Hin |].
        injection Hin as <- _. split; [now left | exact E].
    + intros q Hq. unfold remoteExists in *.
      cbn [remoteDirs remoteFiles record set_log set_remoteDirs].
      apply orb_true_iff in Hq. apply orb_true_iff.
      destruct Hq as [Hq | Hq]; [left | now right].
      apply bool_decide_eq_true in Hq. apply bool_decide_eq_true. set_solver.
Qed.

Lemma ensureLevels_created (components : list string) (currentPath : string)
    (w : world) :
  noFault w ->
  createsMissing (prefixPaths components currentPath) w
                 (ensureLevels components currentPath w).2
  /\ remoteGrows w (ensureLevels components currentPath w).2.
Proof.
  revert currentPath w.
  induction components as [|c cs IH]; intros cur w Hf.
  - split; [| apply remoteGrows_refl].
    apply createsMissing_nothing, createsNothing_refl.
  - cbn [ensureLevels prefixPaths]. rewrite run_bind.
    destruct (ensure_level_created (cur +:+ "/" +:+ c) w Hf) as [Hc1 Hg1].
    destruct (ensure_level_free (cur +:+ "/" +:+ c) w Hf) as (w1 & Hrun & Hf1).
    rewrite Hrun in Hc1, Hg1 |- *. cbn [snd] in Hc1, Hg1.
    destruct (IH (cur +:+ "/" +:+ c) w1 Hf1) as [Hc2 Hg2].
    split; [| exact (remoteGrows_trans _ _ _ Hg1 Hg2)].
    exact (createsMissing_trans [_] _ _ _ _ Hg1 Hc1 Hc2).
Qed.

Lemma ensureDirectoryExists_created (directory : string) (w : world) :
  noFault w ->
  createsMissing (prefixPaths (pathComponents directory) "") w
                 (ensureDirectoryExists directory w).2
  /\ remoteGrows w (ensureDirectoryExists directory w).2.
Proof.
  intros Hf. unfold ensureDirectoryExists.
  rewrite run_bind, run_gets. cbv beta iota.
  destruct (client w).
  - rewrite run_try.
    destruct (ensureLevels_created (pathComponents directory) "" w Hf)
      as [Hc Hg].
    destruct (ensureLevels_free (pathComponents directory) "" w Hf)
      as (w1 & Hrun).
    rewrite Hrun in Hc, Hg |- *. now split.
  - split; [| apply remoteGrows_refl].
    apply (createsMissing_weaken []); [intros q [] |].
    apply createsMissing_nothing, createsNothing_refl.
Qed.

Lemma put_created (q content : string) (w : world) :
  let w' := record (Called (PutFileContents q content) None)
                   (set_remoteFiles (<[q:=content]> (remoteFiles w)) w) in
  createsMissing [] w w' /\ remoteGrows w w'.
Proof.
  intros w'. split.
  - split; [reflexivity |]. split; [intros p Hp; now left |].
    exists [Called (PutFileContents q content) None].
    split; [reflexivity |]. intros p o [Hin | []]. discriminate Hin.
  - intros p Hp. now apply remoteExists_after_put.
Qed.

(** One file uploaded without failures: the collections it creates. *)
Lemma uploadFile_created (f : TFile) (w : world) (c : WebDAVClient) :
  noFault w ->
  client w = Some c ->
  createsMissing (ensuredFor w f) w (uploadFile f w).2
  /\ remoteGrows w (uploadFile f w).2.
Proof.
  intros Hf Hc. unfold uploadFile.
  rewrite run_bind, run_gets. cbv beta iota. rewrite Hc, run_try.
  rewrite run_bind. unfold vault_read. rewrite (perform_free _ _ _ Hf).
  destruct (vlookup (path f) (vault w)) as [content|].
  2: { rewrite rethrow_run. cbn [snd].
       assert (Hn : createsNothing w
                 (record (ConsoleError ("Error uploading file " +:+ path f +:+ ":")
                                       noSuchFile)
                    (record (Called (VaultRead (path f)) (Some noSuchFile)) w))).
       { eapply createsNothing_trans; apply createsNothing_record; exact I. }
       apply createsMissing_nothing in Hn. destruct Hn as [Hn Hg].
       split; [| exact Hg].
       apply (createsMissing_weaken []); [intros q [] | exact Hn]. }
  cbv beta iota. rewrite run_bind, run_gets. cbv beta iota.
  cbn [settings record set_log]. unfold ensuredFor. cbv zeta.
  set (r := localToRemote (path f) (localFolderPath (settings w))
                          (collectivePath (settings w))).
  set (w1 := record (Called (VaultRead (path f)) None) w).
  assert (Hf1 : noFault w1) by now apply noFault_record.
  set (dir := JS.substring r 0 (JS.lastIndexOf r "/")).
  rewrite run_bind.
  destruct (ensureDirectoryExists_created dir w1 Hf1) as [Hc2 Hg2].
  destruct (ensureDirectoryExists_free dir w1 Hf1) as (w2 & Hrun).
  pose proof (samePlugin_ensureDirectoryExists dir w1) as Hp.
  rewrite Hrun in Hc2, Hg2, Hp |- *. cbn [snd] in Hc2, Hg2, Hp.
  assert (Hf2 : noFault w2) by exact (noFault_samePlugin _ _ Hp Hf1).
  unfold client_putFileContents. rewrite (perform_free _ _ _ Hf2). cbn [snd].
  destruct (put_created r content w2) as [Hc3 Hg3].
  assert (Hn1 : createsNothing w w1) by (apply createsNothing_record; exact I).
  apply createsMissing_nothing in Hn1. destruct Hn1 as [Hc1 Hg1].
  split.
  - pose proof (createsMissing_trans _ _ _ _ _ Hg1 Hc1 Hc2) as H12.
    pose proof (createsMissing_trans _ _ _ _ _
                  (remoteGrows_trans _ _ _ Hg1 Hg2) H12 Hc3) as H13.
    cbn [app] in H13. now rewrite app_nil_r in H13.
  - exact (remoteGrows_trans _ _ _ (remoteGrows_trans _ _ _ Hg1 Hg2) Hg3).
Qed.

Lemma ensuredFor_settings (w w' : world) (f : TFile) :
  settings w' = settings w -> ensuredFor w' f = ensuredFor w f.
Proof. intros H. unfold ensuredFor. now rewrite H. Qed.

Lemma uploadLoop_created (fs : list TFile) (w : world) (c : WebDAVClient) :
  noFault w ->
  client w = Some c ->
  createsMissing (flat_map (ensuredFor w) fs) w (for_of fs uploadFile w).2
  /\ remoteGrows w (for_of fs uploadFile w).2.
Proof.
  revert w. induction fs as [|f fs IH]; intros w Hf Hc.
  - split; [| apply remoteGrows_refl].
    apply createsMissing_nothing, createsNothing_refl.
  - rewrite for_of_cons, run_bind. cbn [flat_map].
    destruct (uploadFile_created f w c Hf Hc) as [Hc1 Hg1].
    pose proof (samePlugin_uploadFile f w) as Hp.
    destruct (uploadFile f w) as [[[]|e] w1]; cbn [snd] in *.
    + destruct Hp as (Hs & Hcl & Hfa).
      assert (Hf1 : noFault w1) by (intros l c0; rewrite Hfa; apply Hf).
      assert (Hcl1 : client w1 = Some c) by congruence.
      destruct (IH w1 Hf1 Hcl1) as [Hc2 Hg2].
      split; [| exact (remoteGrows_trans _ _ _ Hg1 Hg2)].
      apply (createsMissing_trans _ _ _ _ _ Hg1 Hc1).
      replace (flat_map (ensuredFor w) fs) with (flat_map (ensuredFor w1) fs);
        [exact Hc2 |].
      apply flat_map_ext. intros g. now apply ensuredFor_settings.
    + split; [| exact Hg1].
      apply (createsMissing_weaken (ensuredFor w f)); [| exact Hc1].
      intros p Hp'. apply in_or_app. now left.
Qed.

Lemma uploadChanges_created (folderPath : string) (w : world)
    (c : WebDAVClient) :
  noFault w ->
  client w = Some c ->
  createsMissing (ensuredPaths folderPath w) w (uploadChanges folderPath w).2
  /\ remoteGrows w (uploadChanges folderPath w).2.
Proof.
  intros Hf Hc. unfold uploadChanges.
  rewrite run_bind, run_gets. cbv beta iota. rewrite Hc.
  rewrite run_bind, run_gets. cbv beta iota.
  exact (uploadLoop_created _ w c Hf Hc).
Qed.

(** The download phase and the two endings of a pass create nothing. *)
Lemma createsNothing_downloadChanges fp :
  preserves createsNothing (downloadChanges fp).
Proof.
  apply (preserves_downloadChanges createsNothing notCreateDirectory).
  - exact createsNothing_refl.
  - exact createsNothing_trans.
  - exact createsNothing_record.
  - intros c o. destruct c; simpl; intros; try discriminate; exact I.
  - intros; exact I.
  - intros; exact I.
  - intros w p c. now apply createsNothing_local.
  - intros w p. now apply createsNothing_local.
  - intros w p c. now apply createsNothing_local.
Qed.

Lemma createsNothing_setStatus s w : createsNothing w (setStatus s w).2.
Proof.
  destruct (setStatus_onlyStatus s w) as (_ & _ & _ & _ & _ & Hm & Hd & Hl).
  now apply createsNothing_local.
Qed.

Lemma createsNothing_syncSucceeded w : createsNothing w (syncSucceeded w).
Proof.
  unfold syncSucceeded.
  eapply createsNothing_trans; [apply createsNothing_setStatus |].
  apply createsNothing_record. exact I.
Qed.

Lemma createsNothing_syncFailed e w : createsNothing w (syncFailed e w).
Proof.
  unfold syncFailed.
  eapply createsNothing_trans; [| apply createsNothing_setStatus].
  eapply createsNothing_trans; apply createsNothing_record; exact I.
Qed.

(** A pass without failures: the collections it creates. *)
Lemma pass_created (w : world) (c : WebDAVClient) :
  noFault w ->
  client w = Some c ->
  createsMissing (ensuredPaths (syncFolder w) w) w (syncWithNextcloud w).2.
Proof.
  intros Hf Hc. rewrite (sync_unfold w c Hc). cbn [snd].
  destruct (setStatus_onlyStatus "Nextcloud: Syncing..." w)
    as (Hsa & Hca & Hfa & Hva & _).
  pose proof (createsNothing_setStatus "Nextcloud: Syncing..." w) as Hna.
  set (wa := (setStatus "Nextcloud: Syncing..." w).2) in *.
  assert (Hfa' : noFault wa) by (intros l c0; rewrite Hfa; apply Hf).
  assert (Hca' : client wa = Some c) by congruence.
  destruct (uploadChanges_created (syncFolder w) wa c Hfa' Hca') as [Hcb Hgb].
  assert (Hps : ensuredPaths (syncFolder w) wa = ensuredPaths (syncFolder w) w).
  { unfold ensuredPaths. rewrite !selectedFiles_keys, Hva.
    apply flat_map_ext. intros g. now apply ensuredFor_settings. }
  rewrite Hps in Hcb.
  apply createsMissing_nothing in Hna. destruct Hna as [Hca0 Hga].
  pose proof (createsMissing_trans _ _ _ _ _ Hga Hca0 Hcb) as Hab.
  cbn [app] in Hab.
  assert (Hend : forall wb wend,
    createsMissing (ensuredPaths (syncFolder w) w) w wb ->
    remoteGrows w wb ->
    createsNothing wb wend ->
    createsMissing (ensuredPaths (syncFolder w) w) w wend).
  { intros wb wend H1 Hg H2. apply createsMissing_nothing in H2.
    destruct H2 as [H2 _].
    pose proof (createsMissing_trans _ _ _ _ _ Hg H1 H2) as H3.
    now rewrite app_nil_r in H3. }
  pose proof (remoteGrows_trans _ _ _ Hga Hgb) as Hgab.
  destruct (uploadChanges (syncFolder w) wa) as [[[]|e] wb]; cbn [snd] in *.
  - pose proof (createsNothing_downloadChanges (syncFolder w) wb) as Hd.
    destruct (downloadChanges (syncFolder w) wb) as [[[]|e] wc];
      cbn [snd] in Hd.
    + apply (Hend wb); [exact Hab | exact Hgab |].
      exact (createsNothing_trans _ _ _ Hd (createsNothing_syncSucceeded wc)).
    + apply (Hend wb); [exact Hab | exact Hgab |].
      exact (createsNothing_trans _ _ _ Hd (createsNothing_syncFailed e wc)).
  - apply (Hend wb); [exact Hab | exact Hgab |].
    apply createsNothing_syncFailed.
Qed.

(* ===================================================================== *)
(** ** The way back of a listed path, whatever the root *)
(* ===================================================================== *)

Lemma startsWith_append_cancel (p s q : string) :
  JS.startsWith (p +:+ s) (p +:+ q) = JS.startsWith s q.
Proof.
  induction p as [|a p IH]; [reflexivity |].
  rewrite !append_cons. cbn [JS.startsWith]. now rewrite Ascii.eqb_refl.
Qed.

(** The local path of a listed remote path is uploaded to that path, when
    the root does not end in a slash or the path does not continue the
    root with a second slash. *)
Lemma upload_of_download_gen (L C r : string) :
  inside (downloadRoot C) r = true ->
  JS.endsWith (downloadRoot C) "/" = false
  \/ JS.startsWith r (uploadRoot C +:+ "/") = false ->
  localToRemote (remoteToLocal r C L) L C = r.
Proof.
  intros Hin Hfit.
  destruct (JS.endsWith (downloadRoot C) "/") eqn:E.
  2: { exact (upload_of_download L C E r Hin). }
  destruct Hfit as [Hfit | Hfit]; [discriminate Hfit |].
  assert (Hroot : uploadRoot C = downloadRoot C).
  { rewrite uploadRoot_is_listed_root. unfold withTrailingSlash. now rewrite E. }
  unfold inside, withTrailingSlash in Hin. rewrite E in Hin.
  apply startsWith_spec in Hin. destruct Hin as [t ->].
  rewrite Hroot, startsWith_append_cancel in Hfit.
  unfold remoteToLocal, localToRemote. cbv zeta.
  rewrite replace_prefix, Hroot. f_equal.
  destruct (JS.truthy L) eqn:EL.
  - apply truthy_true in EL. rewrite (relativePath_under _ _ EL).
    now apply stripSlash_id.
  - destruct L; [| discriminate EL].
    rewrite relativePath_no_base. now apply stripSlash_id.
Qed.

(** After a pass, a second upload leaves the remote files as they are:
    [v0] and [m0] are the vault and the remote files before the first
    pass, [rs] the entries the first download processed, each of which is
    uploaded back to its own path. *)
Lemma second_upload_changes_nothing_gen
    (L C fp : string) (v0 : list (string * string)) (m0 : gmap string string)
    (rs : list RemoteFile) :
  let m1 := uploadedMap L C (selFrom fp (map fst v0)) v0 m0 in
  let v1 := downloadedVault L C m1 rs v0 in
  (forall r, In r rs -> isRemoteMarkdown r = true ->
             is_Some (m1 !! filename r)
             /\ localToRemote (remoteToLocal (filename r) C L) L C
                = filename r) ->
  uploadedMap L C (selFrom fp (map fst v1)) v1 m1 = m1.
Proof.
  intros m1 v1 Hrs.
  assert (Hrs1 : forall r, In r rs -> isRemoteMarkdown r = true ->
                           is_Some (m1 !! filename r))
    by (intros r H1 H2; now apply Hrs).
  assert (Hsel0 : forall f, In f (selFrom fp (map fst v0)) ->
                            is_Some (vlookup (path f) v0))
    by (intros f Hf; now apply vlookup_key, (selFrom_In fp)).
  assert (Hsel1 : forall f, In f (selFrom fp (map fst v1)) ->
                            is_Some (vlookup (path f) v1))
    by (intros f Hf; now apply vlookup_key, (selFrom_In fp)).
  assert (Hentry : forall f r q,
             localToRemote (path f) L C = q ->
             lastEntry L C (path f) rs = Some r ->
             m1 !! filename r = m1 !! q).
  { intros f r q Hq Hlast. unfold lastEntry in Hlast.
    apply List.find_some in Hlast. destruct Hlast as [Hin Hp].
    apply andb_true_iff in Hp. destruct Hp as [Hmd Hp].
    apply String.eqb_eq in Hp. apply in_rev in Hin.
    destruct (Hrs r Hin Hmd) as [_ Hback].
    rewrite <- Hq, <- Hp, Hback. reflexivity. }
  apply map_eq. intros q.
  rewrite (uploadedMap_lookup _ _ _ _ _ _ Hsel1).
  destruct (downloadedVault_keys L C m1 rs v0) as (news & Hkeys & Hnews).
  fold v1 in Hkeys. rewrite Hkeys, selFrom_app, lastUpload_app.
  destruct (lastUpload L C q (selFrom fp news)) as [f|] eqn:Enew.
  - unfold lastUpload in Enew. apply List.find_some in Enew.
    destruct Enew as [Hin Hq]. apply String.eqb_eq in Hq. apply in_rev in Hin.
    apply selFrom_In in Hin. destruct (Hnews _ Hin) as (r & Hr & Hmd & Hpath).
    unfold v1. rewrite (downloadedVault_lookup _ _ _ _ _ _ Hrs1).
    destruct (lastEntry L C (path f) rs) as [r'|] eqn:Elast.
    + exact (Hentry f r' q Hq Elast).
    + exfalso. unfold lastEntry in Elast. apply in_rev in Hr.
      pose proof (List.find_none _ _ Elast r Hr) as Hx. cbv beta in Hx.
      rewrite Hmd, <- Hpath, String.eqb_refl in Hx. discriminate Hx.
  - destruct (lastUpload L C q (selFrom fp (map fst v0))) as [f|] eqn:Eold;
      [| reflexivity].
    assert (Hm1 : m1 !! q = vlookup (path f) v0).
    { unfold m1. now rewrite (uploadedMap_lookup _ _ _ _ _ _ Hsel0), Eold. }
    assert (Hq : localToRemote (path f) L C = q).
    { unfold lastUpload in Eold. apply List.find_some in Eold.
      now apply String.eqb_eq. }
    unfold v1. rewrite (downloadedVault_lookup _ _ _ _ _ _ Hrs1).
    destruct (lastEntry L C (path f) rs) as [r'|] eqn:Elast.
    + exact (Hentry f r' q Hq Elast).
    + now rewrite Hm1.
Qed.

(** After a pass, every markdown entry the first download processed has
    its content in the vault. *)
Lemma downloaded_entry_in_vault_gen
    (L C : string) (m : gmap string string) (rs : list RemoteFile)
    (v : list (string * string)) (r : RemoteFile) :
  (forall r, In r rs -> isRemoteMarkdown r = true ->
             is_Some (m !! filename r)
             /\ localToRemote (remoteToLocal (filename r) C L) L C
                = filename r) ->
  In r rs -> isRemoteMarkdown r = true ->
  vlookup (remoteToLocal (filename r) C L) (downloadedVault L C m rs v)
  = m !! filename r.
Proof.
  intros Hrs Hin Hmd.
  rewrite downloadedVault_lookup by (intros r0 H1 H2; now apply Hrs).
  destruct (lastEntry L C (remoteToLocal (filename r) C L) rs) as [r'|] eqn:E.
  - unfold lastEntry in E. apply List.find_some in E. destruct E as [Hin' Hp].
    apply andb_true_iff in Hp. destruct Hp as [Hmd' Hp].
    apply String.eqb_eq in Hp. apply in_rev in Hin'.
    f_equal.
    destruct (Hrs r' Hin' Hmd') as [_ Hb'].
    destruct (Hrs r Hin Hmd) as [_ Hb].
    now rewrite <- Hb', <- Hb, Hp.
  - exfalso. unfold lastEntry in E. apply in_rev in Hin.
    pose proof (List.find_none _ _ E r Hin) as Hx. cbv beta in Hx.
    rewrite Hmd, String.eqb_refl in Hx. discriminate Hx.
Qed.

(* ===================================================================== *)
(** ** Two passes in a row *)
(* ===================================================================== *)

(** The files after a second pass, and its writes of files. *)
Lemma second_pass_files (w : world) :
  noFault w ->
  last (log (syncWithNextcloud w).2) = Some completed ->
  JS.endsWith (downloadRoot (collectivePath (settings w))) "/" = false
  \/ noDoubledSlash (collectivePath (settings w)) (syncWithNextcloud w).2 ->
  let w1 := (syncWithNextcloud w).2 in
  let w2 := (syncWithNextcloud w1).2 in
  sameLocal w1 w2
  /\ remoteFiles w2 = remoteFiles w1
  /\ exists t,
       log w2 = log w1 ++ t
       /\ localWrites t = []
       /\ remoteWrites t
          = uploadsOf (localFolderPath (settings w1)) (collectivePath (settings w1))
                      (selectedFiles (syncFolder w1) w1) (vault w1).
Proof.
  intros Hf Hdone Hfit w1 w2.
  destruct (first_pass_shape w Hf Hdone) as (c0 & wb & Hc & Hmb & Hv1 & Hm1).
  fold w1 in Hv1, Hm1, Hfit.
  pose proof (samePlugin_syncWithNextcloud w) as (Hs1 & Hc1 & Hf1).
  fold w1 in Hs1, Hc1, Hf1.
  set (L := localFolderPath (settings w)) in *.
  set (C := collectivePath (settings w)) in *.
  assert (Hfp : syncFolder w1 = syncFolder w) by (unfold syncFolder; now rewrite Hs1).
  assert (Hc1' : client w1 = Some c0) by congruence.
  assert (Hf1' : noFault w1) by (intros l c; rewrite Hf1; apply Hf).
  (* the entries the first download processed *)
  set (rs := listing (downloadRoot C) wb) in *.
  assert (Hrs : forall r, In r rs -> isRemoteMarkdown r = true ->
                  is_Some (remoteFiles wb !! filename r)
                  /\ localToRemote (remoteToLocal (filename r) C L) L C
                     = filename r).
  { intros r Hin Hmd.
    destruct (listing_markdown _ wb r Hin Hmd) as (H1 & H2 & _).
    split; [exact H1 |]. apply upload_of_download_gen; [exact H2 |].
    destruct Hfit as [Hfit | Hfit]; [now left | right].
    apply Hfit. now rewrite Hm1. }
  (* the second pass *)
  unfold w2. rewrite (sync_unfold w1 c0 Hc1'). cbn [snd].
  destruct (setStatus_onlyStatus "Nextcloud: Syncing..." w1)
    as (Hsa & Hca & Hfa & Hva & Hfoa & Hma & _ & Hla).
  set (wa := (setStatus "Nextcloud: Syncing..." w1).2) in *.
  assert (Hfa' : noFault wa) by (intros l c; rewrite Hfa; apply Hf1').
  assert (Hca' : client wa = Some c0) by congruence.
  destruct (uploadChanges_free (syncFolder w1) wa c0 Hfa' Hca')
    as (wb2 & Hup & Hfiles & tu & Hlogu & Hru & Hlu).
  pose proof (sameLocal_uploadChanges (syncFolder w1) wa) as [Hvb Hfob].
  pose proof (samePlugin_uploadChanges (syncFolder w1) wa) as (Hsb & Hcb & Hfb).
  rewrite Hup in *. cbn [snd] in *.
  assert (Hfb' : noFault wb2) by (intros l c; rewrite Hfb; apply Hfa').
  assert (Hcb' : client wb2 = Some c0) by congruence.
  (* the second upload leaves the remote files as they are *)
  assert (Hsame : remoteFiles wb2 = remoteFiles w1).
  { rewrite Hfiles, selectedFiles_keys, Hsa, Hs1, Hva, Hma, Hfp, Hv1, Hm1.
    fold L C. rewrite Hmb in Hrs |- *.
    exact (second_upload_changes_nothing_gen L C (syncFolder w) (vault w)
             (remoteFiles w) rs Hrs). }
  (* the second download finds everything in place *)
  assert (Hplace : forall r,
    In r (listing (downloadRoot (collectivePath (settings wb2))) wb2) ->
    isRemoteMarkdown r = true ->
    exists c,
      vlookup (remoteToLocal (filename r) (collectivePath (settings wb2))
                             (localFolderPath (settings wb2)))
              (vault wb2) = Some c
      /\ remoteFiles wb2 !! filename r = Some c).
  { intros r Hin Hmd. rewrite Hsb, Hsa, Hs1 in Hin |- *. fold L C in Hin |- *.
    destruct (listing_markdown _ wb2 r Hin Hmd) as ([c Hc2] & _ & Hany).
    assert (Hin1 : In r rs) by (apply Hany; now rewrite Hsame, Hm1).
    exists c. split; [| exact Hc2].
    rewrite Hvb, Hva, Hv1.
    rewrite (downloaded_entry_in_vault_gen L C _ rs (vault w) r Hrs Hin1 Hmd).
    now rewrite <- Hm1, <- Hsame. }
  destruct (downloadChanges_noop (syncFolder w1) wb2 c0 Hfb' Hcb' Hplace)
    as [[Hvc Hfoc] (td & Hlogd & Hld)].
  pose proof (sameRemote_downloadChanges (syncFolder w1) wb2) as [Hmc _].
  pose proof (quietRemote_downloadChanges (syncFolder w1) wb2)
    as (td' & Hlogd' & Hrd).
  assert (td' = td) by (rewrite Hlogd in Hlogd'; now apply app_inv_head in Hlogd').
  subst td'. clear Hlogd'.
  (* either ending *)
  assert (Hend : forall wc wend,
    wc = (downloadChanges (syncFolder w1) wb2).2 ->
    sameLocal wc wend -> sameRemote wc wend -> quiet wc wend ->
    sameLocal w1 wend /\ remoteFiles wend = remoteFiles w1
    /\ exists t, log wend = log w1 ++ t /\ localWrites t = []
         /\ remoteWrites t
            = uploadsOf (localFolderPath (settings w1))
                        (collectivePath (settings w1))
                        (selectedFiles (syncFolder w1) w1) (vault w1)).
  { intros wc wend -> [Hve Hfoe] [Hme _] (te & Hloge & Hre & Hle).
    split; [split; congruence |]. split; [congruence |].
    exists (tu ++ td ++ te). split; [| split].
    - rewrite Hloge, Hlogd, Hlogu, Hla, <- !app_assoc. reflexivity.
    - now rewrite !localWrites_app, Hlu, Hld, Hle.
    - rewrite !remoteWrites_app, Hru, Hrd, Hre, !app_nil_r.
      now rewrite !selectedFiles_keys, Hsa, Hva. }
  destruct (downloadChanges (syncFolder w1) wb2) as [[[]|e] wc].
  - destruct (syncSucceeded_frame wc) as (H1 & H2 & H3 & _).
    now apply (Hend wc).
  - destruct (syncFailed_frame e wc) as (H1 & H2 & H3 & _).
    now apply (Hend wc).
Qed.

(** C2, amended.  In an environment that injects no failure, take a pass
    that reports completion and run a second pass right after it, where the
    remote root does not end in a slash or no remote path continues the
    root with a second slash.  The second pass performs no local write, no
    file creation and no folder creation and leaves the vault and the local
    folders as they are; it leaves every remote file as it is and removes
    no collection.  It is not free of remote writes: it issues
    [putFileContents] once for every selected local markdown file; and it
    issues [createDirectory] only for paths it ensures for those files that
    were missing on the server, which are the only collections it adds.
    So when every ensured path exists on the server, as it does where the
    ancestors of a file are collections, the second pass creates nothing
    and leaves the whole remote side as it is. *)
Theorem second_run_rewrites_remote_only (w : world) :
  noFault w ->
  last (log (syncWithNextcloud w).2) = Some completed ->
  JS.endsWith (downloadRoot (collectivePath (settings w))) "/" = false
  \/ noDoubledSlash (collectivePath (settings w)) (syncWithNextcloud w).2 ->
  let w1 := (syncWithNextcloud w).2 in
  let w2 := (syncWithNextcloud w1).2 in
  let ensured := ensuredPaths (syncFolder w1) w1 in
  sameLocal w1 w2
  /\ remoteFiles w2 = remoteFiles w1
  /\ remoteDirs w1 ⊆ remoteDirs w2
  /\ (forall p, p ∈ remoteDirs w2 ->
        p ∈ remoteDirs w1 \/ (In p ensured /\ remoteExists p w1 = false))
  /\ exists t,
       log w2 = log w1 ++ t
       /\ localWrites t = []
       /\ remoteWrites t
          = uploadsOf (localFolderPath (settings w1)) (collectivePath (settings w1))
                      (selectedFiles (syncFolder w1) w1) (vault w1)
       /\ (forall p o, In (Called (CreateDirectory p) o) t ->
                       In p ensured /\ remoteExists p w1 = false)
       /\ (allExist ensured w1 ->
           sameRemote w1 w2
           /\ forall p o, ~ In (Called (CreateDirectory p) o) t).
Proof.
  intros Hf Hdone Hfit w1 w2 ensured.
  destruct (second_pass_files w Hf Hdone Hfit) as (Hloc & Hfiles & t & Hlog & Hl & Hr).
  fold w1 w2 in Hloc, Hfiles, Hlog, Hl, Hr.
  pose proof (samePlugin_syncWithNextcloud w) as (_ & Hc1 & Hf1).
  fold w1 in Hc1, Hf1.
  assert (Hf1' : noFault w1) by (intros l c; rewrite Hf1; apply Hf).
  destruct (client w1) as [c0|] eqn:Hcl.
  2: { exfalso. destruct (first_pass_shape w Hf Hdone) as (c0 & _ & Hc & _).
       congruence. }
  destruct (pass_created w1 c0 Hf1' Hcl) as (Hsub & Hnew & t' & Hlog' & Ht').
  fold w2 ensured in Hsub, Hnew, Hlog', Ht'.
  assert (t' = t) by (rewrite Hlog in Hlog'; now apply app_inv_head in Hlog').
  subst t'.
  split; [exact Hloc |]. split; [exact Hfiles |]. split; [exact Hsub |].
  split; [exact Hnew |].
  exists t. split; [exact Hlog |]. split; [exact Hl |]. split; [exact Hr |].
  split; [exact Ht' |].
  intros Hall. split.
  - split; [exact Hfiles |]. apply set_eq. intros p. split.
    + intros Hp. destruct (Hnew p Hp) as [H | [H1 H2]]; [exact H |].
      rewrite (Hall p H1) in H2. discriminate H2.
    + apply Hsub.
  - intros p o Hin. destruct (Ht' p o Hin) as [H1 H2].
    rewrite (Hall p H1) in H2. discriminate H2.
Qed.

Lemma second_run_rewrites_remote_only_witness :
  (sameLocal (syncWithNextcloud oneNote).2
             (syncWithNextcloud (syncWithNextcloud oneNote).2).2
   /\ remoteFiles (syncWithNextcloud (syncWithNextcloud oneNote).2).2
      = remoteFiles (syncWithNextcloud oneNote).2)
  /\ sameLocal (syncWithNextcloud trailingSlashRoot).2
               (syncWithNextcloud (syncWithNextcloud trailingSlashRoot).2).2.
Proof.
  split.
  - destruct (second_run_rewrites_remote_only oneNote) as (H1 & H2 & _).
    + intros l c. reflexivity.
    + vm_compute. reflexivity.
    + left. reflexivity.
    + split; assumption.
  - refine (proj1 (second_run_rewrites_remote_only trailingSlashRoot _ _ _)).
    + intros l c. reflexivity.
    + vm_compute. reflexivity.
    + right. intros q [c Hq].
      assert (E : remoteFiles (syncWithNextcloud trailingSlashRoot).2
                  = <["/Collectives/a.md" := "X"]> ∅)
        by (vm_compute; reflexivity).
      rewrite E in Hq. apply lookup_insert_Some in Hq.
      destruct Hq as [[<- _] | [_ Hq]]; [reflexivity |].
      rewrite lookup_empty in Hq. discriminate Hq.
Defined.

(** The collections are part of the statement: on a server that holds
    [/Collectives/sub/a.md] without recording its ancestors as
    collections, the first pass creates the local file and the second,
    uploading it, creates the two collections. *)
Example second_run_creates_missing_collections :
  let w1 := (syncWithNextcloud orphanNote).2 in
  let w2 := (syncWithNextcloud (set_log [] w1)).2 in
  last (log w1) = Some completed
  /\ elements (remoteDirs w1) = []
  /\ callsIssued (log w2)
     = [VaultRead "notes/sub/a.md"; Stat "/Collectives";
        CreateDirectory "/Collectives"; Stat "/Collectives/sub";
        CreateDirectory "/Collectives/sub";
        PutFileContents "/Collectives/sub/a.md" "X";
        GetDirectoryContents "/Collectives";
        GetFileContents "/Collectives/sub/a.md";
        AdapterExists "notes/sub/a.md"; AdapterRead "notes/sub/a.md"]
  /\ elements (remoteDirs w2) = ["/Collectives/sub"; "/Collectives"].
Proof. vm_compute. repeat split. Qed.

(** With the root [/Collectives/] and ordinary paths the first pass leaves
    the copy [notesa.md] of [notes/a.md]; the second pass uploads both to
    the same remote path and writes nothing locally. *)
Example second_run_with_trailing_slash_root :
  let w1 := (syncWithNextcloud trailingSlashRoot).2 in
  let w2 := (syncWithNextcloud (set_log [] w1)).2 in
  last (log w1) = Some completed
  /\ vault w1 = [("notes/a.md", "X"); ("notesa.md", "X")]
  /\ remoteWrites (log w2)
     = [PutFileContents "/Collectives/a.md" "X";
        PutFileContents "/Collectives/a.md" "X"]
  /\ localWrites (log w2) = [].
Proof. vm_compute. repeat split. Qed.
